(** * SAAM agent orchestrator: a shallow embedding of its core and the
      properties its specification states about it.

    Each module below embeds one Python source file.  Dictionaries are
    stdpp finite maps or records with optional fields, a finite Python
    float is the rational number it denotes ([Q]) and arithmetic on floats
    rounds to binary64 ([Binary64]), exceptions are values of [excepcion]
    returned through [salida], and every read of the clock
    ([time.time()]) is an explicit argument [ahora]. *)

From Stdlib Require Import ZArith QArith Qabs Qround Qpower Lqa Lia Bool Ascii String List Sorted.
From stdpp Require Import gmap strings pretty list fin_maps.

Local Open Scope string_scope.

(** ** Python values, exceptions and call outcomes *)

Module Py.

(** The values the embedded code stores and passes around ([Any]). *)
Inductive valor : Type :=
| VNone
| VBool (b : bool)
| VInt (z : Z)
| VFloat (q : Q)
| VStr (s : string).

(** An exception: [type(e).__name__] and [str(e)]. *)
Record excepcion : Type := Excepcion { tipo_excepcion : string; mensaje : string }.

(** Outcome of a call: a returned value or a raised exception. *)
Inductive salida (A : Type) : Type :=
| Devuelve (a : A)
| Lanza (e : excepcion).

Arguments Devuelve {A} a.
Arguments Lanza {A} e.

(** Sequencing of calls: an exception raised by the first call propagates. *)
#[export] Instance salida_ret : MRet salida := λ A a, Devuelve a.
#[export] Instance salida_bind : MBind salida :=
  λ A B f x, match x with Devuelve a => f a | Lanza e => Lanza e end.

(** [del d[k]]: raises [KeyError] when [k] is not a key of [d]. *)
Definition del_py {V : Type} (k : string) (d : gmap string V) : salida (gmap string V) :=
  match d !! k with
  | Some _ => Devuelve (delete k d)
  | None => Lanza (Excepcion "KeyError" k)
  end.

(** [sub in s] for strings. *)
Fixpoint contiene (sub s : string) : bool :=
  String.prefix sub s ||
  match s with
  | EmptyString => false
  | String _ s' => contiene sub s'
  end.

(** [x in l] for a list of strings. *)
Definition pertenece (x : string) (l : list string) : bool :=
  existsb (String.eqb x) l.

(** [a > b] on Python floats. *)
Definition Qgtb (a b : Q) : bool := negb (Qle_bool a b).

(** The error of [objeto.metodo] when the class of the object defines no
    such attribute. *)
Definition AttributeError (clase metodo : string) : excepcion :=
  Excepcion "AttributeError"
            ("'" ++ clase ++ "' object has no attribute '" ++ metodo ++ "'").

(** [isinstance(e, Exception)].  An exception is told by the name of its
    class; the classes that an [except Exception] clause does not catch
    are these, which derive from [BaseException] only. *)
Definition fuera_de_Exception : list string :=
  ["BaseException"; "KeyboardInterrupt"; "SystemExit"; "GeneratorExit"; "CancelledError"].

Definition es_Exception (e : excepcion) : bool :=
  negb (pertenece (tipo_excepcion e) fuera_de_Exception).

(** [len(s)]: the number of code points of a text held as UTF-8, that is
    of its bytes other than the continuation bytes [10xxxxxx]. *)
Definition es_continuacion (c : ascii) : bool :=
  let n := nat_of_ascii c in ((128 <=? n) && (n <? 192))%nat.

Fixpoint len (s : string) : nat :=
  match s with
  | EmptyString => 0%nat
  | String c s' => ((if es_continuacion c then 0 else 1) + len s')%nat
  end.

End Py.

Import Py.

(** ** Python floats: binary64 arithmetic

    A finite Python float is the rational number it denotes; an arithmetic
    operation on floats gives the exact result rounded to the nearest
    binary64 number. *)

Module Binary64.

Local Open Scope Q_scope.

(** [2 ** e]. *)
Definition pot2 (e : Z) : Q := 2 ^ e.

(** For [x > 0], the exponent [e] with [2 ** e <= x < 2 ** (e + 1)]. *)
Definition exponente (x : Q) : Z :=
  let e0 := (Z.log2 (Qnum x) - Z.log2 (Zpos (Qden x)))%Z in
  if Qle_bool (pot2 e0) x then e0 else (e0 - 1)%Z.

(** The nearest integer, a tie going to the even one. *)
Definition mitad_par (x : Q) : Z :=
  let f := Qfloor x in
  match Qcompare (x - inject_Z f) (1 # 2) with
  | Lt => f
  | Gt => (f + 1)%Z
  | Eq => if Z.even f then f else (f + 1)%Z
  end.

(** The exponent of the spacing of the binary64 numbers around [x > 0]:
    53 significant bits, the subnormal numbers spaced by [2 ** -1074]. *)
Definition cuanto (x : Q) : Z := Z.max (exponente x - 52) (-1074).

(** The nearest multiple of [2 ** k]. *)
Definition rejilla (k : Z) (x : Q) : Q :=
  inject_Z (mitad_par (x / pot2 k)) * pot2 k.

Definition redondear_pos (x : Q) : Q := rejilla (cuanto x) x.

(** Rounding to the nearest binary64 number, ties to even.  Overflow is
    left out: the results below stay under [2 ** 1024]. *)
Definition redondear (x : Q) : Q :=
  match Qcompare x 0 with
  | Eq => 0
  | Gt => redondear_pos x
  | Lt => - redondear_pos (- x)
  end.


Lemma pot2_pos (e : Z) : 0 < pot2 e.
Proof. apply Qpower_0_lt. reflexivity. Qed.

Lemma pot2_le (e e' : Z) : (e <= e')%Z -> pot2 e <= pot2 e'.
Proof. intros H. apply Qpower_le_compat_l; [exact H | discriminate]. Qed.

Lemma pot2_lt (e e' : Z) : (e < e')%Z -> pot2 e < pot2 e'.
Proof. intros H. apply Qpower_lt_compat_l; [exact H | reflexivity]. Qed.

Lemma pot2_suma (e e' : Z) : pot2 (e + e') == pot2 e * pot2 e'.
Proof. apply Qpower_plus. discriminate. Qed.

Lemma pot2_entero (n : Z) : (0 <= n)%Z -> pot2 n == inject_Z (2 ^ n).
Proof. intros H. unfold pot2. rewrite Zpower_Qpower by exact H. reflexivity. Qed.

(** The mantissa rounding. *)
Lemma mitad_par_cotas (x : Q) :
  inject_Z (Qfloor x) <= x /\ x < inject_Z (Qfloor x) + 1.
Proof.
  split; [apply Qfloor_le|].
  pose proof (Qlt_floor x) as H. rewrite inject_Z_plus in H. exact H.
Qed.

Lemma mitad_par_casos (x : Q) :
  (mitad_par x = Qfloor x /\ x - inject_Z (Qfloor x) <= 1 # 2) \/
  (mitad_par x = (Qfloor x + 1)%Z /\ 1 # 2 <= x - inject_Z (Qfloor x)).
Proof.
  unfold mitad_par.
  destruct (Qcompare_spec (x - inject_Z (Qfloor x)) (1 # 2)) as [H|H|H].
  - destruct (Z.even (Qfloor x)); [left | right]; split; try reflexivity; rewrite H; apply Qle_refl.
  - left. split; [reflexivity | apply Qlt_le_weak; exact H].
  - right. split; [reflexivity | apply Qlt_le_weak; exact H].
Qed.

Lemma mitad_par_error (x : Q) :
  x - (1 # 2) <= inject_Z (mitad_par x) /\ inject_Z (mitad_par x) <= x + (1 # 2).
Proof.
  destruct (mitad_par_cotas x) as [H1 H2].
  destruct (mitad_par_casos x) as [[-> H]|[-> H]].
  - split; lra.
  - rewrite inject_Z_plus. change (inject_Z 1) with 1. split; lra.
Qed.

Lemma mitad_par_entero (n : Z) : mitad_par (inject_Z n) = n.
Proof.
  unfold mitad_par. rewrite Qfloor_Z.
  destruct (Qcompare_spec (inject_Z n - inject_Z n) (1 # 2)) as [H|H|H]; try lra.
  reflexivity.
Qed.

Lemma mitad_par_mono (x y : Q) : x <= y -> (mitad_par x <= mitad_par y)%Z.
Proof.
  intros Hxy.
  assert (Qfloor x <= Qfloor y)%Z as Hf by (apply Qfloor_resp_le; exact Hxy).
  destruct (Z.eq_dec (Qfloor x) (Qfloor y)) as [Heq|Hne].
  - unfold mitad_par. rewrite <- Heq.
    destruct (Qcompare_spec (x - inject_Z (Qfloor x)) (1 # 2)) as [H|H|H];
      destruct (Qcompare_spec (y - inject_Z (Qfloor x)) (1 # 2)) as [H'|H'|H'];
      try destruct (Z.even (Qfloor x)); try lia; lra.
  - destruct (mitad_par_casos x) as [[-> _]|[-> _]];
      destruct (mitad_par_casos y) as [[-> _]|[-> _]]; lia.
Qed.

Lemma mitad_par_comp (x y : Q) : x == y -> mitad_par x = mitad_par y.
Proof.
  intros H. unfold mitad_par. rewrite (Qfloor_comp _ _ H).
  assert (Qcompare (x - inject_Z (Qfloor y)) (1 # 2) = Qcompare (y - inject_Z (Qfloor y)) (1 # 2))
    as -> by (apply Qcompare_comp; [rewrite H|]; reflexivity).
  reflexivity.
Qed.

Lemma rejilla_mono (k : Z) (x y : Q) : x <= y -> rejilla k x <= rejilla k y.
Proof.
  intros H. unfold rejilla. pose proof (pot2_pos k) as Hk.
  apply Qmult_le_compat_r; [|apply Qlt_le_weak; exact Hk].
  rewrite <- Zle_Qle. apply mitad_par_mono.
  apply Qmult_le_compat_r; [exact H|].
  apply Qlt_le_weak, Qinv_lt_0_compat. exact Hk.
Qed.

Lemma rejilla_punto (k n : Z) : rejilla k (inject_Z n * pot2 k) == inject_Z n * pot2 k.
Proof.
  unfold rejilla. pose proof (pot2_pos k) as Hk.
  assert (inject_Z n * pot2 k / pot2 k == inject_Z n) as Hq.
  { apply Qdiv_mult_l. lra. }
  rewrite (mitad_par_comp _ _ Hq), mitad_par_entero. reflexivity.
Qed.

Lemma rejilla_error (k : Z) (x : Q) :
  x - pot2 k * (1 # 2) <= rejilla k x /\ rejilla k x <= x + pot2 k * (1 # 2).
Proof.
  unfold rejilla. pose proof (pot2_pos k) as Hk.
  destruct (mitad_par_error (x / pot2 k)) as [H1 H2].
  assert (x == x / pot2 k * pot2 k) as Hx.
  { unfold Qdiv. rewrite <- Qmult_assoc, (Qmult_comm (/ pot2 k)), Qmult_inv_r by lra. ring. }
  split.
  - apply (Qmult_le_compat_r _ _ (pot2 k)) in H1; [|lra].
    setoid_replace (x - pot2 k * (1 # 2)) with ((x / pot2 k - (1 # 2)) * pot2 k)
      using relation Qeq; [exact H1|].
    rewrite Hx at 1. ring.
  - apply (Qmult_le_compat_r _ _ (pot2 k)) in H2; [|lra].
    setoid_replace (x + pot2 k * (1 # 2)) with ((x / pot2 k + (1 # 2)) * pot2 k)
      using relation Qeq; [exact H2|].
    rewrite Hx at 1. ring.
Qed.

Lemma rejilla_cero (k : Z) : rejilla k 0 == 0.
Proof.
  unfold rejilla.
  assert (0 / pot2 k == inject_Z 0) as Hq by (unfold Qdiv; ring).
  rewrite (mitad_par_comp _ _ Hq), mitad_par_entero. ring.
Qed.

Lemma rejilla_nonneg (k : Z) (x : Q) : 0 <= x -> 0 <= rejilla k x.
Proof.
  intros H. pose proof (rejilla_mono k 0 x H) as Hm.
  pose proof (rejilla_cero k) as Hp. lra.
Qed.

Lemma rejilla_comp (k : Z) (x y : Q) : x == y -> rejilla k x == rejilla k y.
Proof.
  intros H. unfold rejilla.
  assert (x / pot2 k == y / pot2 k) as Hq by (rewrite H; reflexivity).
  rewrite (mitad_par_comp _ _ Hq). reflexivity.
Qed.

Lemma cociente_lt (a b c d : Z) :
  (0 < b)%Z -> (0 < d)%Z -> (a * d < c * b)%Z ->
  inject_Z a / inject_Z b < inject_Z c / inject_Z d.
Proof.
  intros Hb Hd H.
  assert (0 < inject_Z b) as Hb' by (rewrite (Zlt_Qlt 0 b) in Hb; exact Hb).
  assert (0 < inject_Z d) as Hd' by (rewrite (Zlt_Qlt 0 d) in Hd; exact Hd).
  apply Qlt_shift_div_l; [exact Hd'|].
  setoid_replace (inject_Z a / inject_Z b * inject_Z d)
    with (inject_Z a * inject_Z d / inject_Z b) using relation Qeq by (unfold Qdiv; ring).
  apply Qlt_shift_div_r; [exact Hb'|].
  rewrite <- !inject_Z_mult, <- Zlt_Qlt. exact H.
Qed.

Lemma cociente_le (a b c d : Z) :
  (0 < b)%Z -> (0 < d)%Z -> (a * d <= c * b)%Z ->
  inject_Z a / inject_Z b <= inject_Z c / inject_Z d.
Proof.
  intros Hb Hd H.
  assert (0 < inject_Z b) as Hb' by (rewrite (Zlt_Qlt 0 b) in Hb; exact Hb).
  assert (0 < inject_Z d) as Hd' by (rewrite (Zlt_Qlt 0 d) in Hd; exact Hd).
  apply Qle_shift_div_l; [exact Hd'|].
  setoid_replace (inject_Z a / inject_Z b * inject_Z d)
    with (inject_Z a * inject_Z d / inject_Z b) using relation Qeq by (unfold Qdiv; ring).
  apply Qle_shift_div_r; [exact Hb'|].
  rewrite <- !inject_Z_mult, <- Zle_Qle. exact H.
Qed.

Lemma pot2_resta (n m : Z) :
  (0 <= n)%Z -> (0 <= m)%Z -> pot2 (n - m) == inject_Z (2 ^ n) / inject_Z (2 ^ m).
Proof.
  intros Hn Hm. unfold pot2. rewrite Qpower_minus by discriminate.
  rewrite !Zpower_Qpower by assumption. reflexivity.
Qed.

Lemma exponente_spec (x : Q) :
  0 < x -> pot2 (exponente x) <= x /\ x < pot2 (exponente x + 1).
Proof.
  intros Hx. destruct x as [a b].
  assert (0 < a)%Z as Ha by (unfold Qlt in Hx; simpl in Hx; lia).
  unfold exponente. cbn [Qnum Qden].
  set (la := Z.log2 a). set (lb := Z.log2 (Z.pos b)).
  assert (0 <= la)%Z as Hla by apply Z.log2_nonneg.
  assert (0 <= lb)%Z as Hlb by apply Z.log2_nonneg.
  destruct (Z.log2_spec a Ha) as [Ha1 Ha2]. fold la in Ha1, Ha2.
  destruct (Z.log2_spec (Z.pos b) ltac:(lia)) as [Hb1 Hb2]. fold lb in Hb1, Hb2.
  assert (0 < 2 ^ la)%Z as Hpa by (apply Z.pow_pos_nonneg; lia).
  assert (0 < 2 ^ lb)%Z as Hpb by (apply Z.pow_pos_nonneg; lia).
  assert (a # b == inject_Z a / inject_Z (Z.pos b)) as Hab by apply Qmake_Qdiv.
  assert (a # b < pot2 (la - lb + 1)) as Hsup.
  { replace (la - lb + 1)%Z with ((la + 1) - lb)%Z by lia.
    rewrite pot2_resta, Hab by lia. apply cociente_lt; [lia | lia |].
    change (Z.succ la) with (la + 1)%Z in Ha2. nia. }
  assert (pot2 (la - lb - 1) <= a # b) as Hinf.
  { replace (la - lb - 1)%Z with (la - (lb + 1))%Z by lia.
    rewrite pot2_resta, Hab by lia. apply cociente_le; [apply Z.pow_pos_nonneg; lia | lia |].
    change (Z.succ lb) with (lb + 1)%Z in Hb2. nia. }
  destruct (Qle_bool (pot2 (la - lb)) (a # b)) eqn:Hle.
  - apply Qle_bool_iff in Hle. split; assumption.
  - assert (~ pot2 (la - lb) <= a # b) as Hn.
    { intros H. apply Qle_bool_iff in H. congruence. }
    apply Qnot_le_lt in Hn. split; [exact Hinf|].
    replace (la - lb - 1 + 1)%Z with (la - lb)%Z by lia. exact Hn.
Qed.

Lemma exponente_lt (x : Q) (e : Z) : 0 < x -> x < pot2 e -> (exponente x < e)%Z.
Proof.
  intros Hx H. destruct (exponente_spec x Hx) as [H1 _].
  apply (Qpower_lt_compat_l_inv 2); [|reflexivity].
  apply Qle_lt_trans with x; assumption.
Qed.

Lemma exponente_le (x : Q) (e : Z) : 0 < x -> pot2 e <= x -> (e <= exponente x)%Z.
Proof.
  intros Hx H. destruct (exponente_spec x Hx) as [_ H2].
  assert (e < exponente x + 1)%Z; [|lia].
  apply (Qpower_lt_compat_l_inv 2); [|reflexivity].
  apply Qle_lt_trans with x; assumption.
Qed.

Lemma exponente_mono (x y : Q) : 0 < x -> x <= y -> (exponente x <= exponente y)%Z.
Proof.
  intros Hx Hxy. apply exponente_le; [lra|].
  destruct (exponente_spec x Hx) as [H1 _]. lra.
Qed.

Lemma pot2_en_rejilla (e k : Z) :
  (k <= e)%Z -> pot2 e == inject_Z (2 ^ (e - k)) * pot2 k.
Proof.
  intros H. replace e with ((e - k) + k)%Z at 1 by lia.
  rewrite pot2_suma, pot2_entero by lia. reflexivity.
Qed.

Lemma redondear_pos_mono (x y : Q) :
  0 < x -> x <= y -> redondear_pos x <= redondear_pos y.
Proof.
  intros Hx Hxy. unfold redondear_pos.
  assert (0 < y) as Hy by lra.
  pose proof (exponente_mono x y Hx Hxy) as He.
  destruct (Z.eq_dec (cuanto x) (cuanto y)) as [Heq|Hne].
  - rewrite Heq. apply rejilla_mono. exact Hxy.
  - unfold cuanto in *.
    assert (exponente x < exponente y)%Z as Hlt by lia.
    assert (Z.max (exponente y - 52) (-1074) = exponente y - 52)%Z as Hky by lia.
    set (kx := Z.max (exponente x - 52) (-1074)) in *.
    rewrite Hky in *.
    set (g := pot2 (exponente y)).
    destruct (exponente_spec x Hx) as [_ Hx2].
    destruct (exponente_spec y Hy) as [Hy1 _].
    assert (x <= g) as Hxg.
    { apply Qlt_le_weak, Qlt_le_trans with (pot2 (exponente x + 1)); [exact Hx2|].
      apply pot2_le. lia. }
    apply Qle_trans with g.
    + apply Qle_trans with (rejilla kx g); [apply rejilla_mono; exact Hxg|].
      unfold g. rewrite (rejilla_comp _ _ _ (pot2_en_rejilla (exponente y) kx ltac:(lia))).
      rewrite rejilla_punto, <- pot2_en_rejilla by lia. apply Qle_refl.
    + apply Qle_trans with (rejilla (exponente y - 52) g); [|apply rejilla_mono; exact Hy1].
      unfold g.
      rewrite (rejilla_comp _ _ _ (pot2_en_rejilla (exponente y) (exponente y - 52) ltac:(lia))).
      rewrite rejilla_punto, <- pot2_en_rejilla by lia. apply Qle_refl.
Qed.

Lemma redondear_nonneg (x : Q) : 0 <= x -> 0 <= redondear x.
Proof.
  intros H. unfold redondear.
  destruct (Qcompare_spec x 0) as [H0|H0|H0]; [apply Qle_refl | lra |].
  apply rejilla_nonneg. exact H.
Qed.

Lemma redondear_mono (x y : Q) : 0 <= x -> x <= y -> redondear x <= redondear y.
Proof.
  intros Hx Hxy. unfold redondear at 1.
  destruct (Qcompare_spec x 0) as [H0|H0|H0]; [|lra|].
  - apply redondear_nonneg. lra.
  - unfold redondear. destruct (Qcompare_spec y 0) as [H1|H1|H1]; [lra | lra |].
    apply redondear_pos_mono; assumption.
Qed.

(** Between 0 and 1 the spacing is at most 2^-53: the error is at most 2^-54. *)
Lemma redondear_error_unidad (x : Q) :
  0 <= x -> x <= 1 ->
  x - pot2 (-54) <= redondear x /\ redondear x <= x + pot2 (-54).
Proof.
  intros H0 H1. pose proof (pot2_pos (-54)) as Hp.
  unfold redondear. destruct (Qcompare_spec x 0) as [Hc|Hc|Hc]; [lra | lra |].
  unfold redondear_pos.
  destruct (Qlt_le_dec x 1) as [Hlt|Hge].
  - assert (exponente x < 0)%Z as He by (apply exponente_lt; [exact Hc | exact Hlt]).
    destruct (rejilla_error (cuanto x) x) as [E1 E2].
    assert (pot2 (cuanto x) * (1 # 2) <= pot2 (-54)) as Hq.
    { assert (pot2 (-54) == pot2 (-53) * (1 # 2)) as -> by reflexivity.
      apply Qmult_le_compat_r; [|discriminate]. apply pot2_le. unfold cuanto. lia. }
    split; lra.
  - assert (x == 1) as Hx by lra.
    assert (exponente x = 0%Z) as He.
    { apply Z.le_antisymm.
      - assert (exponente x < 1)%Z; [|lia]. apply exponente_lt; [exact Hc|].
        change (pot2 1) with 2. lra.
      - apply exponente_le; [exact Hc|]. change (pot2 0) with 1. lra. }
    unfold cuanto. rewrite He. change (Z.max (0 - 52) (-1074)) with (-52)%Z.
    assert (rejilla (-52) x == 1) as Hr.
    { rewrite (rejilla_comp _ _ _ Hx).
      assert (1 == inject_Z (2 ^ 52) * pot2 (-52)) as H by reflexivity.
      rewrite (rejilla_comp _ _ _ H), rejilla_punto. symmetry. exact H. }
    rewrite Hr. split; lra.
Qed.


Lemma exponente_unico (x : Q) (e : Z) :
  0 < x -> pot2 e <= x -> x < pot2 (e + 1) -> exponente x = e.
Proof.
  intros Hx H1 H2. pose proof (exponente_lt x (e + 1) Hx H2).
  pose proof (exponente_le x e Hx H1). lia.
Qed.

Lemma redondear_comp_pos (x y : Q) : 0 < x -> x == y -> redondear x == redondear y.
Proof.
  intros Hx Hxy. apply Qle_antisym; apply redondear_mono; lra.
Qed.

(** A point of the grid of its own binade is a binary64 number. *)
Lemma redondear_punto (n k : Z) :
  (0 <= n <= 2 ^ 53)%Z -> (-1074 <= k)%Z ->
  redondear (inject_Z n * pot2 k) == inject_Z n * pot2 k.
Proof.
  intros Hn Hk. pose proof (pot2_pos k) as Hp.
  set (y := inject_Z n * pot2 k).
  unfold redondear. destruct (Qcompare_spec y 0) as [H0|H0|H0].
  - symmetry. exact H0.
  - exfalso. unfold y in H0.
    assert (0 <= inject_Z n) by (rewrite (Zle_Qle 0 n) in Hn; apply Hn).
    assert (0 <= inject_Z n * pot2 k) by (apply Qmult_le_0_compat; lra). lra.
  - unfold redondear_pos.
    assert (0 < n)%Z as Hn0.
    { destruct (Z.eq_dec n 0%Z) as [->|]; [|lia]. unfold y in H0.
      assert (inject_Z 0 * pot2 k == 0) by ring. lra. }
    set (l := Z.log2 n).
    destruct (Z.log2_spec n Hn0) as [L1 L2]. fold l in L1, L2.
    change (Z.succ l) with (l + 1)%Z in L2.
    assert (0 <= l)%Z as Hl by apply Z.log2_nonneg.
    assert (l <= 53)%Z as Hl53.
    { destruct (Z_le_gt_dec l 53%Z) as [|Hgt]; [assumption|exfalso].
      assert (2 ^ 54 <= 2 ^ l)%Z by (apply Z.pow_le_mono_r; lia). 
      assert (2 ^ 53 < 2 ^ 54)%Z by (apply Z.pow_lt_mono_r; lia). lia. }
    assert (exponente y = (l + k)%Z) as He.
    { apply exponente_unico; [exact H0 | |].
      - rewrite pot2_suma, pot2_entero by lia. unfold y.
        apply Qmult_le_compat_r; [|lra]. rewrite <- Zle_Qle. exact L1.
      - replace (l + k + 1)%Z with ((l + 1) + k)%Z by lia.
        rewrite pot2_suma, pot2_entero by lia. unfold y.
        apply Qmult_lt_compat_r; [lra|]. rewrite <- Zlt_Qlt. exact L2. }
    unfold cuanto. rewrite He.
    set (k' := Z.max (l + k - 52) (-1074)).
    destruct (Z.eq_dec l 53%Z) as [Hl'|Hl'].
    + (* n = 2^53 *)
      assert (n = 2 ^ 53)%Z as -> by (subst l; rewrite Hl' in L1; lia).
      assert (y == inject_Z (2 ^ 52) * pot2 (k + 1)) as Hy.
      { unfold y. rewrite pot2_suma. change (pot2 1) with 2.
        change (inject_Z (2 ^ 53)) with (inject_Z (2 ^ 52) * 2). ring. }
      assert (k' = k + 1)%Z as -> by (unfold k'; lia).
      rewrite (rejilla_comp _ _ _ Hy), rejilla_punto. symmetry. exact Hy.
    + assert (k' <= k)%Z as Hk'' by (unfold k'; lia).
      assert (y == inject_Z (n * 2 ^ (k - k')) * pot2 k') as Hy.
      { unfold y. rewrite inject_Z_mult, (pot2_en_rejilla k k') by lia. ring. }
      rewrite (rejilla_comp _ _ _ Hy), rejilla_punto. symmetry. exact Hy.
Qed.

(** The result of a rounding is a binary64 number. *)
Lemma redondear_idempotente (x : Q) :
  0 <= x -> redondear (redondear x) == redondear x.
Proof.
  intros Hx. unfold redondear at 2 3.
  destruct (Qcompare_spec x 0) as [H0|H0|H0]; [reflexivity | lra |].
  unfold redondear_pos, rejilla.
  set (k := cuanto x). set (n := mitad_par (x / pot2 k)).
  apply redondear_punto; [|unfold k, cuanto; lia].
  pose proof (pot2_pos k) as Hp.
  destruct (exponente_spec x H0) as [E1 E2].
  split.
  - rewrite <- (mitad_par_entero 0). apply mitad_par_mono.
    apply Qle_shift_div_l; [exact Hp|].
    setoid_replace (inject_Z 0 * pot2 k) with 0 using relation Qeq by ring. lra.
  - rewrite <- (mitad_par_entero (2 ^ 53)). apply mitad_par_mono.
    apply Qle_shift_div_r; [exact Hp|].
    apply Qlt_le_weak, Qlt_le_trans with (pot2 (exponente x + 1)); [exact E2|].
    rewrite <- pot2_entero by lia. rewrite <- pot2_suma. apply pot2_le.
    unfold k, cuanto. lia.
Qed.



Lemma redondear_nonpos (x : Q) : x <= 0 -> redondear x <= 0.
Proof.
  intros H. unfold redondear.
  destruct (Qcompare_spec x 0) as [H0|H0|H0]; [apply Qle_refl | | lra].
  assert (0 <= rejilla (cuanto (- x)) (- x)) by (apply rejilla_nonneg; lra).
  unfold redondear_pos. lra.
Qed.

(** Rounding is monotone. *)
Lemma redondear_creciente (x y : Q) : x <= y -> redondear x <= redondear y.
Proof.
  intros Hxy. destruct (Qlt_le_dec x 0) as [Hx|Hx].
  - destruct (Qlt_le_dec y 0) as [Hy|Hy].
    + unfold redondear.
      destruct (Qcompare_spec x 0) as [H0|H0|H0]; [lra | | lra].
      destruct (Qcompare_spec y 0) as [H1|H1|H1]; [lra | | lra].
      assert (redondear_pos (- y) <= redondear_pos (- x))
        by (apply redondear_pos_mono; lra).
      lra.
    + apply Qle_trans with 0; [apply redondear_nonpos; lra | apply redondear_nonneg; exact Hy].
  - apply redondear_mono; assumption.
Qed.

Lemma redondear_comp (x y : Q) : x == y -> redondear x == redondear y.
Proof. intros H. apply Qle_antisym; apply redondear_creciente; lra. Qed.

Lemma redondear_opuesto (x : Q) : redondear (- x) == - redondear x.
Proof.
  unfold redondear.
  destruct (Qcompare_spec x 0) as [H0|H0|H0];
    destruct (Qcompare_spec (- x) 0) as [H1|H1|H1]; try lra; try ring.
  assert (redondear (- - x) == redondear x) as H by (apply redondear_comp; ring).
  unfold redondear in H.
  destruct (Qcompare_spec (- - x) 0) as [H2|H2|H2]; try lra.
  destruct (Qcompare_spec x 0) as [H3|H3|H3]; try lra.
Qed.

Lemma redondear_fijo (x : Q) : redondear (redondear x) == redondear x.
Proof.
  destruct (Qlt_le_dec x 0) as [Hx|Hx]; [|apply redondear_idempotente; exact Hx].
  assert (redondear x == - redondear (- x)) as H.
  { rewrite <- redondear_opuesto. apply redondear_comp. ring. }
  rewrite (redondear_comp _ _ H), redondear_opuesto, H.
  rewrite redondear_idempotente by lra. reflexivity.
Qed.

(** The binary64 numbers: the rationals that rounding leaves as they are. *)
Definition es_float (x : Q) : Prop := redondear x == x.

(** The arithmetic of Python floats: the exact result, rounded. *)
Definition fsuma (a b : Q) : Q := redondear (a + b).
Definition fresta (a b : Q) : Q := redondear (a - b).
Definition fprod (a b : Q) : Q := redondear (a * b).

Lemma es_float_redondear (x : Q) : es_float (redondear x).
Proof. apply redondear_fijo. Qed.


(** The floats of the literals [0.1] and [0.3], and one sum that rounds. *)
Example float_0_1 : redondear (1 # 10) == 3602879701896397 # 36028797018963968.
Proof. vm_compute. reflexivity. Qed.

Example float_0_3 : redondear (3 # 10) == 5404319552844595 # 18014398509481984.
Proof. vm_compute. reflexivity. Qed.

Example suma_que_redondea :
  fsuma (redondear (1 # 10)) (redondear (2 # 10)) == 1351079888211149 # 4503599627370496.
Proof. vm_compute. reflexivity. Qed.

End Binary64.

(** ** src/memoria/trabajo.py : the working store *)

Module MemoriaTrabajo.

(** The object state of [MemoriaTrabajo].  [temporizadores] records the
    [threading.Timer]s started by [guardar]: the delay and the key that the
    timer's callback will pass to [eliminar]. *)
Record t : Type := Mk {
  _almacen : gmap string valor;
  _timestamp_acceso : gmap string Q;
  _timestamp_creacion : gmap string Q;
  timeout : Q;
  temporizadores : list (Z * string)
}.

(** [__init__(timeout)]. *)
Definition nueva (timeout : Q) : t :=
  Mk ∅ ∅ ∅ timeout [].

(** The keys selected by the comprehension of [_limpiar_expirados]:
    [[clave for clave, timestamp in self._timestamp_acceso.items()
       if ahora - timestamp > self.timeout]]; the difference is a
    subtraction of floats. *)
Definition claves_a_eliminar (ahora : Q) (m : t) : list string :=
  (filter (λ p : string * Q, Qgtb (Binary64.fresta ahora p.2) (timeout m) = true)
          (map_to_list (_timestamp_acceso m))).*1.

(** The three [del] statements for one key; a [KeyError] leaves the maps
    deleted so far deleted. *)
Definition borrar_clave (clave : string) (m : t) : option excepcion * t :=
  match del_py clave (_almacen m) with
  | Lanza e => (Some e, m)
  | Devuelve a =>
    let m1 := Mk a (_timestamp_acceso m) (_timestamp_creacion m) (timeout m) (temporizadores m) in
    match del_py clave (_timestamp_acceso m1) with
    | Lanza e => (Some e, m1)
    | Devuelve acc =>
      let m2 := Mk a acc (_timestamp_creacion m1) (timeout m1) (temporizadores m1) in
      match del_py clave (_timestamp_creacion m2) with
      | Lanza e => (Some e, m2)
      | Devuelve cre => (None, Mk a acc cre (timeout m2) (temporizadores m2))
      end
    end
  end.

(** The [for clave in claves_a_eliminar] loop. *)
Fixpoint borrar_claves (claves : list string) (m : t) : option excepcion * t :=
  match claves with
  | [] => (None, m)
  | clave :: resto =>
    match borrar_clave clave m with
    | (Some e, m') => (Some e, m')
    | (None, m') => borrar_claves resto m'
    end
  end.

(** [_limpiar_expirados()], run at clock reading [ahora]. *)
Definition _limpiar_expirados (ahora : Q) (m : t) : option excepcion * t :=
  borrar_claves (claves_a_eliminar ahora m) m.

(** [guardar(clave, valor, expiration)], run at clock reading [ahora]. *)
Definition guardar (clave : string) (v : valor) (expiration : option Z) (ahora : Q) (m : t) : t :=
  Mk (<[clave := v]> (_almacen m))
     (<[clave := ahora]> (_timestamp_acceso m))
     (<[clave := ahora]> (_timestamp_creacion m))
     (timeout m)
     (match expiration with
      | Some e => if (e =? 0)%Z then temporizadores m else temporizadores m ++ [(e, clave)]
      | None => temporizadores m
      end).

(** [obtener(clave, default)], run at clock reading [ahora]: there is no
    expiry test, only the membership test on [_almacen]. *)
Definition obtener (clave : string) (default : valor) (ahora : Q) (m : t) : valor * t :=
  match _almacen m !! clave with
  | Some v =>
    (v, Mk (_almacen m) (<[clave := ahora]> (_timestamp_acceso m))
           (_timestamp_creacion m) (timeout m) (temporizadores m))
  | None => (default, m)
  end.

(** [eliminar(clave)]. *)
Definition eliminar (clave : string) (m : t) : salida bool * t :=
  match _almacen m !! clave with
  | Some _ =>
    match borrar_clave clave m with
    | (Some e, m') => (Lanza e, m')
    | (None, m') => (Devuelve true, m')
    end
  | None => (Devuelve false, m)
  end.

(** [limpiar_todo()]. *)
Definition limpiar_todo (m : t) : t :=
  Mk ∅ ∅ ∅ (timeout m) (temporizadores m).

(** The public operations and the background sweep, as events on one store.
    A fired timer is an [OpEliminar]. *)
Inductive operacion : Type :=
| OpGuardar (clave : string) (v : valor) (expiration : option Z) (ahora : Q)
| OpObtener (clave : string) (default : valor) (ahora : Q)
| OpEliminar (clave : string)
| OpLimpiarTodo
| OpBarrido (ahora : Q).

Definition paso (m : t) (op : operacion) : t :=
  match op with
  | OpGuardar clave v expiration ahora => guardar clave v expiration ahora m
  | OpObtener clave default ahora => (obtener clave default ahora m).2
  | OpEliminar clave => (eliminar clave m).2
  | OpLimpiarTodo => limpiar_todo m
  | OpBarrido ahora => (_limpiar_expirados ahora m).2
  end.

(** Whether the operation raised. *)
Definition lanza (m : t) (op : operacion) : bool :=
  match op with
  | OpEliminar clave => match (eliminar clave m).1 with Lanza _ => true | _ => false end
  | OpBarrido ahora => match (_limpiar_expirados ahora m).1 with Some _ => true | None => false end
  | _ => false
  end.

Definition ejecutar (ops : list operacion) (m : t) : t := foldl paso m ops.

(** The three maps have one key set. *)
Definition coherente (m : t) : Prop :=
  dom (_almacen m) = dom (_timestamp_acceso m) ∧
  dom (_almacen m) = dom (_timestamp_creacion m).

(** The store with the keys of [l] removed from the three maps. *)
Definition sin_claves (l : list string) (m : t) : t :=
  Mk (foldl (λ d k, delete k d) (_almacen m) l)
     (foldl (λ d k, delete k d) (_timestamp_acceso m) l)
     (foldl (λ d k, delete k d) (_timestamp_creacion m) l)
     (timeout m) (temporizadores m).

Lemma coherente_nueva (tmo : Q) : coherente (nueva tmo).
Proof. split; reflexivity. Qed.

Lemma borrar_clave_coherente (clave : string) (m : t) :
  coherente m → clave ∈ dom (_almacen m) →
  borrar_clave clave m = (None, sin_claves [clave] m).
Proof.
  intros [Ha Hc] Hin. unfold borrar_clave, del_py.
  assert (is_Some (_almacen m !! clave)) as [v Hv] by (by apply elem_of_dom).
  assert (is_Some (_timestamp_acceso m !! clave)) as [va Hva]
    by (apply elem_of_dom; by rewrite <- Ha).
  assert (is_Some (_timestamp_creacion m !! clave)) as [vc Hvc]
    by (apply elem_of_dom; by rewrite <- Hc).
  rewrite Hv. simpl. rewrite Hva. simpl. rewrite Hvc. reflexivity.
Qed.

Lemma coherente_sin_claves (l : list string) (m : t) :
  coherente m → coherente (sin_claves l m).
Proof.
  revert m. induction l as [|k l IH]; intros m Hm; [destruct m; exact Hm|].
  specialize (IH (sin_claves [k] m)).
  unfold sin_claves in *. simpl in *. apply IH.
  destruct Hm as [Ha Hc]. split; simpl; rewrite !dom_delete_L; congruence.
Qed.

Lemma lookup_foldl_delete {V : Type} (l : list string) (d : gmap string V) (k : string) :
  foldl (λ d k, delete k d) d l !! k = if decide (k ∈ l) then None else d !! k.
Proof.
  revert d. induction l as [|x l IH]; intros d; simpl.
  - destruct (decide (k ∈ [])) as [H|H]; [by apply elem_of_nil in H | done].
  - rewrite IH. destruct (decide (k ∈ l)) as [Hl|Hl].
    + rewrite decide_True; [done | by right].
    + destruct (decide (k = x)) as [->|Hne].
      * rewrite lookup_delete_eq, decide_True; [done | left].
      * rewrite lookup_delete_ne by done.
        rewrite decide_False; [done|].
        intros [?|?]%elem_of_cons; done.
Qed.

Lemma borrar_claves_coherente (l : list string) (m : t) :
  coherente m → NoDup l → (∀ k, k ∈ l → k ∈ dom (_almacen m)) →
  borrar_claves l m = (None, sin_claves l m).
Proof.
  revert m. induction l as [|k l IH]; intros m Hm Hnd Hin.
  - destruct m; reflexivity.
  - simpl. rewrite borrar_clave_coherente; [|done|apply Hin; left].
    apply NoDup_cons in Hnd as [Hk Hnd].
    rewrite IH; [reflexivity| by apply coherente_sin_claves | done |].
    intros k' Hk'. apply elem_of_dom. simpl.
    rewrite lookup_delete_ne by (intros ->; done).
    apply elem_of_dom, Hin. by right.
Qed.

Lemma claves_a_eliminar_NoDup (ahora : Q) (m : t) : NoDup (claves_a_eliminar ahora m).
Proof.
  unfold claves_a_eliminar.
  apply NoDup_fmap_fst.
  - intros k x y Hx Hy.
    apply list_elem_of_filter in Hx as [_ Hx]. apply list_elem_of_filter in Hy as [_ Hy].
    apply elem_of_map_to_list in Hx, Hy. congruence.
  - apply NoDup_filter, NoDup_map_to_list.
Qed.

Lemma elem_of_claves_a_eliminar (ahora : Q) (m : t) (k : string) :
  k ∈ claves_a_eliminar ahora m ↔
  ∃ ts, _timestamp_acceso m !! k = Some ts ∧
        Qgtb (Binary64.fresta ahora ts) (timeout m) = true.
Proof.
  unfold claves_a_eliminar. rewrite list_elem_of_fmap. split.
  - intros [[k' ts] [-> H]]. apply list_elem_of_filter in H as [Hgt H].
    apply elem_of_map_to_list in H. exists ts. done.
  - intros (ts & Hts & Hgt). exists (k, ts). split; [done|].
    apply list_elem_of_filter. split; [done|]. by apply elem_of_map_to_list.
Qed.

Lemma _limpiar_expirados_coherente (ahora : Q) (m : t) :
  coherente m →
  _limpiar_expirados ahora m = (None, sin_claves (claves_a_eliminar ahora m) m).
Proof.
  intros Hm. unfold _limpiar_expirados.
  apply borrar_claves_coherente; [done | apply claves_a_eliminar_NoDup |].
  intros k Hk. apply elem_of_claves_a_eliminar in Hk as (ts & Hts & _).
  destruct Hm as [-> _]. apply elem_of_dom. eauto.
Qed.

Lemma paso_coherente (m : t) (op : operacion) :
  coherente m → coherente (paso m op) ∧ lanza m op = false.
Proof.
  intros Hm. destruct op as [clave v ex ahora|clave d ahora|clave| |ahora]; simpl.
  - split; [|done]. destruct Hm as [Ha Hc].
    split; simpl; rewrite !dom_insert_L; congruence.
  - split; [|done]. unfold obtener.
    destruct (_almacen m !! clave) as [v|] eqn:Hv; [|done].
    destruct Hm as [Ha Hc]. split; simpl; [|done].
    rewrite dom_insert_L, <- Ha. symmetry.
    apply subseteq_union_1_L, singleton_subseteq_l, elem_of_dom. eauto.
  - unfold eliminar. destruct (_almacen m !! clave) as [v|] eqn:Hv; [|done].
    rewrite borrar_clave_coherente; [|done|apply elem_of_dom; eauto].
    split; [|done]. by apply coherente_sin_claves.
  - split; [|done]. split; reflexivity.
  - rewrite _limpiar_expirados_coherente by done.
    split; [|done]. by apply coherente_sin_claves.
Qed.

Lemma ejecutar_coherente (ops : list operacion) (m : t) :
  coherente m → coherente (ejecutar ops m).
Proof.
  revert m. induction ops as [|op ops IH]; intros m Hm; [done|].
  simpl. apply IH. by apply paso_coherente.
Qed.

Lemma ejecutar_timeout (ops : list operacion) (m : t) :
  timeout (ejecutar ops m) = timeout m.
Proof.
  revert m. induction ops as [|op ops IH]; intros m; [done|].
  simpl. rewrite IH.
  destruct op as [clave v ex ahora|clave d ahora|clave| |ahora]; simpl; try done.
  - unfold obtener. by destruct (_almacen m !! clave).
  - unfold eliminar, borrar_clave, del_py.
    repeat (case_match; simplify_eq/=; try done).
  - unfold _limpiar_expirados. generalize (claves_a_eliminar ahora m).
    intros l. revert m. induction l as [|k l IHl]; intros m; [done|].
    simpl. destruct (borrar_clave k m) as [[e|] m'] eqn:Hb; simpl.
    + unfold borrar_clave, del_py in Hb.
      repeat (case_match; simplify_eq/=; try done).
    + rewrite IHl. unfold borrar_clave, del_py in Hb.
      repeat (case_match; simplify_eq/=; try done).
Qed.

(** No operation of a run from the empty store raises: the [del]
    statements always find their key. *)
Lemma ejecutar_no_lanza (tmo : Q) (ops : list operacion) (op : operacion) :
  lanza (ejecutar ops (nueva tmo)) op = false.
Proof.
  apply paso_coherente, ejecutar_coherente, coherente_nueva.
Qed.


(** C3, as stated, fails: an entry created at time 0 under a time-to-live
    of 3600 s, read once at 3000 s, survives the sweep run at 3601 s and is
    still returned by a get at 3601 s; without any sweep a get returns it
    as well. *)
Lemma C3_counterexample :
  let m0 := guardar "k" (VInt 1) None 0 (nueva 3600) in
  let m1 := (obtener "k" VNone 3000 m0).2 in
  let m2 := (_limpiar_expirados 3601 m1).2 in
  (_timestamp_creacion m2 !! "k" = Some 0%Q ∧ (3601 - 0 > timeout m2)%Q ∧
   (obtener "k" VNone 3601 m2).1 = VInt 1) ∧
  (_timestamp_creacion m0 !! "k" = Some 0%Q ∧ (3601 - 0 > timeout m0)%Q ∧
   (obtener "k" VNone 3601 m0).1 = VInt 1).
Proof.
  cbv zeta. repeat split; try (vm_compute; reflexivity).
Qed.

(** What a sweep does to one entry of a coherent store: it goes exactly
    when the test of the sweep, on the last access of the entry, holds. *)
Lemma barrido_por_ultimo_acceso (m : t) (k : string) (v d : valor) (ts ahora ahora' : Q) :
  coherente m →
  _almacen m !! k = Some v →
  _timestamp_acceso m !! k = Some ts →
  ((timeout m < Binary64.fresta ahora ts)%Q →
   _almacen (_limpiar_expirados ahora m).2 !! k = None ∧
   (obtener k d ahora' (_limpiar_expirados ahora m).2).1 = d) ∧
  ((Binary64.fresta ahora ts <= timeout m)%Q →
   _almacen (_limpiar_expirados ahora m).2 !! k = Some v ∧
   (obtener k d ahora' (_limpiar_expirados ahora m).2).1 = v).
Proof.
  intros Hm Hv Hts.
  rewrite _limpiar_expirados_coherente by done.
  unfold obtener. simpl. rewrite lookup_foldl_delete. simpl.
  split; intros Hcmp.
  - rewrite decide_True; [done|].
    apply elem_of_claves_a_eliminar. exists ts. split; [done|].
    unfold Qgtb.
    destruct (Qle_bool (Binary64.fresta ahora ts) (timeout m)) eqn:Hle; [|done].
    apply Qle_bool_iff in Hle. lra.
  - rewrite decide_False; [by rewrite Hv|].
    intros (ts' & Hts' & Hgt)%elem_of_claves_a_eliminar.
    rewrite Hts in Hts'. injection Hts' as <-.
    unfold Qgtb in Hgt.
    apply Qle_bool_iff in Hcmp. by rewrite Hcmp in Hgt.
Qed.

(** C3, amended.  On a store reached from the empty one, for a stored key
    whose last access (its put or its latest get) was at [ts]:
    - a get makes no expiry test: it returns the stored value whatever the
      entry's age, sets the last-access time of the key to its own clock
      reading and changes nothing else;
    - no put and no get removes the entry: the next operation removes it
      exactly when it is a delete of the key (called by the user or by the
      timer of an expiration, whose callback is [eliminar]), a clear, or a
      sweep whose test [t - ts > ttl], a subtraction of floats, holds;
    - a put with an expiration other than 0 starts such a timer;
    - after a sweep run at [ahora] a get returns the default when the
      test [ahora - ts > ttl] holds and the stored value when it fails;
    - so a read postpones the expiry: after a get at [ahora'], a sweep at
      [ahora] whose test fails on [ahora'] keeps the entry, whatever
      [ts]. *)
Theorem C3_expira_por_ultimo_acceso_en_barrido
    (tmo : Q) (ops : list operacion) (k : string) (v d : valor) (ts ahora ahora' : Q)
    (op : operacion) :
  let m := ejecutar ops (nueva tmo) in
  let leido := (obtener k d ahora' m).2 in
  _almacen m !! k = Some v →
  _timestamp_acceso m !! k = Some ts →
  ((obtener k d ahora' m).1 = v ∧
   _timestamp_acceso leido = <[k := ahora']> (_timestamp_acceso m) ∧
   _almacen leido = _almacen m ∧
   _timestamp_creacion leido = _timestamp_creacion m) ∧
  (_almacen (paso m op) !! k = None ↔
   op = OpEliminar k ∨ op = OpLimpiarTodo ∨
   ∃ t, op = OpBarrido t ∧ (tmo < Binary64.fresta t ts)%Q) ∧
  (∀ v' e t, e ≠ 0%Z → In (e, k) (temporizadores (guardar k v' (Some e) t m))) ∧
  ((tmo < Binary64.fresta ahora ts)%Q →
   (obtener k d ahora' (_limpiar_expirados ahora m).2).1 = d) ∧
  ((Binary64.fresta ahora ts <= tmo)%Q →
   (obtener k d ahora' (_limpiar_expirados ahora m).2).1 = v) ∧
  ((Binary64.fresta ahora ahora' <= tmo)%Q →
   (obtener k d ahora' (_limpiar_expirados ahora leido).2).1 = v).
Proof.
  intros m leido Hv Hts.
  assert (coherente m) as Hm by apply ejecutar_coherente, coherente_nueva.
  assert (timeout m = tmo) as Htmo by apply ejecutar_timeout.
  assert (leido = Mk (_almacen m) (<[k := ahora']> (_timestamp_acceso m))
                     (_timestamp_creacion m) (timeout m) (temporizadores m)) as Hleido
    by (unfold leido, obtener; by rewrite Hv).
  split; [|split; [|split; [|split; [|split]]]].
  - rewrite Hleido. unfold obtener. by rewrite Hv.
  - destruct op as [k' v' ex t|k' d' t|k'| |t]; simpl.
    + split.
      * destruct (decide (k' = k)) as [->|Hne];
          [by rewrite lookup_insert_eq | by rewrite lookup_insert_ne, Hv].
      * intros [H|[H|(t' & H & _)]]; discriminate.
    + split.
      * unfold obtener. destruct (_almacen m !! k'); simpl; by rewrite Hv.
      * intros [H|[H|(t' & H & _)]]; discriminate.
    + unfold eliminar. destruct (_almacen m !! k') as [w|] eqn:Hk'.
      * rewrite borrar_clave_coherente; [|done|apply elem_of_dom; eauto]. simpl.
        destruct (decide (k' = k)) as [->|Hne].
        -- rewrite lookup_delete_eq. split; [by left | done].
        -- rewrite lookup_delete_ne, Hv by done. split; [done|].
           intros [[= ->]|[H|(t' & H & _)]]; done.
      * simpl. rewrite Hv. split; [done|].
        intros [[= ->]|[H|(t' & H & _)]]; [congruence | done | done].
    + split; [by right; left | done].
    + destruct (barrido_por_ultimo_acceso m k v d ts t ahora' Hm Hv Hts) as [Hsi Hno].
      rewrite Htmo in Hsi, Hno. split.
      * intros Hnone. right. right. exists t. split; [done|].
        destruct (Qlt_le_dec tmo (Binary64.fresta t ts)) as [|Hle]; [done|].
        destruct (Hno Hle) as [Hk _]. congruence.
      * intros [H|[H|(t' & [= <-] & Hgt)]]; [done | done |]. by apply Hsi.
  - intros v' e t He. simpl. apply Z.eqb_neq in He as ->. apply in_or_app. right. by left.
  - intros Hcmp. rewrite <- Htmo in Hcmp.
    by apply (barrido_por_ultimo_acceso m k v d ts ahora ahora' Hm Hv Hts).
  - intros Hcmp. rewrite <- Htmo in Hcmp.
    by apply (barrido_por_ultimo_acceso m k v d ts ahora ahora' Hm Hv Hts).
  - intros Hcmp.
    assert (coherente leido) as Hml.
    { pose proof (paso_coherente m (OpObtener k d ahora') Hm) as [H _]. exact H. }
    assert (timeout leido = tmo) as Htl by (by rewrite Hleido).
    rewrite <- Htl in Hcmp.
    apply (barrido_por_ultimo_acceso leido k v d ahora' ahora ahora' Hml);
      [by rewrite Hleido | by rewrite Hleido; simpl; rewrite lookup_insert_eq | done].
Qed.

Lemma C3_witness :
  let m := ejecutar [OpGuardar "k" (VInt 1) None 0] (nueva 3600) in
  let leido := (obtener "k" VNone 3000 m).2 in
  ((obtener "k" VNone 3000 m).1 = VInt 1 ∧
   _timestamp_acceso leido = <["k" := 3000%Q]> (_timestamp_acceso m) ∧
   _almacen leido = _almacen m ∧
   _timestamp_creacion leido = _timestamp_creacion m) ∧
  (_almacen (paso m (OpBarrido 3601)) !! "k" = None ↔
   OpBarrido 3601 = OpEliminar "k" ∨ OpBarrido 3601 = OpLimpiarTodo ∨
   ∃ t, OpBarrido 3601 = OpBarrido t ∧ (3600 < Binary64.fresta t 0)%Q) ∧
  (∀ v' e t, e ≠ 0%Z → In (e, "k") (temporizadores (guardar "k" v' (Some e) t m))) ∧
  ((3600 < Binary64.fresta 3601 0)%Q →
   (obtener "k" VNone 3000 (_limpiar_expirados 3601 m).2).1 = VNone) ∧
  ((Binary64.fresta 3601 0 <= 3600)%Q →
   (obtener "k" VNone 3000 (_limpiar_expirados 3601 m).2).1 = VInt 1) ∧
  ((Binary64.fresta 3601 3000 <= 3600)%Q →
   (obtener "k" VNone 3000 (_limpiar_expirados 3601 leido).2).1 = VInt 1).
Proof.
  apply (C3_expira_por_ultimo_acceso_en_barrido
           3600 [OpGuardar "k" (VInt 1) None 0] "k" (VInt 1) VNone 0 3601 3000
           (OpBarrido 3601));
    vm_compute; reflexivity.
Defined.

(** *** The rest of the working store *)

(** [obtener_todo_contexto()]: a copy of the value store. *)
Definition obtener_todo_contexto (m : t) : gmap string valor := _almacen m.

(** The dictionary [obtener_estadisticas] returns. *)
Record estadisticas : Type := Estadisticas {
  total_entradas : nat;
  entradas_activas : nat;
  tamano_estimado : nat;
  timestamp_ultima_limpieza : Q
}.

(** [obtener_estadisticas()], run at clock reading [ahora]; [str_valor]
    is Python's [str] on the stored values. *)
Definition obtener_estadisticas (str_valor : valor → string) (ahora : Q) (m : t)
    : estadisticas :=
  Estadisticas
    (size (_almacen m))
    (length (filter (λ p : string * Q,
                       Qle_bool (Binary64.fresta ahora p.2) (timeout m) = true)
                    (map_to_list (_timestamp_acceso m))))
    (foldr (λ p n, String.length (str_valor p.2) + n)%nat 0%nat (map_to_list (_almacen m)))
    ahora.

(** An operation that leaves the entry of [k] in place when it runs
    within the time-to-live [tmo] counted from [t0]: a put or a delete of
    another key (a delete being a call of [eliminar] or the firing of a
    timer), a get at or after [t0], a sweep at or before [t0 + tmo]. *)
Definition conserva (k : string) (t0 tmo : Q) (op : operacion) : Prop :=
  match op with
  | OpGuardar k' _ _ _ => k' ≠ k
  | OpObtener _ _ ahora => (t0 <= ahora)%Q
  | OpEliminar k' => k' ≠ k
  | OpLimpiarTodo => False
  | OpBarrido ahora => (ahora <= t0 + tmo)%Q
  end.

(** The entry of [k] holds [v] and was last accessed at or after [t0]. *)
Definition guarda (k : string) (v : valor) (t0 : Q) (m : t) : Prop :=
  _almacen m !! k = Some v ∧ ∃ ts, _timestamp_acceso m !! k = Some ts ∧ (t0 <= ts)%Q.

Lemma timeout_paso (m : t) (op : operacion) : timeout (paso m op) = timeout m.
Proof. apply (ejecutar_timeout [op] m). Qed.

Lemma paso_conserva (k : string) (v : valor) (t0 : Q) (m : t) (op : operacion) :
  Binary64.es_float (timeout m) →
  coherente m → guarda k v t0 m → conserva k t0 (timeout m) op →
  guarda k v t0 (paso m op).
Proof.
  intros Htmo Hm [Hv (ts & Hts & Hle)] Hop.
  unfold guarda.
  destruct op as [k' v' ex ahora|k' d ahora|k'| |ahora]; simpl in *.
  - split; [by rewrite lookup_insert_ne|]. exists ts. by rewrite lookup_insert_ne.
  - unfold obtener. destruct (_almacen m !! k') as [v'|] eqn:Hk'; simpl; [|by eauto].
    split; [done|]. destruct (decide (k' = k)) as [->|Hne].
    + exists ahora. by rewrite lookup_insert_eq.
    + exists ts. by rewrite lookup_insert_ne.
  - unfold eliminar. destruct (_almacen m !! k') as [v'|] eqn:Hk'; [|by eauto].
    rewrite borrar_clave_coherente; [|done|apply elem_of_dom; eauto]. simpl.
    rewrite !lookup_delete_ne by done. eauto.
  - done.
  - rewrite _limpiar_expirados_coherente by done. simpl.
    assert (k ∉ claves_a_eliminar ahora m) as Hk.
    { intros (ts' & Hts' & Hgt)%elem_of_claves_a_eliminar.
      rewrite Hts in Hts'. injection Hts' as <-.
      unfold Qgtb in Hgt. apply negb_true_iff in Hgt.
      assert (Qle_bool (Binary64.fresta ahora ts) (timeout m) = true) as Hok.
      { apply Qle_bool_iff.
        apply Qle_trans with (Binary64.redondear (timeout m));
          [apply Binary64.redondear_creciente; lra |].
        apply Qle_lteq. right. exact Htmo. }
      congruence. }
    rewrite !lookup_foldl_delete, !decide_False by done. eauto.
Qed.

(** X1.  A value put under [k] at time [t0] is returned by a later get of
    [k], whatever was stored before, when in between the key is neither
    put again nor deleted, be it by a call of [eliminar] or by the timer
    of an expiration set for the key (of this put or of an earlier one),
    whose firing is that call, the store is not cleared, every get (of
    any key) is at or after [t0] and every sweep at or before [t0 + ttl],
    the time-to-live being a binary64 number. *)
Theorem guardar_se_conserva_dentro_del_ttl
    (tmo : Q) (previas ops : list operacion) (k : string) (v d : valor)
    (expiration : option Z) (t0 ahora : Q) :
  Binary64.es_float tmo →
  Forall (conserva k t0 tmo) ops →
  (obtener k d ahora
     (ejecutar ops (guardar k v expiration t0 (ejecutar previas (nueva tmo))))).1 = v.
Proof.
  intros Htmo Hops.
  set (m0 := guardar k v expiration t0 (ejecutar previas (nueva tmo))).
  assert (coherente m0) as Hm0.
  { apply (paso_coherente _ (OpGuardar k v expiration t0)),
      ejecutar_coherente, coherente_nueva. }
  assert (timeout m0 = tmo) as Ht0 by apply ejecutar_timeout.
  assert (guarda k v t0 m0) as Hg0.
  { split; simpl; [by rewrite lookup_insert_eq|].
    exists t0. rewrite lookup_insert_eq. split; [done | lra]. }
  assert (guarda k v t0 (ejecutar ops m0)) as [Hv _]; [|unfold obtener; by rewrite Hv].
  clearbody m0. revert m0 Hm0 Ht0 Hg0.
  induction Hops as [|op ops Hop Hops IH]; intros m0 Hm0 Ht0 Hg0; [done|].
  simpl. apply IH.
  - by apply paso_coherente.
  - by rewrite timeout_paso.
  - apply paso_conserva; [by rewrite Ht0|done..|by rewrite Ht0].
Qed.

Lemma guardar_se_conserva_witness :
  (obtener "k" VNone 4000
     (ejecutar [OpObtener "k" VNone 100; OpBarrido 3600; OpGuardar "j" (VInt 2) None 200;
                OpEliminar "j"]
        (guardar "k" (VInt 1) None 0 (ejecutar [] (nueva 3600))))).1 = VInt 1.
Proof.
  apply (guardar_se_conserva_dentro_del_ttl 3600 []
           [OpObtener "k" VNone 100; OpBarrido 3600; OpGuardar "j" (VInt 2) None 200;
            OpEliminar "j"] "k" (VInt 1) VNone None 0 4000).
  - vm_compute. reflexivity.
  - repeat constructor; simpl; try done; vm_compute; discriminate.
Defined.

(** X2.  On a store reached from the empty one, [eliminar] never raises:
    it answers [True] exactly when the key was stored, and afterwards the
    key is in none of the three maps, so that a get returns the default. *)
Theorem eliminar_devuelve_si_existia
    (tmo : Q) (ops : list operacion) (k : string) (d : valor) (ahora : Q) :
  let m := ejecutar ops (nueva tmo) in
  let m' := (eliminar k m).2 in
  (eliminar k m).1 = Devuelve (bool_decide (is_Some (_almacen m !! k))) ∧
  _almacen m' !! k = None ∧ _timestamp_acceso m' !! k = None ∧
  _timestamp_creacion m' !! k = None ∧
  (obtener k d ahora m').1 = d ∧
  ∀ k', k' ≠ k → _almacen m' !! k' = _almacen m !! k'.
Proof.
  intros m m'.
  assert (coherente m) as Hm by apply ejecutar_coherente, coherente_nueva.
  unfold m', eliminar, obtener.
  destruct (_almacen m !! k) as [v|] eqn:Hv.
  - rewrite borrar_clave_coherente; [|done|apply elem_of_dom; eauto].
    rewrite bool_decide_eq_true_2 by eauto. simpl.
    rewrite !lookup_delete_eq. repeat split; try done.
    intros k' Hk'. by rewrite lookup_delete_ne.
  - rewrite bool_decide_eq_false_2 by (by intros [? ?]). simpl. rewrite Hv.
    destruct Hm as [Ha Hc].
    assert (k ∉ dom (_almacen m)) as Hk by (by apply not_elem_of_dom).
    repeat split; try done.
    + apply not_elem_of_dom. by rewrite <- Ha.
    + apply not_elem_of_dom. by rewrite <- Hc.
Qed.

Lemma filter_todos {A : Type} (P : A → Prop) `{∀ x, Decision (P x)} (l : list A) :
  Forall P l → filter P l = l.
Proof.
  induction 1 as [|x l Hx Hl IH]; [done|].
  by rewrite filter_cons_True, IH.
Qed.

(** X3.  On a store reached from the empty one the statistics never count
    more active entries than entries, and right after a sweep, at the same
    clock reading, every entry left is counted as active. *)
Theorem estadisticas_activas_tras_barrido
    (str_valor : valor → string) (tmo : Q) (ops : list operacion) (ahora : Q) :
  let m := ejecutar ops (nueva tmo) in
  let antes := obtener_estadisticas str_valor ahora m in
  let despues := obtener_estadisticas str_valor ahora (_limpiar_expirados ahora m).2 in
  (entradas_activas antes ≤ total_entradas antes)%nat ∧
  entradas_activas despues = total_entradas despues ∧
  total_entradas despues = entradas_activas antes.
Proof.
  intros m antes despues.
  assert (coherente m) as Hm by apply ejecutar_coherente, coherente_nueva.
  assert (∀ m0 : t, coherente m0 → size (_timestamp_acceso m0) = size (_almacen m0)) as Hsize.
  { intros m0 [Ha _]. by rewrite <- !size_dom, Ha. }
  assert (entradas_activas despues = total_entradas despues) as Hdesp.
  { unfold despues. rewrite _limpiar_expirados_coherente by done.
    pose proof (coherente_sin_claves (claves_a_eliminar ahora m) m Hm) as Hm'.
    unfold obtener_estadisticas. cbn [entradas_activas total_entradas snd].
    rewrite <- (Hsize _ Hm'), <- length_map_to_list. f_equal.
    apply filter_todos, Forall_forall. intros [k ts] Hk.
    apply elem_of_map_to_list in Hk. cbn [sin_claves _timestamp_acceso timeout] in Hk |- *.
    rewrite lookup_foldl_delete in Hk.
    destruct (decide (k ∈ claves_a_eliminar ahora m)) as [|Hno]; [done|].
    destruct (Qle_bool (Binary64.fresta ahora ts) (timeout m)) eqn:Hle; [done|].
    exfalso. apply Hno, elem_of_claves_a_eliminar. exists ts.
    split; [done|]. unfold Qgtb. simpl. by rewrite Hle. }
  split; [|split; [done|]].
  - unfold antes, obtener_estadisticas. simpl.
    rewrite <- (Hsize _ Hm), <- length_map_to_list. apply length_filter.
  - unfold despues. rewrite _limpiar_expirados_coherente by done.
    pose proof (coherente_sin_claves (claves_a_eliminar ahora m) m Hm) as Hm'.
    unfold antes, obtener_estadisticas. cbn [entradas_activas total_entradas snd].
    rewrite <- (Hsize _ Hm'), <- length_map_to_list.
    cbn [sin_claves _timestamp_acceso timeout].
    apply Permutation_length, NoDup_Permutation.
    + apply NoDup_map_to_list.
    + apply NoDup_filter, NoDup_map_to_list.
    + intros [k ts]. rewrite elem_of_map_to_list, lookup_foldl_delete,
        list_elem_of_filter, elem_of_map_to_list. simpl.
      destruct (decide (k ∈ claves_a_eliminar ahora m)) as [Hsi|Hno].
      * apply elem_of_claves_a_eliminar in Hsi as (ts' & Hts' & Hgt).
        split; [done|]. intros [Hle Hts]. rewrite Hts in Hts'. injection Hts' as <-.
        unfold Qgtb in Hgt. by rewrite Hle in Hgt.
      * split.
        -- intros Hts. split; [|done].
           destruct (Qle_bool (Binary64.fresta ahora ts) (timeout m)) eqn:Hle; [done|].
           exfalso. apply Hno, elem_of_claves_a_eliminar. exists ts.
           split; [done|]. unfold Qgtb. by rewrite Hle.
        -- by intros [_ Hts].
Qed.

End MemoriaTrabajo.

(** ** src/memoria/gestor_sesiones.py : one working store per session *)

Module GestorSesiones.

Import MemoriaTrabajo.

(** The object state of [GestorSesiones]. *)
Record t : Type := Mk {
  sesiones_activas : gmap string MemoriaTrabajo.t;
  timeout_sesion : Q
}.

(** [__init__(configuracion)]: [configuracion.get('timeout_sesion', 7200)]. *)
Definition nuevo (config_timeout_sesion : option Q) : t :=
  Mk ∅ (default 7200%Q config_timeout_sesion).

(** [eliminar_sesion(session_id)]; the store of the session is cleared
    before it is dropped. *)
Definition eliminar_sesion (sid : string) (g : t) : bool * t :=
  match sesiones_activas g !! sid with
  | Some _ => (true, Mk (delete sid (sesiones_activas g)) (timeout_sesion g))
  | None => (false, g)
  end.

(** [crear_sesion(session_id)]; [id_generado] is the identifier made from
    [uuid.uuid4()] when no id is given. *)
Definition crear_sesion (session_id : option string) (id_generado : string) (g : t)
    : string * t :=
  let sid := match session_id with
             | Some s => if String.eqb s "" then id_generado else s
             | None => id_generado
             end in
  let g1 := match sesiones_activas g !! sid with
            | Some _ => (eliminar_sesion sid g).2
            | None => g
            end in
  (sid, Mk (<[sid := nueva (timeout_sesion g1)]> (sesiones_activas g1)) (timeout_sesion g1)).

(** [obtener_sesion(session_id)]. *)
Definition obtener_sesion (sid : string) (g : t) : option MemoriaTrabajo.t :=
  sesiones_activas g !! sid.

Section Limpieza.

(** Python's [str] on stored values, and the successive readings of
    [time.time()]: [reloj 0] is the one [limpiar_sesiones_expiradas] takes,
    [reloj (S i)] the one [obtener_estadisticas] takes for the session of
    rank [i]. *)
Variable str_valor : valor → string.
Variable reloj : nat → Q.

(** The first loop of [limpiar_sesiones_expiradas], from the session of
    rank [i] on. *)
Fixpoint sesiones_a_eliminar (ahora tmo : Q) (i : nat)
    (items : list (string * MemoriaTrabajo.t)) : list string :=
  match items with
  | [] => []
  | (sid, memoria) :: resto =>
    let stats := obtener_estadisticas str_valor (reloj (S i)) memoria in
    if Qgtb (Binary64.fresta ahora (timestamp_ultima_limpieza stats)) tmo
    then sid :: sesiones_a_eliminar ahora tmo (S i) resto
    else sesiones_a_eliminar ahora tmo (S i) resto
  end.

(** [limpiar_sesiones_expiradas()]. *)
Definition limpiar_sesiones_expiradas (g : t) : nat * t :=
  let ahora := reloj 0 in
  let a_eliminar :=
    sesiones_a_eliminar ahora (timeout_sesion g) 0 (map_to_list (sesiones_activas g)) in
  (length a_eliminar, foldl (λ g sid, (eliminar_sesion sid g).2) g a_eliminar).

Lemma sesiones_a_eliminar_ninguna (tmo : Q) (i : nat)
    (items : list (string * MemoriaTrabajo.t)) :
  (∀ j, reloj 0 <= reloj j)%Q → (0 <= tmo)%Q →
  sesiones_a_eliminar (reloj 0) tmo i items = [].
Proof.
  intros Hreloj Htmo. revert i. induction items as [|[sid memoria] resto IH]; intros i; [done|].
  simpl. rewrite IH.
  assert (Qgtb (Binary64.fresta (reloj 0) (reloj (S i))) tmo = false) as ->; [|done].
  unfold Qgtb. apply negb_false_iff, Qle_bool_iff.
  specialize (Hreloj (S i)).
  assert (Binary64.fresta (reloj 0) (reloj (S i)) <= 0)%Q
    by (apply Binary64.redondear_nonpos; lra).
  lra.
Qed.

(** X4.  When the clock does not run backwards and the session timeout is
    not negative, [limpiar_sesiones_expiradas] removes no session and
    answers 0, however long the sessions have been idle: the time it
    compares with is the reading [obtener_estadisticas] has just taken. *)
Theorem limpiar_sesiones_expiradas_no_elimina (g : t) :
  (∀ j, reloj 0 <= reloj j)%Q → (0 <= timeout_sesion g)%Q →
  limpiar_sesiones_expiradas g = (0%nat, g).
Proof.
  intros Hreloj Htmo. unfold limpiar_sesiones_expiradas.
  by rewrite sesiones_a_eliminar_ninguna.
Qed.

End Limpieza.

Lemma limpiar_sesiones_expiradas_witness :
  let g := (crear_sesion (Some "s1") "session_0" (nuevo (Some 10%Q))).2 in
  limpiar_sesiones_expiradas (λ _, "") (λ i, 1000000 + inject_Z (Z.of_nat i))%Q g
  = (0%nat, g).
Proof.
  apply (limpiar_sesiones_expiradas_no_elimina (λ _, "")
           (λ i, 1000000 + inject_Z (Z.of_nat i))%Q).
  - intros j. unfold Qle. simpl. lia.
  - vm_compute. discriminate.
Defined.

(** X5.  [crear_sesion] leaves an empty working store under the id it
    answers, also when a session with that id existed (its entries are
    dropped), and touches no other session; [eliminar_sesion] answers
    [True] exactly for an existing session, which is gone afterwards. *)
Theorem crear_sesion_reinicia (session_id : option string) (id_generado : string)
    (g : t) (k : string) (d : valor) (ahora : Q) :
  let sid := (crear_sesion session_id id_generado g).1 in
  let g' := (crear_sesion session_id id_generado g).2 in
  obtener_sesion sid g' = Some (nueva (timeout_sesion g)) ∧
  (obtener k d ahora (nueva (timeout_sesion g))).1 = d ∧
  (∀ sid', sid' ≠ sid → obtener_sesion sid' g' = obtener_sesion sid' g) ∧
  (eliminar_sesion sid g').1 = true ∧
  obtener_sesion sid (eliminar_sesion sid g').2 = None ∧
  (eliminar_sesion sid (eliminar_sesion sid g').2).1 = false.
Proof.
  intros sid g'. unfold g', sid, crear_sesion, obtener_sesion, eliminar_sesion.
  set (s := match session_id with
            | Some s => if String.eqb s "" then id_generado else s
            | None => id_generado
            end).
  destruct (sesiones_activas g !! s) as [m|] eqn:Hs; simpl;
    rewrite ?Hs; simpl; rewrite !lookup_insert_eq; simpl;
    rewrite ?lookup_delete_eq; repeat split; try done.
  - intros sid' Hne. by rewrite lookup_insert_ne, lookup_delete_ne.
  - intros sid' Hne. by rewrite lookup_insert_ne.
Qed.

End GestorSesiones.

(** ** src/memoria/estructuras/buffer_tareas.py : the ring buffer of task
       results *)

Module BufferTareas.

Local Open Scope list_scope.

(** An entry of the buffer. *)
Record entrada : Type := Entrada {
  tarea_id : string;
  resultado : gmap string valor;
  timestamp : Q;
  estado : valor
}.

(** The buffer: the deque (leftmost entry first), its [maxlen], and the
    map from task id to index. *)
Record t : Type := Mk {
  _buffer : list entrada;
  maxlen : nat;
  _indices : gmap string Z
}.

(** [BufferTareas(capacidad_maxima)]. *)
Definition nuevo (capacidad_maxima : nat) : t := Mk [] capacidad_maxima ∅.

(** [deque(l, maxlen)]: the last [maxlen] items of [l]. *)
Definition deque (maxlen : nat) (l : list entrada) : list entrada :=
  drop (length l - maxlen) l.

(** [resultado.get('estado', 'completada')]. *)
Definition estado_de (resultado : gmap string valor) : valor :=
  default (VStr "completada") (resultado !! "estado").

(** [agregar_tarea(tarea_id, resultado)]; [ahora] is the clock reading. *)
Definition agregar_tarea (tarea_id : string) (resultado : gmap string valor)
    (ahora : Q) (b : t) : t :=
  let entrada := Entrada tarea_id resultado ahora (estado_de resultado) in
  let buffer := deque (maxlen b) (_buffer b ++ [entrada]) in
  Mk buffer (maxlen b) (<[tarea_id := (Z.of_nat (length buffer) - 1)%Z]> (_indices b)).

(** [buffer[index]]: a negative index counts from the right. *)
Definition getitem (buffer : list entrada) (index : Z) : salida entrada :=
  let i := if (index <? 0)%Z then (index + Z.of_nat (length buffer))%Z else index in
  if (i <? 0)%Z then Lanza (Excepcion "IndexError" "deque index out of range")
  else match buffer !! Z.to_nat i with
       | Some e => Devuelve e
       | None => Lanza (Excepcion "IndexError" "deque index out of range")
       end.

(** [obtener_tarea(tarea_id)]. *)
Definition obtener_tarea (tarea_id : string) (b : t) : salida (option entrada) :=
  match _indices b !! tarea_id with
  | Some index =>
    if (index <? Z.of_nat (length (_buffer b)))%Z
    then match getitem (_buffer b) index with
         | Devuelve e => Devuelve (Some e)
         | Lanza e => Lanza e
         end
    else Devuelve None
  | None => Devuelve None
  end.

(** [obtener_ultimas_tareas(cantidad)]: the slice [[-cantidad:]]. *)
Definition obtener_ultimas_tareas (cantidad : Z) (b : t) : list entrada :=
  if (0 <? cantidad)%Z
  then drop (length (_buffer b) - Z.to_nat cantidad) (_buffer b)
  else drop (Z.to_nat (- cantidad)) (_buffer b).

(** [tarea['estado'] == 'completada']. *)
Definition es_completada (v : valor) : bool :=
  match v with
  | VStr s => String.eqb s "completada"
  | _ => false
  end.

(** One round of the loop of [limpiar_completadas] on
    [(tareas_a_mantener, indices_actualizados, eliminadas)]. *)
Definition paso_limpiar (acc : list entrada * gmap string Z * nat) (e : entrada)
    : list entrada * gmap string Z * nat :=
  let '(mantener, indices, eliminadas) := acc in
  if es_completada (estado e) then (mantener, indices, S eliminadas)
  else
    let mantener' := mantener ++ [e] in
    (mantener', <[tarea_id e := (Z.of_nat (length mantener') - 1)%Z]> indices, eliminadas).

(** [limpiar_completadas()]: the number of entries removed and the buffer
    afterwards. *)
Definition limpiar_completadas (b : t) : nat * t :=
  let '(mantener, indices, eliminadas) := foldl paso_limpiar ([], ∅, 0%nat) (_buffer b) in
  (eliminadas, Mk (deque (maxlen b) mantener) (maxlen b) indices).

(** *** The index and the deque *)

(** Every indexed id points at an entry of that id. *)
Definition bien_indexado (b : t) : Prop :=
  ∀ i index, _indices b !! i = Some index →
    (0 <= index)%Z ∧ ∃ e, _buffer b !! Z.to_nat index = Some e ∧ tarea_id e = i.

Lemma bien_indexado_nuevo (n : nat) : bien_indexado (nuevo n).
Proof.
  intros i index H. unfold nuevo in H. cbn [_indices] in H.
  rewrite lookup_empty in H. discriminate.
Qed.

Lemma getitem_indice (buffer : list entrada) (index : Z) (e : entrada) :
  (0 <= index)%Z → buffer !! Z.to_nat index = Some e → getitem buffer index = Devuelve e.
Proof.
  intros H0 He. unfold getitem.
  assert ((index <? 0)%Z = false) as Hneg by (apply Z.ltb_ge; lia).
  rewrite Hneg. cbv zeta. by rewrite Hneg, He.
Qed.

Lemma obtener_tarea_indice (b : t) (i : string) (index : Z) (e : entrada) :
  _indices b !! i = Some index → (0 <= index)%Z →
  _buffer b !! Z.to_nat index = Some e →
  obtener_tarea i b = Devuelve (Some e).
Proof.
  intros Hi H0 He. unfold obtener_tarea. rewrite Hi.
  apply lookup_lt_Some in He as Hlt.
  assert ((index <? Z.of_nat (length (_buffer b)))%Z = true) as -> by (apply Z.ltb_lt; lia).
  by rewrite (getitem_indice _ _ e).
Qed.

Lemma deque_ultimo (n : nat) (l : list entrada) (e : entrada) :
  (1 ≤ n)%nat →
  deque n (l ++ [e]) !! (length (deque n (l ++ [e])) - 1)%nat = Some e ∧
  (1 ≤ length (deque n (l ++ [e])))%nat.
Proof.
  intros Hn. unfold deque. rewrite length_drop, length_app. simpl. split; [|lia].
  rewrite lookup_drop.
  replace (length l + 1 - n + (length l + 1 - (length l + 1 - n) - 1))%nat
    with (length l) by lia.
  rewrite lookup_app_r by lia. by rewrite Nat.sub_diag.
Qed.

Lemma deque_sin_recorte (n : nat) (l : list entrada) :
  (length l ≤ n)%nat → deque n l = l.
Proof. intros H. unfold deque. by replace (length l - n)%nat with 0%nat by lia. Qed.

Lemma agregar_bien_indexado (i : string) (res : gmap string valor) (ahora : Q) (b : t) :
  (length (_buffer b) < maxlen b)%nat → bien_indexado b →
  bien_indexado (agregar_tarea i res ahora b).
Proof.
  intros Hcap Hb j index. unfold agregar_tarea. cbn [_indices _buffer].
  rewrite deque_sin_recorte by (rewrite length_app; simpl; lia).
  rewrite length_app. simpl. intros Hj.
  destruct (decide (j = i)) as [->|Hne].
  - rewrite lookup_insert_eq in Hj. injection Hj as <-. split; [lia|].
    exists (Entrada i res ahora (estado_de res)). split; [|reflexivity].
    replace (Z.to_nat (Z.of_nat (length (_buffer b) + 1) - 1)) with (length (_buffer b)) by lia.
    rewrite lookup_app_r by lia. by rewrite Nat.sub_diag.
  - rewrite lookup_insert_ne in Hj by done.
    destruct (Hb j index Hj) as (H0 & e & He & Hid). split; [done|].
    exists e. split; [|done]. by apply lookup_app_l_Some.
Qed.

(** X6.  With a capacity of at least one, the entry just added is the
    one [obtener_tarea] returns for its id.  While the buffer is not full,
    adding an entry keeps the index right and changes the answer for no
    other id. *)
Theorem agregar_y_obtener (i : string) (res : gmap string valor) (ahora : Q) (b : t) :
  (1 ≤ maxlen b)%nat →
  obtener_tarea i (agregar_tarea i res ahora b)
  = Devuelve (Some (Entrada i res ahora (estado_de res))) ∧
  ((length (_buffer b) < maxlen b)%nat → bien_indexado b →
   bien_indexado (agregar_tarea i res ahora b) ∧
   ∀ j, j ≠ i → obtener_tarea j (agregar_tarea i res ahora b) = obtener_tarea j b).
Proof.
  intros Hn. split.
  - pose proof (deque_ultimo (maxlen b) (_buffer b)
                  (Entrada i res ahora (estado_de res)) Hn) as [Hult Hlen].
    eapply obtener_tarea_indice.
    + unfold agregar_tarea. cbn [_indices]. apply lookup_insert_eq.
    + lia.
    + unfold agregar_tarea. cbn [_buffer].
      match goal with |- _ !! Z.to_nat ?z = _ =>
        replace (Z.to_nat z)
          with (length (deque (maxlen b)
                         (_buffer b ++ [Entrada i res ahora (estado_de res)])) - 1)%nat by lia
      end.
      exact Hult.
  - intros Hcap Hb. split; [by apply agregar_bien_indexado|].
    intros j Hj. unfold obtener_tarea, agregar_tarea. cbn [_indices _buffer].
    rewrite lookup_insert_ne by done.
    rewrite deque_sin_recorte by (rewrite length_app; simpl; lia).
    destruct (_indices b !! j) as [index|] eqn:Hindex; [|done].
    destruct (Hb j index Hindex) as (H0 & e & He & _).
    apply lookup_lt_Some in He as Hlt.
    assert ((index <? Z.of_nat (length (_buffer b)))%Z = true) as ->
      by (apply Z.ltb_lt; lia).
    assert ((index <? Z.of_nat (length (_buffer b ++ [Entrada i res ahora (estado_de res)])))%Z
            = true) as -> by (apply Z.ltb_lt; rewrite length_app; lia).
    rewrite (getitem_indice _ _ e H0 He).
    by rewrite (getitem_indice _ _ e H0 (lookup_app_l_Some _ _ _ _ He)).
Qed.

Lemma agregar_y_obtener_witness :
  obtener_tarea "T1" (agregar_tarea "T1" ∅ 1 (nuevo 2))
  = Devuelve (Some (Entrada "T1" ∅ 1 (estado_de ∅))) ∧
  ((length (_buffer (nuevo 2)) < maxlen (nuevo 2))%nat → bien_indexado (nuevo 2) →
   bien_indexado (agregar_tarea "T1" ∅ 1 (nuevo 2)) ∧
   ∀ j, j ≠ "T1" →
        obtener_tarea j (agregar_tarea "T1" ∅ 1 (nuevo 2)) = obtener_tarea j (nuevo 2)).
Proof.
  apply (agregar_y_obtener "T1" ∅ 1 (nuevo 2)). simpl. lia.
Defined.

(** X7.  Once the buffer is full the index goes stale: the deque drops
    its leftmost entry and every other entry moves one place to the left,
    while the indices stay as they were.  With distinct ids in the buffer,
    after a task with a new id is added [obtener_tarea] answers, for every
    id indexed before, with the entry of another task. *)
Theorem indice_desfasado_con_buffer_lleno (i j : string) (res : gmap string valor)
    (ahora : Q) (b : t) (index : Z) :
  (1 ≤ maxlen b)%nat → length (_buffer b) = maxlen b →
  bien_indexado b → NoDup (tarea_id <$> _buffer b) →
  i ∉ (tarea_id <$> _buffer b) → j ≠ i →
  _indices b !! j = Some index →
  ∃ e, obtener_tarea j (agregar_tarea i res ahora b) = Devuelve (Some e) ∧
       (_buffer b ++ [Entrada i res ahora (estado_de res)]) !! S (Z.to_nat index) = Some e ∧
       tarea_id e ≠ j.
Proof.
  intros Hn Hlleno Hb Hnd Hi Hji Hindex.
  destruct (Hb j index Hindex) as (H0 & e0 & He0 & Hid0).
  apply lookup_lt_Some in He0 as Hlt.
  set (nueva := Entrada i res ahora (estado_de res)).
  destruct ((_buffer b ++ [nueva]) !! S (Z.to_nat index)) as [e|] eqn:He.
  2:{ apply lookup_ge_None in He. rewrite length_app in He. simpl in He. lia. }
  assert (_buffer (agregar_tarea i res ahora b) !! Z.to_nat index = Some e) as He'.
  { unfold agregar_tarea, deque. cbn [_buffer]. rewrite lookup_drop, length_app. simpl.
    fold nueva. replace (length (_buffer b) + 1 - maxlen b + Z.to_nat index)%nat
      with (S (Z.to_nat index)) by lia. done. }
  exists e. split; [|split; [done|]].
  - eapply obtener_tarea_indice; [|exact H0|exact He'].
    unfold agregar_tarea. cbn [_indices]. by rewrite lookup_insert_ne.
  - intros Hid.
    assert (NoDup (tarea_id <$> (_buffer b ++ [nueva]))) as Hnd'.
    { rewrite fmap_app. apply NoDup_app. split; [done|]. split; [|apply NoDup_singleton].
      intros x Hx ->%list_elem_of_singleton. exact (Hi Hx). }
    assert ((tarea_id <$> (_buffer b ++ [nueva])) !! Z.to_nat index = Some j) as H1.
    { rewrite list_lookup_fmap, lookup_app_l by done. by rewrite He0; simpl; rewrite Hid0. }
    assert ((tarea_id <$> (_buffer b ++ [nueva])) !! S (Z.to_nat index) = Some j) as H2.
    { rewrite list_lookup_fmap, He. simpl. by rewrite Hid. }
    pose proof (NoDup_lookup _ _ _ _ Hnd' H1 H2). lia.
Qed.

(** A full buffer of capacity two holding the tasks A and B. *)
Definition buffer_lleno : t :=
  agregar_tarea "B" ∅ 2 (agregar_tarea "A" ∅ 1 (nuevo 2)).

Lemma indice_desfasado_witness :
  ∃ e, obtener_tarea "A" (agregar_tarea "C" ∅ 3 buffer_lleno) = Devuelve (Some e) ∧
       (_buffer buffer_lleno ++ [Entrada "C" ∅ 3 (estado_de ∅)]) !! S (Z.to_nat 0) = Some e ∧
       tarea_id e ≠ "A".
Proof.
  apply (indice_desfasado_con_buffer_lleno "C" "A" ∅ 3 buffer_lleno 0).
  - simpl. lia.
  - reflexivity.
  - apply agregar_bien_indexado; [simpl; lia|].
    apply agregar_bien_indexado; [simpl; lia|]. apply bien_indexado_nuevo.
  - apply (NoDup_fmap_2_strong tarea_id); [|by apply NoDup_ListNoDup; repeat constructor;
      simpl; intuition discriminate].
    intros x y Hx Hy Hxy. simpl in Hx, Hy.
    apply list_elem_of_In in Hx, Hy. simpl in Hx, Hy.
    destruct Hx as [<-|[<-|[]]], Hy as [<-|[<-|[]]]; done.
  - intros H. apply list_elem_of_In in H. simpl in H. destruct H as [H|[H|[]]]; discriminate.
  - discriminate.
  - reflexivity.
Defined.

(** *** Cleaning *)

(** Every indexed id points at the last entry of that id, and every id
    that has an entry is indexed. *)
Definition indice_exacto (buffer : list entrada) (indices : gmap string Z) : Prop :=
  ∀ i, match indices !! i with
       | Some index =>
         (0 <= index)%Z ∧
         ∃ e, buffer !! Z.to_nat index = Some e ∧ tarea_id e = i ∧
              ∀ k e', (Z.to_nat index < k)%nat → buffer !! k = Some e' → tarea_id e' ≠ i
       | None => ∀ e, e ∈ buffer → tarea_id e ≠ i
       end.

Definition pendiente (e : entrada) : bool := negb (es_completada (estado e)).

Lemma paso_limpiar_exacto (mantener : list entrada) (indices : gmap string Z)
    (eliminadas : nat) (e : entrada) :
  indice_exacto mantener indices →
  indice_exacto (paso_limpiar (mantener, indices, eliminadas) e).1.1
                (paso_limpiar (mantener, indices, eliminadas) e).1.2.
Proof.
  intros Hinv. unfold paso_limpiar. destruct (es_completada (estado e)); [done|].
  cbn [fst snd]. rewrite length_app. simpl. intros i.
  destruct (decide (i = tarea_id e)) as [->|Hne].
  - rewrite lookup_insert_eq. split; [lia|]. exists e.
    replace (Z.to_nat (Z.of_nat (length mantener + 1) - 1)) with (length mantener) by lia.
    split; [|split; [done|]].
    + rewrite lookup_app_r by lia. by rewrite Nat.sub_diag.
    + intros k e' Hk He'. apply lookup_lt_Some in He'. rewrite length_app in He'.
      simpl in He'. lia.
  - rewrite lookup_insert_ne by done. specialize (Hinv i).
    destruct (indices !! i) as [index|].
    + destruct Hinv as (H0 & e0 & He0 & Hid0 & Hult). split; [done|].
      exists e0. split; [by apply lookup_app_l_Some|]. split; [done|].
      intros k e' Hk He'. apply lookup_app_Some in He' as [He'|[Hlen He']].
      * by apply (Hult k).
      * apply list_lookup_singleton_Some in He' as [_ <-]. done.
    + intros e' [He'|He']%elem_of_app; [by apply Hinv|].
      apply list_elem_of_singleton in He' as ->. done.
Qed.

Lemma limpiar_bucle (l mantener : list entrada) (indices : gmap string Z)
    (eliminadas : nat) :
  indice_exacto mantener indices →
  let fin := foldl paso_limpiar (mantener, indices, eliminadas) l in
  fin.1.1 = mantener ++ List.filter pendiente l ∧
  (fin.2 + length fin.1.1 = eliminadas + length mantener + length l)%nat ∧
  indice_exacto fin.1.1 fin.1.2.
Proof.
  revert mantener indices eliminadas.
  induction l as [|e l IH]; intros mantener indices eliminadas Hinv.
  - simpl. rewrite app_nil_r. split; [done|]. split; [lia|done].
  - cbn [foldl].
    pose proof (paso_limpiar_exacto mantener indices eliminadas e Hinv) as Hpaso.
    destruct (paso_limpiar (mantener, indices, eliminadas) e) as [[m' i'] e'] eqn:Hp.
    cbn [fst snd] in Hpaso. destruct (IH m' i' e' Hpaso) as (H1 & H2 & H3).
    cbv zeta. rewrite H1. split; [|split; [|by rewrite <- H1]].
    + unfold paso_limpiar in Hp. simpl. unfold pendiente at 2.
      destruct (es_completada (estado e)); injection Hp as <- <- <-; simpl; [done|].
      by rewrite <- app_assoc.
    + rewrite <- H1, H2. unfold paso_limpiar in Hp.
      destruct (es_completada (estado e)); injection Hp as <- <- <-; simpl.
      * lia.
      * rewrite length_app. simpl. lia.
Qed.

(** X8.  [limpiar_completadas] keeps, in their order, the entries
    whose state is not [completada] and returns the number of entries it
    removed.  It rebuilds the index, so afterwards [obtener_tarea] never
    raises and answers, for every id, with the last kept entry of that id,
    or with [None] when no kept entry has that id, whatever the index was
    before. *)
Theorem limpiar_completadas_reindexa (b : t) :
  (length (_buffer b) ≤ maxlen b)%nat →
  let r := limpiar_completadas b in
  _buffer r.2 = List.filter pendiente (_buffer b) ∧
  (r.1 + length (_buffer r.2) = length (_buffer b))%nat ∧
  maxlen r.2 = maxlen b ∧
  ∀ i, match obtener_tarea i r.2 with
       | Devuelve (Some e) =>
         tarea_id e = i ∧
         ∃ k, _buffer r.2 !! k = Some e ∧
              ∀ k' e', (k < k')%nat → _buffer r.2 !! k' = Some e' → tarea_id e' ≠ i
       | Devuelve None => ∀ e, e ∈ _buffer r.2 → tarea_id e ≠ i
       | Lanza _ => False
       end.
Proof.
  intros Hcap r. subst r. unfold limpiar_completadas.
  assert (indice_exacto [] ∅) as Hvacio.
  { intros i. rewrite lookup_empty. intros e He. by apply elem_of_nil in He. }
  destruct (limpiar_bucle (_buffer b) [] ∅ 0 Hvacio) as (H1 & H2 & H3).
  destruct (foldl paso_limpiar ([], ∅, 0%nat) (_buffer b)) as [[mantener indices] eliminadas].
  cbn [fst snd] in *. simpl in H1, H2.
  assert (length mantener ≤ maxlen b)%nat as Hlen by lia.
  rewrite (deque_sin_recorte _ _ Hlen). cbn [_buffer maxlen _indices].
  split; [done|]. split; [lia|]. split; [done|].
  intros i. specialize (H3 i). unfold obtener_tarea. cbn [_indices _buffer].
  destruct (indices !! i) as [index|]; [|done].
  destruct H3 as (H0 & e & He & Hid & Hult).
  apply lookup_lt_Some in He as Hlt.
  assert ((index <? Z.of_nat (length mantener))%Z = true) as -> by (apply Z.ltb_lt; lia).
  rewrite (getitem_indice _ _ e H0 He). split; [done|]. eauto.
Qed.

Lemma limpiar_completadas_witness :
  let b := agregar_tarea "B" {[ "estado" := VStr "fallida" ]} 2
             (agregar_tarea "A" ∅ 1 (nuevo 2)) in
  let r := limpiar_completadas b in
  _buffer r.2 = List.filter pendiente (_buffer b) ∧
  (r.1 + length (_buffer r.2) = length (_buffer b))%nat ∧
  maxlen r.2 = maxlen b ∧
  ∀ i, match obtener_tarea i r.2 with
       | Devuelve (Some e) =>
         tarea_id e = i ∧
         ∃ k, _buffer r.2 !! k = Some e ∧
              ∀ k' e', (k < k')%nat → _buffer r.2 !! k' = Some e' → tarea_id e' ≠ i
       | Devuelve None => ∀ e, e ∈ _buffer r.2 → tarea_id e ≠ i
       | Lanza _ => False
       end.
Proof.
  apply (limpiar_completadas_reindexa
           (agregar_tarea "B" {[ "estado" := VStr "fallida" ]} 2
              (agregar_tarea "A" ∅ 1 (nuevo 2)))).
  simpl. lia.
Defined.

End BufferTareas.

(** ** src/memoria/metricas.py : skill performance metrics *)

Module GestorMetricas.

Import Binary64.

(** The [resultado] dictionary of one skill execution, as far as
    [_calcular_nuevas_metricas] reads it: the truth value of
    [resultado.get('exito')] and [resultado.get('duracion', 0)]. *)
Record resultado_ejecucion : Type := Resultado {
  exito : bool;
  duracion : option Q
}.

(** [metricas_actuales.get('tasa_exito', 0.5)]. *)
Definition tasa_exito (metricas : gmap string Q) : Q :=
  default (1 # 2) (metricas !! "tasa_exito").

(** [self.config.get('alpha_metricas', 0.1)]; the literal [0.1] is the
    binary64 number nearest to one tenth. *)
Definition alpha_metricas (config : gmap string Q) : Q :=
  default (redondear (1 # 10)) (config !! "alpha_metricas").

(** [_calcular_nuevas_metricas(metricas_actuales, resultado)]: each product,
    the difference [1 - alpha] and the sum are rounded as they are
    computed. *)
Definition _calcular_nuevas_metricas
    (config : gmap string Q) (metricas_actuales : gmap string Q)
    (resultado : resultado_ejecucion) : gmap string Q :=
  let exito_actual : Q := (if exito resultado then 1 else 0)%Q in
  let tasa_exito_anterior := tasa_exito metricas_actuales in
  let alpha := alpha_metricas config in
  let nuevas_metricas :=
    <["tasa_exito" :=
        fsuma (fprod alpha exito_actual) (fprod (fresta 1 alpha) tasa_exito_anterior)]>
      metricas_actuales in
  let tiempo_ejecucion := default 0%Q (duracion resultado) in
  if Qgtb tiempo_ejecucion 0%Q then
    let tiempo_promedio_anterior := default 0%Q (metricas_actuales !! "tiempo_promedio") in
    if Qeq_bool tiempo_promedio_anterior 0%Q then
      <["tiempo_promedio" := tiempo_ejecucion]> nuevas_metricas
    else
      <["tiempo_promedio" :=
          fsuma (fprod alpha tiempo_ejecucion)
                (fprod (fresta 1 alpha) tiempo_promedio_anterior)]> nuevas_metricas
  else nuevas_metricas.

(** The metrics after recording the executions [resultados] in order. *)
Definition registrar_ejecuciones
    (config : gmap string Q) (metricas : gmap string Q)
    (resultados : list resultado_ejecucion) : gmap string Q :=
  foldl (_calcular_nuevas_metricas config) metricas resultados.

Definition en_unidad (q : Q) : Prop := (0 <= q)%Q ∧ (q <= 1)%Q.

Lemma tasa_exito_nueva (config metricas : gmap string Q) (r : resultado_ejecucion) :
  tasa_exito (_calcular_nuevas_metricas config metricas r) =
  fsuma (fprod (alpha_metricas config) (if exito r then 1 else 0)%Q)
        (fprod (fresta 1 (alpha_metricas config)) (tasa_exito metricas)).
Proof.
  unfold _calcular_nuevas_metricas, tasa_exito at 1.
  destruct (Qgtb _ 0%Q); [destruct (Qeq_bool _ 0%Q)|];
    rewrite ?lookup_insert_ne by done; by rewrite lookup_insert_eq.
Qed.

(** Rounding facts at the ends of the unit interval. *)
Lemma redondear_0 : (redondear 0 == 0)%Q.
Proof. reflexivity. Qed.

Lemma redondear_1 : (redondear 1 == 1)%Q.
Proof. vm_compute. reflexivity. Qed.

Lemma redondear_pasado_1 : (redondear (1 + pot2 (-54)) == 1)%Q.
Proof. vm_compute. reflexivity. Qed.

Lemma hasta (x y z : Q) : (x <= y)%Q → (y == z)%Q → (x <= z)%Q.
Proof. intros Hxy Hyz. apply Qle_trans with y; [done|]. apply Qle_lteq. by right. Qed.

Lemma desde (x y z : Q) : (x == y)%Q → (y <= z)%Q → (x <= z)%Q.
Proof. intros Hxy Hyz. apply Qle_trans with y; [|done]. apply Qle_lteq. by right. Qed.

Lemma redondear_en_unidad (x : Q) : en_unidad x → en_unidad (redondear x).
Proof.
  intros [H0 H1]. split.
  - by apply redondear_nonneg.
  - apply hasta with (redondear 1); [by apply redondear_creciente | apply redondear_1].
Qed.

(** [1 - alpha], rounded, for a factor in [0,1]. *)
Lemma complemento_en_unidad (a : Q) :
  en_unidad a →
  en_unidad (fresta 1 a) ∧ es_float (fresta 1 a) ∧
  (1 - a - pot2 (-54) <= fresta 1 a)%Q ∧ (fresta 1 a <= 1 - a + pot2 (-54))%Q.
Proof.
  intros [H0 H1]. unfold fresta.
  assert (en_unidad (1 - a)) as Hu by (split; lra).
  split; [by apply redondear_en_unidad|]. split; [apply es_float_redondear|].
  destruct Hu. by apply redondear_error_unidad.
Qed.

(** The rounded product of two numbers of [0,1], the first a float. *)
Lemma producto_en_unidad (b p : Q) :
  en_unidad b → es_float b → en_unidad p →
  en_unidad (fprod b p) ∧ (fprod b p <= b)%Q ∧ (b * p - pot2 (-54) <= fprod b p)%Q.
Proof.
  intros [Hb0 Hb1] Hb [Hp0 Hp1]. unfold fprod.
  assert (0 <= b * p)%Q by (apply Qmult_le_0_compat; lra).
  assert (0 <= b * (1 - p))%Q by (apply Qmult_le_0_compat; lra).
  assert (b * p <= b)%Q by lra.
  assert (redondear (b * p) <= b)%Q as Hle.
  { apply Qle_trans with (redondear b); [by apply redondear_creciente|].
    apply Qle_lteq. right. exact Hb. }
  split; [split; [by apply redondear_nonneg | lra]|]. split; [done|].
  apply redondear_error_unidad; lra.
Qed.

Lemma fprod_1 (a : Q) : es_float a → (fprod a 1 == a)%Q.
Proof.
  intros Ha. unfold fprod.
  transitivity (redondear a); [apply redondear_comp; ring | exact Ha].
Qed.

Lemma fprod_0 (a : Q) : (fprod a 0 == 0)%Q.
Proof.
  unfold fprod. transitivity (redondear 0); [apply redondear_comp; ring | reflexivity].
Qed.

Lemma ewma_en_unidad (a p : Q) (e : bool) :
  en_unidad a → es_float a → en_unidad p →
  en_unidad (fsuma (fprod a (if e then 1 else 0)%Q) (fprod (fresta 1 a) p)).
Proof.
  intros Ha Hfa Hp.
  destruct (complemento_en_unidad a Ha) as (Hb & Hfb & Hb1 & Hb2).
  destruct (producto_en_unidad _ _ Hb Hfb Hp) as ([Hc0 Hc1] & Hcb & _).
  destruct Ha as [Ha0 Ha1].
  assert (0 <= fprod a (if e then 1 else 0) ∧ fprod a (if e then 1 else 0) <= a)%Q
    as [Hx0 Hx1].
  { destruct e.
    - pose proof (fprod_1 a Hfa). lra.
    - pose proof (fprod_0 a). lra. }
  unfold fsuma. split.
  - apply redondear_nonneg. lra.
  - apply hasta with (redondear (1 + pot2 (-54))); [|apply redondear_pasado_1].
    apply redondear_creciente. lra.
Qed.

(** A successful update gives the exact [a + (1 - a) * p] up to [2^-52],
    and so lowers the rate by no more than that. *)
Lemma ewma_exito_cercana (a p : Q) :
  en_unidad a → es_float a → en_unidad p →
  let nueva := fsuma (fprod a 1) (fprod (fresta 1 a) p) in
  (a * 1 + (1 - a) * p - pot2 (-52) <= nueva)%Q ∧
  (nueva <= a * 1 + (1 - a) * p + pot2 (-52))%Q ∧
  (p - pot2 (-52) <= nueva)%Q.
Proof.
  intros Ha Hfa Hp nueva.
  destruct (complemento_en_unidad a Ha) as (Hb & Hfb & Hb1 & Hb2).
  destruct (producto_en_unidad _ _ Hb Hfb Hp) as ([Hc0 Hc1] & Hcb & Hc).
  assert (fprod (fresta 1 a) p <= fresta 1 a * p + pot2 (-54))%Q as Hc'.
  { destruct Hb as [Hb0 Hb3], Hp as [Hp0 Hp1]. unfold fprod.
    assert (0 <= fresta 1 a * p)%Q by (apply Qmult_le_0_compat; lra).
    assert (0 <= fresta 1 a * (1 - p))%Q by (apply Qmult_le_0_compat; lra).
    apply redondear_error_unidad; lra. }
  destruct Ha as [Ha0 Ha1], Hp as [Hp0 Hp1], Hb as [Hb0 Hb3].
  pose proof (fprod_1 a Hfa) as Ha'.
  assert (pot2 (-54) == 1 # 18014398509481984)%Q as H54 by reflexivity.
  assert (pot2 (-52) == 1 # 4503599627370496)%Q as H52 by reflexivity.
  assert (0 <= a * (1 - p))%Q by (apply Qmult_le_0_compat; lra).
  assert (0 <= (1 - a + pot2 (-54) - fresta 1 a) * (1 - p))%Q
    by (apply Qmult_le_0_compat; lra).
  assert (0 <= (1 - a + pot2 (-54) - fresta 1 a) * p)%Q
    by (apply Qmult_le_0_compat; lra).
  assert (0 <= (fresta 1 a - (1 - a - pot2 (-54))) * p)%Q
    by (apply Qmult_le_0_compat; lra).
  assert (0 <= (fresta 1 a - (1 - a - pot2 (-54))) * (1 - p))%Q
    by (apply Qmult_le_0_compat; lra).
  assert (a * 1 + (1 - a) * p - pot2 (-52) <= nueva ∧
          nueva <= a * 1 + (1 - a) * p + pot2 (-52))%Q as [Hinf Hsup].
  { unfold nueva, fsuma.
    destruct (Qlt_le_dec 1 (fprod a 1 + fprod (fresta 1 a) p)) as [Hs|Hs].
    - assert (redondear (fprod a 1 + fprod (fresta 1 a) p) == 1)%Q as Hr.
      { apply Qle_antisym.
        - apply hasta with (redondear (1 + pot2 (-54))); [|apply redondear_pasado_1].
          apply redondear_creciente. lra.
        - apply desde with (redondear 1); [symmetry; apply redondear_1|].
          apply redondear_creciente. lra. }
      split; nra.
    - assert (0 <= fprod a 1 + fprod (fresta 1 a) p)%Q as Hs0 by lra.
      destruct (redondear_error_unidad _ Hs0 Hs) as [Hr1 Hr2].
      split; nra. }
  repeat split; [done..|]. nra.
Qed.

(** A failed update multiplies the rate by the rounded [1 - alpha]. *)
Lemma ewma_fallo (a p : Q) :
  (fsuma (fprod a 0) (fprod (fresta 1 a) p) == fprod (fresta 1 a) p)%Q.
Proof.
  unfold fsuma.
  pose proof (fprod_0 a) as Ha.
  rewrite (redondear_comp _ (fprod (fresta 1 a) p)) by lra.
  apply redondear_fijo.
Qed.

Lemma registrar_en_unidad
    (config metricas : gmap string Q) (resultados : list resultado_ejecucion) :
  en_unidad (alpha_metricas config) → es_float (alpha_metricas config) →
  en_unidad (tasa_exito metricas) →
  en_unidad (tasa_exito (registrar_ejecuciones config metricas resultados)).
Proof.
  intros Ha Hfa. revert metricas.
  induction resultados as [|r rs IH]; intros metricas Hp; [done|].
  simpl. apply IH. rewrite tasa_exito_nueva. by apply ewma_en_unidad.
Qed.

Lemma registrar_es_float
    (config metricas : gmap string Q) (resultados : list resultado_ejecucion) :
  es_float (tasa_exito metricas) →
  es_float (tasa_exito (registrar_ejecuciones config metricas resultados)).
Proof.
  revert metricas.
  induction resultados as [|r rs IH]; intros metricas Hp; [done|].
  simpl. apply IH. rewrite tasa_exito_nueva. apply es_float_redondear.
Qed.

(** C9, as stated, fails: with the smoothing factor configured as 0.3 and
    a stored success rate of 0.9999999999999999, which is 1 - 2^-53, one
    successful use gives the rate 0.9999999999999998, which is 1 - 2^-52:
    the rate has decreased. *)
Lemma C9_counterexample :
  let config : gmap string Q := {["alpha_metricas" := redondear (3 # 10)]} in
  let metricas : gmap string Q :=
    {["tasa_exito" := redondear (9999999999999999 # 10000000000000000)]} in
  let despues := registrar_ejecuciones config metricas [Resultado true None] in
  (en_unidad (alpha_metricas config) ∧ es_float (alpha_metricas config)) ∧
  (en_unidad (tasa_exito metricas) ∧ es_float (tasa_exito metricas)) ∧
  (tasa_exito metricas == 1 - pot2 (-53))%Q ∧
  (tasa_exito despues == 1 - pot2 (-52))%Q ∧
  (tasa_exito despues < tasa_exito metricas)%Q.
Proof.
  cbv zeta. repeat split; vm_compute; (reflexivity || discriminate).
Qed.

(** C9, amended.  With the configured smoothing factor [alpha] a float of
    [0,1] and a stored success rate in [0,1], along any sequence of
    successful uses every update computes
    [alpha * 1.0 + (1 - alpha) * prior] in binary64, each operation
    rounded, and leaves the success rate in [0,1]; the rate after an
    update is within [2^-52] of the exact value of that expression and is
    never more than [2^-52] below the rate before it.  It can be below
    it. *)
Theorem C9_tasa_exito_acotada_casi_monotona
    (config metricas : gmap string Q) (previos : list resultado_ejecucion)
    (r : resultado_ejecucion) :
  en_unidad (alpha_metricas config) →
  es_float (alpha_metricas config) →
  en_unidad (tasa_exito metricas) →
  Forall (λ r, exito r = true) (previos ++ [r]) →
  let alpha := alpha_metricas config in
  let antes := registrar_ejecuciones config metricas previos in
  let despues := registrar_ejecuciones config metricas (previos ++ [r]) in
  tasa_exito despues
  = fsuma (fprod alpha 1) (fprod (fresta 1 alpha) (tasa_exito antes)) ∧
  en_unidad (tasa_exito antes) ∧
  en_unidad (tasa_exito despues) ∧
  (alpha * 1 + (1 - alpha) * tasa_exito antes - pot2 (-52) <= tasa_exito despues)%Q ∧
  (tasa_exito despues <= alpha * 1 + (1 - alpha) * tasa_exito antes + pot2 (-52))%Q ∧
  (tasa_exito antes - pot2 (-52) <= tasa_exito despues)%Q.
Proof.
  intros Ha Hfa Hp Hrs alpha antes despues.
  apply Forall_app in Hrs as [Hprev Hr]. rewrite Forall_singleton in Hr.
  assert (en_unidad (tasa_exito antes)) as Hantes by by apply registrar_en_unidad.
  assert (tasa_exito despues
          = fsuma (fprod alpha 1) (fprod (fresta 1 alpha) (tasa_exito antes))) as Heq.
  { unfold despues, registrar_ejecuciones. rewrite foldl_app. simpl.
    by rewrite tasa_exito_nueva, Hr. }
  split; [done|]. split; [done|]. rewrite Heq.
  split; [apply (ewma_en_unidad alpha _ true); done|].
  by apply ewma_exito_cercana.
Qed.

Lemma C9_witness :
  let config : gmap string Q := ∅ in
  let r := Resultado true (Some 2%Q) in
  let alpha := alpha_metricas config in
  let antes := registrar_ejecuciones config ∅ [r; r] in
  let despues := registrar_ejecuciones config ∅ ([r; r] ++ [r]) in
  tasa_exito despues
  = fsuma (fprod alpha 1) (fprod (fresta 1 alpha) (tasa_exito antes)) ∧
  en_unidad (tasa_exito antes) ∧
  en_unidad (tasa_exito despues) ∧
  (alpha * 1 + (1 - alpha) * tasa_exito antes - pot2 (-52) <= tasa_exito despues)%Q ∧
  (tasa_exito despues <= alpha * 1 + (1 - alpha) * tasa_exito antes + pot2 (-52))%Q ∧
  (tasa_exito antes - pot2 (-52) <= tasa_exito despues)%Q.
Proof.
  apply (C9_tasa_exito_acotada_casi_monotona ∅ ∅
           [Resultado true (Some 2%Q); Resultado true (Some 2%Q)]
           (Resultado true (Some 2%Q))).
  - split; vm_compute; discriminate.
  - vm_compute. reflexivity.
  - split; vm_compute; discriminate.
  - repeat constructor.
Defined.

(** *** Usage statistics and the mean duration *)

(** The [estadisticas_uso] dictionary; [None] is an absent key. *)
Record estadisticas_uso : Type := EstadisticasUso {
  total_ejecuciones : option Z;
  ejecuciones_exitosas : option Z;
  ejecuciones_fallidas : option Z;
  ultima_ejecucion : option string
}.

(** [_actualizar_estadisticas(estadisticas_actuales, resultado)];
    [ahora_iso] is [datetime.now().isoformat()]. *)
Definition _actualizar_estadisticas (ahora_iso : string)
    (estadisticas_actuales : estadisticas_uso) (resultado : resultado_ejecucion)
    : estadisticas_uso :=
  let total := Some (default 0 (total_ejecuciones estadisticas_actuales) + 1)%Z in
  if exito resultado
  then EstadisticasUso total
         (Some (default 0 (ejecuciones_exitosas estadisticas_actuales) + 1)%Z)
         (ejecuciones_fallidas estadisticas_actuales) (Some ahora_iso)
  else EstadisticasUso total
         (ejecuciones_exitosas estadisticas_actuales)
         (Some (default 0 (ejecuciones_fallidas estadisticas_actuales) + 1)%Z)
         (Some ahora_iso).

(** The statistics after the executions [resultados], each recorded at
    its own time. *)
Definition actualizar_todas (estadisticas : estadisticas_uso)
    (resultados : list (string * resultado_ejecucion)) : estadisticas_uso :=
  foldl (λ e p, _actualizar_estadisticas p.1 e p.2) estadisticas resultados.

Definition cuenta (b : bool) (resultados : list (string * resultado_ejecucion)) : Z :=
  Z.of_nat (length (List.filter (λ p, Bool.eqb (exito p.2) b) resultados)).

(** X9.  The usage counters count: after any executions the total has
    grown by their number, the successes by the number of successful ones
    and the failures by the number of failed ones; statistics whose total
    was the sum of successes and failures, such as the empty ones, keep
    that equation. *)
Theorem estadisticas_cuentan_ejecuciones (estadisticas : estadisticas_uso)
    (resultados : list (string * resultado_ejecucion)) :
  let e' := actualizar_todas estadisticas resultados in
  let total e := default 0%Z (total_ejecuciones e) in
  let exitosas e := default 0%Z (ejecuciones_exitosas e) in
  let fallidas e := default 0%Z (ejecuciones_fallidas e) in
  total e' = (total estadisticas + Z.of_nat (length resultados))%Z ∧
  exitosas e' = (exitosas estadisticas + cuenta true resultados)%Z ∧
  fallidas e' = (fallidas estadisticas + cuenta false resultados)%Z ∧
  (total e' - exitosas e' - fallidas e'
   = total estadisticas - exitosas estadisticas - fallidas estadisticas)%Z.
Proof.
  cbv zeta. revert estadisticas.
  induction resultados as [|[iso r] rs IH]; intros e.
  - unfold cuenta. simpl. lia.
  - change (actualizar_todas e ((iso, r) :: rs))
      with (actualizar_todas (_actualizar_estadisticas iso e r) rs).
    destruct (IH (_actualizar_estadisticas iso e r)) as (H1 & H2 & H3 & H4).
    rewrite H4, H1, H2, H3. clear IH H1 H2 H3 H4.
    unfold cuenta, _actualizar_estadisticas. simpl.
    destruct (exito r); simpl; repeat split; lia.
Qed.

(** X10.  With the smoothing factor a float of [0,1] and the stored
    success rate a float of [0,1], the rate stays in [0,1] after any
    executions, successful or not, and one more failed execution makes it
    the rounded product of the rounded [1 - alpha] and the rate, so never
    raises it. *)
Theorem tasa_exito_acotada_con_fallos
    (config metricas : gmap string Q) (previos : list resultado_ejecucion)
    (r : resultado_ejecucion) :
  en_unidad (alpha_metricas config) →
  es_float (alpha_metricas config) →
  en_unidad (tasa_exito metricas) →
  es_float (tasa_exito metricas) →
  exito r = false →
  let antes := registrar_ejecuciones config metricas previos in
  let despues := _calcular_nuevas_metricas config antes r in
  en_unidad (tasa_exito antes) ∧
  (tasa_exito despues
   == fprod (fresta 1 (alpha_metricas config)) (tasa_exito antes))%Q ∧
  en_unidad (tasa_exito despues) ∧
  (tasa_exito despues <= tasa_exito antes)%Q.
Proof.
  intros Ha Hfa Hp Hfp Hr antes despues.
  assert (en_unidad (tasa_exito antes)) as Hantes by by apply registrar_en_unidad.
  assert (es_float (tasa_exito antes)) as Hfantes by by apply registrar_es_float.
  assert (tasa_exito despues
          == fprod (fresta 1 (alpha_metricas config)) (tasa_exito antes))%Q as Heq.
  { unfold despues. rewrite tasa_exito_nueva, Hr. apply ewma_fallo. }
  assert (en_unidad (tasa_exito despues)) as Hdespues.
  { unfold despues. rewrite tasa_exito_nueva. by apply ewma_en_unidad. }
  repeat split; try done; try apply Hantes; try apply Hdespues.
  apply desde with (fprod (fresta 1 (alpha_metricas config)) (tasa_exito antes)); [done|].
  destruct (complemento_en_unidad _ Ha) as ([Hb0 Hb1] & _).
  destruct Hantes as [Hp0 Hp1].
  apply hasta with (redondear (tasa_exito antes)); [|exact Hfantes].
  apply redondear_creciente.
  assert (0 <= (1 - fresta 1 (alpha_metricas config)) * tasa_exito antes)%Q
    by (apply Qmult_le_0_compat; lra).
  lra.
Qed.

Lemma tasa_exito_acotada_con_fallos_witness :
  let r := Resultado false None in
  let antes := registrar_ejecuciones ∅ ∅ [Resultado true (Some 2%Q); r] in
  let despues := _calcular_nuevas_metricas ∅ antes r in
  en_unidad (tasa_exito antes) ∧
  (tasa_exito despues == fprod (fresta 1 (alpha_metricas ∅)) (tasa_exito antes))%Q ∧
  en_unidad (tasa_exito despues) ∧
  (tasa_exito despues <= tasa_exito antes)%Q.
Proof.
  apply (tasa_exito_acotada_con_fallos ∅ ∅
           [Resultado true (Some 2%Q); Resultado false None] (Resultado false None)).
  - split; vm_compute; discriminate.
  - vm_compute. reflexivity.
  - split; vm_compute; discriminate.
  - vm_compute. reflexivity.
  - reflexivity.
Defined.

(** The mean duration [alpha * d + (1 - alpha) * x] as the code computes
    it grows with the duration and with the stored mean. *)
Lemma media_creciente (a d d' x x' : Q) :
  en_unidad a → (0 <= d)%Q → (d <= d')%Q → (0 <= x)%Q → (x <= x')%Q →
  (0 <= fsuma (fprod a d) (fprod (fresta 1 a) x))%Q ∧
  (fsuma (fprod a d) (fprod (fresta 1 a) x)
   <= fsuma (fprod a d') (fprod (fresta 1 a) x'))%Q.
Proof.
  intros Ha Hd Hdd Hx Hxx.
  destruct (complemento_en_unidad a Ha) as ([Hb0 Hb1] & _).
  destruct Ha as [Ha0 Ha1].
  assert (0 <= fprod a d)%Q
    by (apply redondear_nonneg, Qmult_le_0_compat; lra).
  assert (0 <= fprod (fresta 1 a) x)%Q
    by (apply redondear_nonneg, Qmult_le_0_compat; lra).
  assert (fprod a d <= fprod a d')%Q.
  { apply redondear_creciente.
    assert (0 <= a * (d' - d))%Q by (apply Qmult_le_0_compat; lra). lra. }
  assert (fprod (fresta 1 a) x <= fprod (fresta 1 a) x')%Q.
  { apply redondear_creciente.
    assert (0 <= fresta 1 a * (x' - x))%Q by (apply Qmult_le_0_compat; lra). lra. }
  unfold fsuma. split.
  - apply redondear_nonneg. lra.
  - apply redondear_creciente. lra.
Qed.

(** X11.  The mean duration.  An execution without a positive duration
    leaves the stored mean as it is.  A positive duration becomes the mean
    when no mean or the mean 0 is stored.  Otherwise the new mean is
    [alpha * d + (1 - alpha) * x] computed in binary64, each operation
    rounded, for the duration [d] and the stored mean [x]; with a
    smoothing factor in [0,1] it is not negative and, of two updates,
    the one with the longer duration and the larger stored mean gives the
    larger mean. *)
Theorem tiempo_promedio_actualizado
    (config metricas metricas' : gmap string Q) (r r' : resultado_ejecucion)
    (d d' x x' : Q) :
  en_unidad (alpha_metricas config) →
  duracion r = Some d → duracion r' = Some d' →
  metricas !! "tiempo_promedio" = Some x →
  metricas' !! "tiempo_promedio" = Some x' →
  (0 < d)%Q → (d <= d')%Q → (0 < x)%Q → (x <= x')%Q →
  let alpha := alpha_metricas config in
  let tiempo (m : gmap string Q) := m !! "tiempo_promedio" in
  let nueva := fsuma (fprod alpha d) (fprod (fresta 1 alpha) x) in
  let nueva' := fsuma (fprod alpha d') (fprod (fresta 1 alpha) x') in
  tiempo (_calcular_nuevas_metricas config metricas r) = Some nueva ∧
  tiempo (_calcular_nuevas_metricas config metricas' r') = Some nueva' ∧
  (0 <= nueva)%Q ∧ (nueva <= nueva')%Q ∧
  (∀ s, match duracion s with Some t => (t <= 0)%Q | None => True end →
        tiempo (_calcular_nuevas_metricas config metricas s) = tiempo metricas) ∧
  (∀ s m, duracion s = Some d →
          (tiempo m = None ∨ ∃ z, tiempo m = Some z ∧ (z == 0)%Q) →
          tiempo (_calcular_nuevas_metricas config m s) = Some d).
Proof.
  intros Ha Hr Hr' Hm Hm' Hd Hdd Hx Hxx alpha tiempo nueva nueva'.
  assert (∀ t, (0 < t)%Q → Qgtb t 0 = true) as Hpos.
  { intros t Ht. unfold Qgtb. destruct (Qle_bool t 0) eqn:Hle; [|done].
    apply Qle_bool_iff in Hle. lra. }
  assert (∀ t, (0 < t)%Q → Qeq_bool t 0 = false) as Hnz.
  { intros t Ht. destruct (Qeq_bool t 0) eqn:He; [|done].
    apply Qeq_bool_iff in He. lra. }
  split; [|split; [|split; [|split; [|split]]]].
  - unfold tiempo, _calcular_nuevas_metricas. rewrite Hr, Hm. simpl.
    rewrite Hpos, Hnz by done. by rewrite lookup_insert_eq.
  - unfold tiempo, _calcular_nuevas_metricas. rewrite Hr', Hm'. simpl.
    rewrite Hpos, Hnz by lra. by rewrite lookup_insert_eq.
  - apply (media_creciente alpha d d' x x'); [done|lra..].
  - apply (media_creciente alpha d d' x x'); [done|lra..].
  - intros s Hs. unfold tiempo, _calcular_nuevas_metricas.
    destruct (duracion s) as [t|]; simpl.
    + apply Qle_bool_iff in Hs. unfold Qgtb. rewrite Hs. simpl.
      by rewrite lookup_insert_ne.
    + by rewrite lookup_insert_ne.
  - intros s m Hs Hz. unfold tiempo in *. unfold _calcular_nuevas_metricas.
    rewrite Hs. simpl. rewrite Hpos by done.
    destruct Hz as [->|(z & -> & Hz)]; simpl.
    + by rewrite lookup_insert_eq.
    + apply Qeq_bool_iff in Hz. rewrite Hz. by rewrite lookup_insert_eq.
Qed.

Lemma tiempo_promedio_witness :
  let config : gmap string Q := ∅ in
  let metricas : gmap string Q := {["tiempo_promedio" := 13%Q]} in
  let metricas' : gmap string Q := {["tiempo_promedio" := 14%Q]} in
  let r := Resultado true (Some 13%Q) in
  let alpha := alpha_metricas config in
  let tiempo (m : gmap string Q) := m !! "tiempo_promedio" in
  let nueva := fsuma (fprod alpha 13) (fprod (fresta 1 alpha) 13) in
  let nueva' := fsuma (fprod alpha 13) (fprod (fresta 1 alpha) 14) in
  tiempo (_calcular_nuevas_metricas config metricas r) = Some nueva ∧
  tiempo (_calcular_nuevas_metricas config metricas' r) = Some nueva' ∧
  (0 <= nueva)%Q ∧ (nueva <= nueva')%Q ∧
  (∀ s, match duracion s with Some t => (t <= 0)%Q | None => True end →
        tiempo (_calcular_nuevas_metricas config metricas s) = tiempo metricas) ∧
  (∀ s m, duracion s = Some 13%Q →
          (tiempo m = None ∨ ∃ z, tiempo m = Some z ∧ (z == 0)%Q) →
          tiempo (_calcular_nuevas_metricas config m s) = Some 13%Q).
Proof.
  apply (tiempo_promedio_actualizado ∅ {["tiempo_promedio" := 13%Q]}
           {["tiempo_promedio" := 14%Q]}
           (Resultado true (Some 13%Q)) (Resultado true (Some 13%Q)) 13 13 13 14).
  - split; vm_compute; discriminate.
  - reflexivity.
  - reflexivity.
  - reflexivity.
  - reflexivity.
  - reflexivity.
  - vm_compute. discriminate.
  - reflexivity.
  - vm_compute. discriminate.
Defined.

(** The mean of two equal durations need not be that duration: with the
    default smoothing factor the mean of 13 and 13 is
    13.000000000000002. *)
Example media_de_iguales :
  (13 < fsuma (fprod (alpha_metricas ∅) 13) (fprod (fresta 1 (alpha_metricas ∅)) 13))%Q.
Proof. vm_compute. reflexivity. Qed.

End GestorMetricas.

(** ** Plans and tasks: the dictionaries the planner, validator,
       orchestrator and execution engine exchange *)

Module Plan.

(** A task dictionary; [None] is an absent key. *)
Record tarea : Type := Tarea {
  id : option string;
  tipo : option string;
  herramienta : option string;
  parametros : option (gmap string valor);
  dependencias : option (list string);
  timeout : option Q;
  max_reintentos : option Z;
  critica : option bool
}.

(** A plan dictionary. *)
Record plan : Type := MkPlan {
  objetivo : string;
  tareas : option (list tarea)
}.

(** The result dictionary of one task execution; [None] is an absent key.
    The execution engine returns [{'resultado': ...}] on success and
    [{'exito': False, 'error', 'tipo_error', 'reintentos'}] on failure. *)
Record resultado_tarea : Type := ResultadoTarea {
  exito : option bool;
  resultado : option valor;
  error : option string;
  tipo_error : option string;
  reintentos : option Z
}.

(** Truth value of an optional string, as in [if tarea_id:]. *)
Definition cadena_verdadera (s : option string) : bool :=
  match s with
  | Some s => negb (String.eqb s "")
  | None => false
  end.

(** [plan.get('tareas', [])]. *)
Definition tareas_de (p : plan) : list tarea := default [] (tareas p).

(** [tarea.get('dependencias', [])]. *)
Definition dependencias_de (t : tarea) : list string := default [] (dependencias t).

(** A task with only an id, a tool and dependencies. *)
Definition tarea_simple (i h : string) (deps : list string) : tarea :=
  Tarea (Some i) None (Some h) None (Some deps) None None None.

End Plan.

Import Plan.

(** ** src/sistema/mcp_validacion.py : plan validation and optimisation *)

Module ValidadorOptimizadorPlanes.

(** *** The dependency graph and [nx.simple_cycles] *)

(** The edges [grafo.add_edge(dep, tarea_id)] added for the plan, in order;
    a task whose id is absent or empty adds nothing. *)
Definition aristas (p : plan) : list (string * string) :=
  flat_map (λ t, match id t with
                 | Some i => if cadena_verdadera (id t)
                             then map (λ dep, (dep, i)) (dependencias_de t)
                             else []
                 | None => []
                 end) (tareas_de p).

(** Search for a simple path from [actual] back to [destino] that avoids
    [visitados]: every step follows an edge to [destino] itself or to a node
    not visited before. *)
Fixpoint camino_simple (fuel : nat) (g : list (string * string))
    (destino actual : string) (visitados : list string) : bool :=
  match fuel with
  | O => false
  | S fuel' =>
    existsb (λ e : string * string,
               String.eqb e.1 actual &&
               (String.eqb e.2 destino ||
                (negb (pertenece e.2 visitados) &&
                 camino_simple fuel' g destino e.2 (e.2 :: visitados)))) g
  end.

(** Whether [list(nx.simple_cycles(grafo))] is non-empty: some node lies
    on an elementary circuit (self-loops included).  A simple path visits
    each edge target at most once, so [S (length g)] steps are enough. *)
Definition hay_ciclos (g : list (string * string)) : bool :=
  existsb (λ e : string * string, camino_simple (S (length g)) g e.1 e.1 [e.1]) g.

(** *** The three validation rules *)

(** [_validar_minimo_tareas]. *)
Definition _validar_minimo_tareas (p : plan) : salida (bool * string) :=
  if (length (tareas_de p) =? 0)%nat
  then Devuelve (false, "El plan no contiene tareas")
  else Devuelve (true, "").

(** [_validar_dependencias_ciclicas]; the text of the message stops before
    the rendering of the list of cycles. *)
Definition _validar_dependencias_ciclicas (p : plan) : salida (bool * string) :=
  if hay_ciclos (aristas p)
  then Devuelve (false, "Se detectaron ciclos en las dependencias")
  else Devuelve (true, "").

Definition herramientas_disponibles : list string :=
  ["busqueda_web"; "generacion_texto"; "api_rest"].

(** The tools named by the tasks of the plan ([herramientas_plan]). *)
Definition herramientas_plan (p : plan) : list string :=
  flat_map (λ t, match herramienta t with
                 | Some h => if cadena_verdadera (herramienta t) then [h] else []
                 | None => []
                 end) (tareas_de p).

(** [_validar_recursos_disponibles]; the text of the message stops before
    the rendering of the set of tools. *)
Definition _validar_recursos_disponibles (p : plan) : salida (bool * string) :=
  if forallb (λ h, pertenece h herramientas_disponibles) (herramientas_plan p)
  then Devuelve (true, "")
  else Devuelve (false, "Herramientas no disponibles").

Record regla : Type := Regla {
  nombre : string;
  descripcion : string;
  funcion : plan → salida (bool * string)
}.

(** [_cargar_reglas_validacion]. *)
Definition _cargar_reglas_validacion : list regla :=
  [ Regla "tareas_minimo" "El plan debe tener al menos una tarea"
          _validar_minimo_tareas;
    Regla "dependencias_ciclicas" "No debe haber ciclos en las dependencias"
          _validar_dependencias_ciclicas;
    Regla "recursos_disponibles" "Las herramientas especificadas deben estar disponibles"
          _validar_recursos_disponibles ].

(** The body of the loop of [validar_plan] for one rule. *)
Definition aplicar_regla (p : plan) (errores : list string) (r : regla) : list string :=
  match funcion r p with
  | Devuelve (valido, mensaje) =>
    if valido then errores else errores ++ [nombre r ++ ": " ++ mensaje]
  | Lanza e => errores ++ ["Error ejecutando regla " ++ nombre r ++ ": " ++ mensaje e]
  end.

(** [validar_plan(plan)]. *)
Definition validar_plan (p : plan) : bool * list string :=
  let errores := foldl (aplicar_regla p) [] _cargar_reglas_validacion in
  ((length errores =? 0)%nat, errores).

(** *** Optimisation *)

(** [sorted(l, key=clave)]: the stable sort by a numeric key. *)
Fixpoint insertar {A : Type} (clave : A → nat) (x : A) (l : list A) : list A :=
  match l with
  | [] => [x]
  | y :: l' => if (clave x <=? clave y)%nat then x :: y :: l' else y :: insertar clave x l'
  end.

Definition sorted {A : Type} (clave : A → nat) (l : list A) : list A :=
  foldr (insertar clave) [] l.

(** [_optimizar_secuencia(plan)]: [plan['tareas']] raises [KeyError] when
    the key is absent. *)
Definition _optimizar_secuencia (p : plan) : salida plan :=
  match tareas p with
  | None => Lanza (Excepcion "KeyError" "'tareas'")
  | Some ts =>
    Devuelve (MkPlan (objetivo p)
                     (Some (sorted (λ x, length (dependencias_de x)) ts)))
  end.

Definition _optimizar_recursos (p : plan) : salida plan := Devuelve p.
Definition _optimizar_parametros (p : plan) : salida plan := Devuelve p.

(** [optimizar_plan(plan)]. *)
Definition optimizar_plan (p : plan) : salida plan :=
  match _optimizar_secuencia p with
  | Lanza e => Lanza e
  | Devuelve p1 =>
    match _optimizar_recursos p1 with
    | Lanza e => Lanza e
    | Devuelve p2 => _optimizar_parametros p2
    end
  end.

(** The position of the task with id [i] in a task list. *)
Fixpoint posicion (i : string) (ts : list tarea) : option nat :=
  match ts with
  | [] => None
  | t :: ts' =>
    if match id t with Some j => String.eqb i j | None => false end
    then Some O
    else S <$> posicion i ts'
  end.

(** The non-empty ids of the tasks of the plan: the nodes [add_node] adds. *)
Definition ids (p : plan) : list string :=
  flat_map (λ t, match id t with
                 | Some i => if cadena_verdadera (id t) then [i] else []
                 | None => []
                 end) (tareas_de p).

(** The plan with every dependency id that names no task of the plan
    dropped from the tasks' dependency lists. *)
Definition sin_dependencias_desconocidas (p : plan) : plan :=
  MkPlan (objetivo p)
         (Some (map (λ t, Tarea (id t) (tipo t) (herramienta t) (parametros t)
                            (Some (List.filter (λ d, pertenece d (ids p)) (dependencias_de t)))
                            (Plan.timeout t) (max_reintentos t) (critica t))
                    (tareas_de p))).

(** Some task of the plan lists a dependency that is the id of no task of
    the plan. *)
Definition dependencia_desconocida (p : plan) : Prop :=
  ∃ t dep, In t (tareas_de p) ∧ In dep (dependencias_de t) ∧
           ∀ t', In t' (tareas_de p) → id t' ≠ Some dep.

(** *** Facts about the cycle search *)

Lemma pertenece_In (x : string) (l : list string) : pertenece x l = true ↔ In x l.
Proof.
  unfold pertenece. rewrite existsb_exists. split.
  - intros (y & Hy & Heq). apply String.eqb_eq in Heq. by subst.
  - intros H. exists x. split; [done | apply String.eqb_refl].
Qed.

Lemma existsb_ext_In {A : Type} (P Q : A → bool) (l : list A) :
  (∀ x, In x l → P x = Q x) → existsb P l = existsb Q l.
Proof.
  induction l as [|x l IH]; intros H; [done|]. simpl.
  rewrite (H x) by (by left). f_equal. apply IH. intros y Hy. apply H. by right.
Qed.

Lemma existsb_filter {A : Type} (P Q : A → bool) (l : list A) :
  existsb P (List.filter Q l) = existsb (λ x, Q x && P x) l.
Proof.
  induction l as [|x l IH]; [done|]. simpl.
  destruct (Q x); simpl; by rewrite IH.
Qed.

Lemma length_filter_mono {A : Type} (P Q : A → bool) (l : list A) :
  (∀ x, P x = true → Q x = true) →
  (length (List.filter P l) ≤ length (List.filter Q l))%nat.
Proof.
  intros H. induction l as [|x l IH]; [done|]. simpl.
  destruct (P x) eqn:HP.
  - rewrite (H x HP). simpl. lia.
  - destruct (Q x); simpl; lia.
Qed.

Lemma length_filter_strict {A : Type} (P Q : A → bool) (l : list A) (x0 : A) :
  (∀ x, P x = true → Q x = true) → In x0 l → P x0 = false → Q x0 = true →
  (length (List.filter P l) < length (List.filter Q l))%nat.
Proof.
  intros H. induction l as [|x l IH]; intros Hin HP HQ; [done|].
  simpl. destruct Hin as [->|Hin].
  - rewrite HP, HQ. simpl.
    pose proof (length_filter_mono P Q l H). lia.
  - specialize (IH Hin HP HQ). destruct (P x) eqn:HPx.
    + rewrite (H x HPx). simpl. lia.
    + destruct (Q x); simpl; lia.
Qed.

(** Edges whose target has not been visited: a bound on the length of the
    rest of a simple path. *)
Definition libres (g : list (string * string)) (visitados : list string) : nat :=
  length (List.filter (λ e : string * string, negb (pertenece e.2 visitados)) g).

Lemma libres_cons (g : list (string * string)) (visitados : list string)
    (e : string * string) :
  In e g → pertenece e.2 visitados = false →
  (libres g (e.2 :: visitados) < libres g visitados)%nat.
Proof.
  intros Hin Hv. unfold libres.
  apply length_filter_strict with (x0 := e); try done.
  - intros x. simpl. destruct (String.eqb x.2 e.2); [done|]. by rewrite orb_false_l.
  - simpl. by rewrite String.eqb_refl.
  - by rewrite Hv.
Qed.

Lemma libres_le (g : list (string * string)) (visitados : list string) :
  (libres g visitados ≤ length g)%nat.
Proof. unfold libres. apply List.filter_length_le. Qed.

(** Past the bound, more fuel does not change the search. *)
Lemma camino_simple_fuel (f1 f2 : nat) (g : list (string * string))
    (destino actual : string) (visitados : list string) :
  (libres g visitados < f1)%nat → (libres g visitados < f2)%nat →
  camino_simple f1 g destino actual visitados =
  camino_simple f2 g destino actual visitados.
Proof.
  revert f2 actual visitados.
  induction f1 as [|f1 IH]; intros f2 actual visitados H1 H2; [lia|].
  destruct f2 as [|f2]; [lia|]. simpl.
  apply existsb_ext_In. intros e He.
  destruct (String.eqb e.1 actual); [|done]. simpl.
  destruct (String.eqb e.2 destino); [done|]. simpl.
  destruct (pertenece e.2 visitados) eqn:Hv; [done|]. simpl.
  pose proof (libres_cons g visitados e He Hv).
  apply IH; lia.
Qed.

(** A node that is the target of no edge lies on no cycle. *)
Lemma camino_simple_sin_entrada (f : nat) (g : list (string * string))
    (destino actual : string) (visitados : list string) :
  (∀ e, In e g → e.2 ≠ destino) →
  camino_simple f g destino actual visitados = false.
Proof.
  intros Hd. revert actual visitados.
  induction f as [|f IH]; intros actual visitados; [done|]. simpl.
  apply not_true_is_false. intros (e & He & Hp)%existsb_exists.
  rewrite IH, andb_false_r, orb_false_r in Hp.
  apply andb_prop in Hp as [_ Hp]. apply String.eqb_eq in Hp.
  by apply (Hd e He).
Qed.

Section GrafoFiltrado.

(** [K] holds every edge target; [filtrado] keeps the edges leaving [K]. *)
Variable g : list (string * string).
Variable K : list string.
Hypothesis destinos_en_K : ∀ e, In e g → In e.2 K.

Definition filtrado : list (string * string) :=
  List.filter (λ e : string * string, pertenece e.1 K) g.

Lemma camino_simple_filtrado (f : nat) (destino actual : string)
    (visitados : list string) :
  In actual K →
  camino_simple f g destino actual visitados =
  camino_simple f filtrado destino actual visitados.
Proof.
  revert actual visitados.
  induction f as [|f IH]; intros actual visitados Hact; [done|]. simpl.
  transitivity (existsb (λ e : string * string,
                  pertenece e.1 K &&
                  (String.eqb e.1 actual &&
                   (String.eqb e.2 destino ||
                    (negb (pertenece e.2 visitados) &&
                     camino_simple f filtrado destino e.2 (e.2 :: visitados))))) g);
    [|symmetry; apply (existsb_filter _ (λ e : string * string, pertenece e.1 K) g)].
  apply existsb_ext_In. intros e He.
  destruct (String.eqb e.1 actual) eqn:Hsrc; [|by rewrite andb_false_r].
  apply String.eqb_eq in Hsrc.
  assert (pertenece e.1 K = true) as -> by (apply pertenece_In; by rewrite Hsrc).
  simpl. rewrite (IH e.2 (e.2 :: visitados)) by (by apply destinos_en_K). done.
Qed.

Lemma hay_ciclos_filtrado : hay_ciclos g = hay_ciclos filtrado.
Proof.
  unfold hay_ciclos.
  transitivity (existsb (λ e : string * string,
                  pertenece e.1 K &&
                  camino_simple (S (length filtrado)) filtrado e.1 e.1 [e.1]) g);
    [|symmetry; apply (existsb_filter _ (λ e : string * string, pertenece e.1 K) g)].
  apply existsb_ext_In. intros e He.
  destruct (pertenece e.1 K) eqn:HK; [rewrite andb_true_l | rewrite andb_false_l].
  - apply pertenece_In in HK.
    rewrite camino_simple_filtrado by done.
    apply camino_simple_fuel.
    + pose proof (libres_le filtrado [e.1]).
      pose proof (List.filter_length_le (λ e : string * string, pertenece e.1 K) g).
      unfold filtrado in *. lia.
    + pose proof (libres_le filtrado [e.1]). lia.
  - apply camino_simple_sin_entrada. intros e' He' Heq.
    apply destinos_en_K in He'. rewrite Heq in He'.
    apply pertenece_In in He'. congruence.
Qed.

End GrafoFiltrado.

(** *** The cycle search finds exactly the graphs with a cycle *)

(** [es_camino g u l]: from [u], the nodes of [l] follow one another along
    edges of [g]. *)
Fixpoint es_camino (g : list (string * string)) (u : string) (l : list string) : Prop :=
  match l with
  | [] => True
  | v :: l' => In (u, v) g ∧ es_camino g v l'
  end.

(** The graph has a cycle: a walk of at least one edge from a node back
    to itself. *)
Definition existe_ciclo (g : list (string * string)) : Prop :=
  ∃ u l, l ≠ [] ∧ es_camino g u l ∧ List.last l u = u.

Lemma last_cons_defecto {A : Type} (x : A) (l : list A) (d d' : A) :
  List.last (x :: l) d = List.last (x :: l) d'.
Proof.
  revert x. induction l as [|y l IH]; intros x; [done|].
  change (List.last (y :: l) d = List.last (y :: l) d'). apply IH.
Qed.

Lemma es_camino_app (g : list (string * string)) (u : string) (l1 l2 : list string) :
  es_camino g u (l1 ++ l2) ↔ es_camino g u l1 ∧ es_camino g (List.last l1 u) l2.
Proof.
  revert u. induction l1 as [|v l1 IH]; intros u; [simpl; tauto|].
  change (es_camino g u ((v :: l1) ++ l2))
    with (In (u, v) g ∧ es_camino g v (l1 ++ l2)).
  change (es_camino g u (v :: l1)) with (In (u, v) g ∧ es_camino g v l1).
  rewrite IH.
  assert (List.last (v :: l1) u = List.last l1 v) as ->; [|tauto].
  destruct l1 as [|w l1]; [done|].
  change (List.last (w :: l1) u = List.last (w :: l1) v). apply last_cons_defecto.
Qed.

Lemma last_app_cons {A : Type} (l1 l2 : list A) (x d : A) :
  List.last (l1 ++ x :: l2) d = List.last (x :: l2) d.
Proof.
  induction l1 as [|y l1 IH]; [done|].
  change ((y :: l1) ++ x :: l2)%list with (y :: (l1 ++ x :: l2))%list.
  destruct (l1 ++ x :: l2)%list eqn:Heq; [by destruct l1|].
  rewrite <- IH. reflexivity.
Qed.

(** A cycle contains an elementary one: its nodes are distinct. *)
Lemma ciclo_elemental (g : list (string * string)) (n : nat) :
  ∀ (u : string) (l : list string),
    (List.length l ≤ n)%nat → l ≠ [] → es_camino g u l → List.last l u = u →
  ∃ u' l', l' ≠ [] ∧ es_camino g u' l' ∧ List.last l' u' = u' ∧ List.NoDup l'.
Proof.
  induction n as [|n IH]; intros u l Hlen Hne Hcam Hlast.
  - destruct l; [done | simpl in Hlen; lia].
  - destruct (ListDec.NoDup_dec string_dec l) as [Hnd|Hdup]; [by exists u, l|].
    apply ListDec.not_NoDup in Hdup as (a & l1 & l2 & l3 & ->);
      [|intros x y; destruct (string_dec x y); [by left | by right]].
    apply es_camino_app in Hcam as [_ Hcam].
    simpl in Hcam. destruct Hcam as [_ Hcam].
    change (a :: l3) with ([a] ++ l3)%list in Hcam.
    rewrite app_assoc in Hcam. apply es_camino_app in Hcam as [Hcam _].
    apply (IH a (l2 ++ [a])%list).
    + rewrite !length_app in Hlen. simpl in Hlen. rewrite length_app in Hlen.
      simpl in Hlen. rewrite length_app. simpl. lia.
    + by destruct l2.
    + done.
    + by rewrite last_app_cons.
Qed.

(** The search follows an elementary path to its end. *)
Lemma camino_simple_completo (g : list (string * string)) (destino : string)
    (l : list string) :
  ∀ fuel actual visitados,
    l ≠ [] → es_camino g actual l → List.last l actual = destino → List.NoDup l →
    (∀ x, In x l → x ≠ destino → ¬ In x visitados) →
    (List.length l ≤ fuel)%nat →
    camino_simple fuel g destino actual visitados = true.
Proof.
  induction l as [|v l IH]; intros fuel actual visitados Hne Hcam Hlast Hnd Hvis Hfuel;
    [done|].
  destruct fuel as [|fuel]; [simpl in Hfuel; lia|].
  destruct Hcam as [Hedge Hcam]. simpl.
  apply existsb_exists. exists (actual, v). split; [done|]. simpl.
  rewrite String.eqb_refl. simpl.
  destruct (String.eqb v destino) eqn:Hvd; [done|]. simpl.
  apply String.eqb_neq in Hvd.
  assert (pertenece v visitados = false) as ->.
  { apply not_true_is_false. intros Hin%pertenece_In.
    by apply (Hvis v); [left|..]. }
  simpl. apply List.NoDup_cons_iff in Hnd as [Hv Hnd].
  destruct l as [|w l]; [by simpl in Hlast|].
  apply IH; [done | done | | done | |].
  - change (List.last (w :: l) actual = destino) in Hlast.
    rewrite <- Hlast. apply last_cons_defecto.
  - intros x Hx Hxd [<-|Hin]; [done|]. apply (Hvis x); [by right|done..].
  - simpl in *. lia.
Qed.

(** What the search finds is a walk to its target. *)
Lemma camino_simple_correcto (g : list (string * string)) (destino : string) :
  ∀ fuel actual visitados,
    camino_simple fuel g destino actual visitados = true →
    ∃ l, l ≠ [] ∧ es_camino g actual l ∧ List.last l actual = destino.
Proof.
  induction fuel as [|fuel IH]; intros actual visitados H; [done|].
  simpl in H. apply existsb_exists in H as ([u v] & He & H). simpl in H.
  apply andb_prop in H as [Hu H]. apply String.eqb_eq in Hu. subst u.
  apply orb_prop in H as [Hv|H].
  - apply String.eqb_eq in Hv. subst v. exists [destino]. by repeat split.
  - apply andb_prop in H as [_ H]. apply IH in H as (l & Hne & Hcam & Hlast).
    exists (v :: l). split; [done|]. split; [done|].
    destruct l as [|w l]; [done|].
    change (List.last (w :: l) actual = destino).
    rewrite <- Hlast. apply last_cons_defecto.
Qed.

(** [hay_ciclos] decides whether the graph has a cycle. *)
Lemma hay_ciclos_correcto (g : list (string * string)) :
  hay_ciclos g = true ↔ existe_ciclo g.
Proof.
  unfold hay_ciclos, existe_ciclo. split.
  - intros (e & He & H)%existsb_exists.
    apply camino_simple_correcto in H as (l & Hne & Hcam & Hlast). eauto.
  - intros (u & l & Hne & Hcam & Hlast).
    destruct (ciclo_elemental g (length l) u l) as (u' & l' & Hne' & Hcam' & Hlast' & Hnd);
      try done.
    destruct l' as [|v l']; [done|].
    apply existsb_exists. exists (u', v). split; [by destruct Hcam'|].
    change (camino_simple (S (length g)) g u' u' [u'] = true).
    rewrite (camino_simple_fuel _ (Nat.max (length (v :: l')) (S (length g)))).
    + apply (camino_simple_completo g u' (v :: l')); try done; [|lia].
      intros x _ Hx [->|[]]. done.
    + pose proof (libres_le g [u']). lia.
    + pose proof (libres_le g [u']). lia.
Qed.

(** *** The plan with its unknown dependencies dropped *)

Lemma filter_flat_map {A B : Type} (Q : B → bool) (F : A → list B) (l : list A) :
  List.filter Q (flat_map F l) = flat_map (λ x, List.filter Q (F x)) l.
Proof.
  induction l as [|x l IH]; [done|]. simpl. by rewrite List.filter_app, IH.
Qed.

Lemma filter_map_arista (K : list string) (i : string) (deps : list string) :
  List.filter (λ e : string * string, pertenece e.1 K) (map (λ dep, (dep, i)) deps) =
  map (λ dep, (dep, i)) (List.filter (λ d, pertenece d K) deps).
Proof.
  induction deps as [|d deps IH]; [done|]. simpl.
  destruct (pertenece d K); simpl; by rewrite IH.
Qed.

Lemma aristas_destinos (p : plan) (e : string * string) :
  In e (aristas p) → In e.2 (ids p).
Proof.
  unfold aristas, ids. rewrite !in_flat_map.
  intros (t & Ht & He). exists t. split; [done|].
  destruct (id t) as [i|]; [|done].
  destruct (cadena_verdadera (Some i)); [|done].
  apply in_map_iff in He as (dep & <- & _). by left.
Qed.

Lemma aristas_sin_dependencias_desconocidas (p : plan) :
  aristas (sin_dependencias_desconocidas p) = filtrado (aristas p) (ids p).
Proof.
  unfold filtrado, aristas at 2. rewrite filter_flat_map.
  unfold aristas, sin_dependencias_desconocidas, tareas_de at 1. simpl.
  generalize (ids p) as K. intros K.
  induction (tareas_de p) as [|t ts IH]; [done|]. simpl. rewrite IH. f_equal.
  destruct (id t) as [i|]; [|done].
  destruct (cadena_verdadera (Some i)); [|done].
  unfold dependencias_de at 1. simpl. by rewrite filter_map_arista.
Qed.

Lemma herramientas_sin_dependencias_desconocidas (p : plan) :
  herramientas_plan (sin_dependencias_desconocidas p) = herramientas_plan p.
Proof.
  unfold herramientas_plan, sin_dependencias_desconocidas, tareas_de at 1. simpl.
  generalize (ids p) as K. intros K.
  induction (tareas_de p) as [|t ts IH]; [done|]. simpl. by rewrite IH.
Qed.

Lemma tareas_sin_dependencias_desconocidas (p : plan) :
  length (tareas_de (sin_dependencias_desconocidas p)) = length (tareas_de p).
Proof.
  unfold sin_dependencias_desconocidas, tareas_de at 1. simpl. apply length_map.
Qed.

Lemma hay_ciclos_sin_dependencias_desconocidas (p : plan) :
  hay_ciclos (aristas (sin_dependencias_desconocidas p)) = hay_ciclos (aristas p).
Proof.
  rewrite aristas_sin_dependencias_desconocidas. symmetry.
  apply hay_ciclos_filtrado, aristas_destinos.
Qed.

Lemma aristas_origen (p : plan) (e : string * string) :
  In e (aristas p) → ∃ t, In t (tareas_de p) ∧ In e.1 (dependencias_de t).
Proof.
  unfold aristas. rewrite in_flat_map.
  intros (t & Ht & He). exists t. split; [done|].
  destruct (id t) as [i|]; [|done].
  destruct (cadena_verdadera (Some i)); [|done].
  by apply in_map_iff in He as (dep & <- & Hdep).
Qed.

Lemma filter_nada {A : Type} (Q : A → bool) (l : list A) :
  (∀ x, In x l → Q x = false) → List.filter Q l = [].
Proof.
  induction l as [|x l IH]; intros H; [done|]. simpl.
  rewrite (H x) by (by left). apply IH. intros y Hy. apply H. by right.
Qed.

(** The verdict of [validar_plan], rule by rule. *)
Lemma validar_plan_veredicto (p : plan) :
  (validar_plan p).1 =
  negb (length (tareas_de p) =? 0)%nat &&
  negb (hay_ciclos (aristas p)) &&
  forallb (λ h, pertenece h herramientas_disponibles) (herramientas_plan p).
Proof.
  unfold validar_plan, _cargar_reglas_validacion, aplicar_regla. simpl.
  unfold _validar_minimo_tareas, _validar_dependencias_ciclicas,
    _validar_recursos_disponibles.
  destruct (length (tareas_de p) =? 0)%nat;
    destruct (hay_ciclos (aristas p));
    destruct (forallb _ (herramientas_plan p)); reflexivity.
Qed.

(** C6, as stated, fails: the one-task plan whose task T1 depends on T9,
    an id of no task of the plan, is reported valid with no error. *)
Lemma C6_counterexample :
  dependencia_desconocida
    (MkPlan "demo" (Some [tarea_simple "T1" "busqueda_web" ["T9"]])) ∧
  validar_plan (MkPlan "demo" (Some [tarea_simple "T1" "busqueda_web" ["T9"]]))
  = (true, []).
Proof.
  split; [|reflexivity].
  exists (tarea_simple "T1" "busqueda_web" ["T9"]), "T9".
  split; [by left|]. split; [by left|].
  intros t' Ht'. simpl in Ht'. destruct Ht' as [<-|[]]. discriminate.
Qed.

(** C6, amended.  Validation enforces three rules only: the plan has a
    task, the dependency graph (unknown ids included as nodes) has no cycle,
    every named tool is one of the available ones.  A dependency id that names no task of the plan has no
    effect: the verdict and the errors are those of the plan with such ids
    dropped; and a plan with a task and available tools whose listed
    dependencies all name no task of the plan is reported valid. *)
Theorem C6_dependencias_desconocidas_no_invalidan (p : plan) :
  validar_plan (sin_dependencias_desconocidas p) = validar_plan p ∧
  ((validar_plan p).1 = true ↔
   tareas_de p ≠ [] ∧ ¬ existe_ciclo (aristas p) ∧
   ∀ h, In h (herramientas_plan p) → In h herramientas_disponibles) ∧
  (tareas_de p ≠ [] →
   (∀ h, In h (herramientas_plan p) → In h herramientas_disponibles) →
   (∀ t dep, In t (tareas_de p) → In dep (dependencias_de t) → ¬ In dep (ids p)) →
   validar_plan p = (true, [])).
Proof.
  assert (validar_plan (sin_dependencias_desconocidas p) = validar_plan p) as Hsin.
  { unfold validar_plan, _cargar_reglas_validacion, aplicar_regla. simpl.
    unfold _validar_minimo_tareas, _validar_dependencias_ciclicas,
      _validar_recursos_disponibles.
    by rewrite hay_ciclos_sin_dependencias_desconocidas,
      herramientas_sin_dependencias_desconocidas,
      tareas_sin_dependencias_desconocidas. }
  assert (∀ q : plan, (validar_plan q).1 = true ↔
            tareas_de q ≠ [] ∧ ¬ existe_ciclo (aristas q) ∧
            ∀ h, In h (herramientas_plan q) → In h herramientas_disponibles) as Hver.
  { intros q. rewrite <- hay_ciclos_correcto, not_true_iff_false.
    rewrite validar_plan_veredicto, !andb_true_iff, !negb_true_iff,
      Nat.eqb_neq, forallb_forall.
    rewrite length_zero_iff_nil.
    split.
    - intros [[H1 H2] H3]. repeat split; try done.
      intros h Hh. by apply pertenece_In, H3.
    - intros (H1 & H2 & H3). repeat split; try done.
      intros h Hh. by apply pertenece_In, H3. }
  split; [done|]. split; [apply Hver|].
  intros Hne Hherr Hdeps.
  assert (aristas (sin_dependencias_desconocidas p) = []) as Hvacio.
  { rewrite aristas_sin_dependencias_desconocidas. unfold filtrado.
    apply filter_nada. intros e He.
    apply not_true_is_false. intros Hk%pertenece_In.
    apply aristas_origen in He as (t & Ht & Hdep).
    by apply (Hdeps t e.1). }
  rewrite <- Hsin.
  unfold validar_plan, _cargar_reglas_validacion, aplicar_regla. simpl.
  unfold _validar_minimo_tareas, _validar_dependencias_ciclicas,
    _validar_recursos_disponibles.
  assert (forallb (λ h, pertenece h herramientas_disponibles) (herramientas_plan p) = true)
    as Htodas.
  { apply forallb_forall. intros h Hh. by apply pertenece_In, Hherr. }
  rewrite Hvacio, herramientas_sin_dependencias_desconocidas,
    tareas_sin_dependencias_desconocidas, Htodas.
  destruct (length (tareas_de p)) as [|n] eqn:Hlen;
    [by apply length_zero_iff_nil in Hlen|].
  reflexivity.
Qed.

(** *** The order produced by the optimisation *)

(** Every task stands after each task of the list it depends on. *)
Definition topologico (ts : list tarea) : bool :=
  forallb (λ t, match id t with
                | None => true
                | Some i =>
                  forallb (λ dep, match posicion dep ts, posicion i ts with
                                  | Some a, Some b => (a <? b)%nat
                                  | _, _ => true
                                  end) (dependencias_de t)
                end) ts.

(** A chain: A depends on B, B depends on C, C on nothing. *)
Definition plan_cadena : plan :=
  MkPlan "demo" (Some [tarea_simple "A" "busqueda_web" ["B"];
                       tarea_simple "B" "generacion_texto" ["C"];
                       tarea_simple "C" "api_rest" []]).

(** The sort keeps the tasks: its result is a permutation of the list. *)
Lemma insertar_permutacion {A : Type} (clave : A → nat) (x : A) (l : list A) :
  insertar clave x l ≡ₚ x :: l.
Proof.
  induction l as [|y l IH]; [done|]. simpl.
  destruct (clave x <=? clave y)%nat; [done|].
  rewrite IH. apply Permutation_swap.
Qed.

Lemma sorted_permutacion {A : Type} (clave : A → nat) (l : list A) :
  sorted clave l ≡ₚ l.
Proof.
  unfold sorted. induction l as [|x l IH]; [done|]. simpl.
  by rewrite insertar_permutacion, IH.
Qed.

(** What the sort does guarantee: the keys are in non-decreasing order. *)
Lemma sorted_ordenada {A : Type} (clave : A → nat) (l : list A) :
  StronglySorted (λ x y, (clave x ≤ clave y)%nat) (sorted clave l).
Proof.
  unfold sorted. induction l as [|x l IH]; simpl; [constructor|].
  revert IH. generalize (foldr (insertar clave) [] l). clear l.
  intros l Hl. induction Hl as [|y l Hl IH Hy]; simpl.
  - repeat constructor.
  - destruct (clave x <=? clave y)%nat eqn:Hxy.
    + apply Nat.leb_le in Hxy. constructor; [by constructor|].
      constructor; [done|]. eapply Forall_impl; [exact Hy|]. simpl. lia.
    + apply Nat.leb_gt in Hxy. constructor; [done|].
      clear IH Hl. induction l as [|z l IHl]; simpl.
      * constructor; [lia | constructor].
      * apply Forall_cons in Hy as [Hz Hy].
        destruct (clave x <=? clave z)%nat.
        -- constructor; [lia|]. by constructor.
        -- constructor; [done|]. by apply IHl.
Qed.

(** C7 on the chain plan: the plan is valid and acyclic, and the
    optimisation, which sorts by the number of dependencies, yields the
    order C, A, B, where A (position 1) stands before B (position 2), the
    task it depends on. *)
Theorem C7_orden_por_numero_de_dependencias :
  validar_plan plan_cadena = (true, []) ∧
  ¬ existe_ciclo (aristas plan_cadena) ∧
  ∃ p', optimizar_plan plan_cadena = Devuelve p' ∧
        map id (tareas_de p') = [Some "C"; Some "A"; Some "B"] ∧
        posicion "A" (tareas_de p') = Some 1%nat ∧
        posicion "B" (tareas_de p') = Some 2%nat ∧
        topologico (tareas_de p') = false.
Proof.
  split; [reflexivity|].
  split; [by rewrite <- hay_ciclos_correcto|].
  eexists. split; [reflexivity|]. repeat split; reflexivity.
Qed.

(** *** The optimisation in general *)

(** [len(x.get('dependencias', []))], the sort key. *)
Definition n_dependencias (t : tarea) : nat := length (dependencias_de t).

Lemma insertar_estable {A : Type} (clave : A → nat) (k : nat) (x : A) (l : list A) :
  List.filter (λ y, clave y =? k)%nat (insertar clave x l) =
  List.filter (λ y, clave y =? k)%nat (x :: l).
Proof.
  induction l as [|y l IH]; [done|].
  cbn [insertar]. destruct (clave x <=? clave y)%nat eqn:Hxy; [done|].
  apply Nat.leb_gt in Hxy.
  change (List.filter (λ y, clave y =? k)%nat (y :: insertar clave x l))
    with (if (clave y =? k)%nat
          then y :: List.filter (λ y, clave y =? k)%nat (insertar clave x l)
          else List.filter (λ y, clave y =? k)%nat (insertar clave x l)).
  rewrite IH. simpl.
  destruct (clave x =? k)%nat eqn:Hx, (clave y =? k)%nat eqn:Hy; try done.
  apply Nat.eqb_eq in Hx, Hy. lia.
Qed.

Lemma sorted_estable {A : Type} (clave : A → nat) (k : nat) (l : list A) :
  List.filter (λ y, clave y =? k)%nat (sorted clave l) =
  List.filter (λ y, clave y =? k)%nat l.
Proof.
  unfold sorted. induction l as [|x l IH]; [done|].
  cbn [foldr]. rewrite insertar_estable. simpl. by rewrite IH.
Qed.

Lemma sorted_de_ordenada {A : Type} (clave : A → nat) (l : list A) :
  StronglySorted (λ x y, (clave x ≤ clave y)%nat) l → sorted clave l = l.
Proof.
  unfold sorted. induction 1 as [|x l Hl IH Hx]; [done|].
  cbn [foldr]. rewrite IH. destruct l as [|y l]; [done|].
  apply Forall_cons in Hx as [Hxy _]. simpl.
  by apply Nat.leb_le in Hxy as ->.
Qed.

(** X12.  [optimizar_plan] raises [KeyError] on a plan without the key
    [tareas]; otherwise it keeps the objective and returns the same tasks
    (a permutation) in non-decreasing order of their number of
    dependencies, tasks with the same number keeping their relative
    order. *)
Theorem optimizar_plan_ordena_estable (o : string) (ts : list tarea) :
  optimizar_plan (MkPlan o None) = Lanza (Excepcion "KeyError" "'tareas'") ∧
  ∃ ts',
    optimizar_plan (MkPlan o (Some ts)) = Devuelve (MkPlan o (Some ts')) ∧
    ts' ≡ₚ ts ∧
    StronglySorted (λ x y, (n_dependencias x ≤ n_dependencias y)%nat) ts' ∧
    ∀ k, List.filter (λ t, n_dependencias t =? k)%nat ts' =
         List.filter (λ t, n_dependencias t =? k)%nat ts.
Proof.
  split; [reflexivity|].
  exists (sorted n_dependencias ts). split; [reflexivity|].
  split; [apply sorted_permutacion|].
  split; [apply sorted_ordenada|].
  intros k. apply sorted_estable.
Qed.

(** X13.  Optimising an already optimised plan changes nothing. *)
Theorem optimizar_plan_idempotente (p p' : plan) :
  optimizar_plan p = Devuelve p' → optimizar_plan p' = Devuelve p'.
Proof.
  unfold optimizar_plan, _optimizar_secuencia, _optimizar_recursos, _optimizar_parametros.
  destruct p as [o [ts|]]; [|discriminate]. simpl. intros [= <-]. simpl.
  rewrite (sorted_de_ordenada (λ x, length (dependencias_de x))); [done|].
  apply (sorted_ordenada (λ x : tarea, length (dependencias_de x))).
Qed.

Lemma optimizar_plan_idempotente_witness :
  optimizar_plan
    (MkPlan "demo" (Some [tarea_simple "C" "api_rest" [];
                          tarea_simple "A" "busqueda_web" ["B"];
                          tarea_simple "B" "generacion_texto" ["C"]]))
  = Devuelve
      (MkPlan "demo" (Some [tarea_simple "C" "api_rest" [];
                            tarea_simple "A" "busqueda_web" ["B"];
                            tarea_simple "B" "generacion_texto" ["C"]])).
Proof.
  apply (optimizar_plan_idempotente plan_cadena). reflexivity.
Defined.

Lemma es_camino_mismas_aristas (g g' : list (string * string)) (u : string)
    (l : list string) :
  (∀ e, In e g → In e g') → es_camino g u l → es_camino g' u l.
Proof.
  intros Hg. revert u. induction l as [|v l IH]; intros u; [done|].
  simpl. intros [He Hl]. split; [by apply Hg | by apply IH].
Qed.

Lemma hay_ciclos_permutacion (g g' : list (string * string)) :
  g ≡ₚ g' → hay_ciclos g = hay_ciclos g'.
Proof.
  intros Hp.
  assert (existe_ciclo g ↔ existe_ciclo g') as Hiff.
  { unfold existe_ciclo. split; intros (u & l & Hne & Hcam & Hlast);
      exists u, l; (split; [done|]); (split; [|done]);
      (eapply es_camino_mismas_aristas; [|exact Hcam]); intros e He.
    - by eapply Permutation_in; [exact Hp|].
    - by eapply Permutation_in; [symmetry; exact Hp|]. }
  rewrite <- !hay_ciclos_correcto in Hiff.
  destruct (hay_ciclos g), (hay_ciclos g'); try done.
  - symmetry. by apply Hiff.
  - by apply Hiff.
Qed.

Lemma forallb_permutacion {A : Type} (f : A → bool) (l l' : list A) :
  l ≡ₚ l' → forallb f l = forallb f l'.
Proof.
  induction 1 as [|x l l' _ IH|x y l|l1 l2 l3 _ IH1 _ IH2]; simpl.
  - done.
  - by rewrite IH.
  - by destruct (f x), (f y).
  - by rewrite IH1.
Qed.

(** X14.  The optimisation does not change the verdict of the
    validation: a plan is valid after [optimizar_plan] exactly when it was
    valid before, and as many rules fail. *)
Theorem validar_plan_tras_optimizar (p p' : plan) :
  optimizar_plan p = Devuelve p' →
  (validar_plan p').1 = (validar_plan p).1 ∧
  length (validar_plan p').2 = length (validar_plan p).2.
Proof.
  unfold optimizar_plan, _optimizar_secuencia, _optimizar_recursos, _optimizar_parametros.
  destruct p as [o [ts|]]; [|discriminate]. simpl. intros [= <-].
  pose proof (sorted_permutacion (λ x : tarea, length (dependencias_de x)) ts) as Hp.
  set (ts' := sorted _ ts) in *.
  assert (length ts' = length ts) as Hlen by (by rewrite Hp).
  assert (hay_ciclos (aristas (MkPlan o (Some ts'))) =
          hay_ciclos (aristas (MkPlan o (Some ts)))) as Hciclos.
  { apply hay_ciclos_permutacion. unfold aristas, tareas_de. simpl.
    by apply Permutation_flat_map. }
  assert (forallb (λ h, pertenece h herramientas_disponibles)
                  (herramientas_plan (MkPlan o (Some ts'))) =
          forallb (λ h, pertenece h herramientas_disponibles)
                  (herramientas_plan (MkPlan o (Some ts)))) as Hherr.
  { apply forallb_permutacion. unfold herramientas_plan, tareas_de. simpl.
    by apply Permutation_flat_map. }
  unfold validar_plan, _cargar_reglas_validacion, aplicar_regla. cbn [foldl funcion nombre].
  unfold _validar_minimo_tareas, _validar_dependencias_ciclicas,
    _validar_recursos_disponibles.
  change (tareas_de (MkPlan o (Some ts'))) with ts'.
  change (tareas_de (MkPlan o (Some ts))) with ts.
  by rewrite Hciclos, Hherr, Hlen.
Qed.

Lemma validar_plan_tras_optimizar_witness :
  (validar_plan
     (MkPlan "demo" (Some [tarea_simple "C" "api_rest" [];
                           tarea_simple "A" "busqueda_web" ["B"];
                           tarea_simple "B" "generacion_texto" ["C"]]))).1
  = (validar_plan plan_cadena).1 ∧
  length (validar_plan
            (MkPlan "demo" (Some [tarea_simple "C" "api_rest" [];
                                  tarea_simple "A" "busqueda_web" ["B"];
                                  tarea_simple "B" "generacion_texto" ["C"]]))).2
  = length (validar_plan plan_cadena).2.
Proof.
  apply (validar_plan_tras_optimizar plan_cadena). reflexivity.
Defined.

(** A plan in which a task with a non-empty id lists its own id
    among its dependencies is reported invalid, with an error in the
    list. *)
Theorem autodependencia_invalida (p : plan) (t : tarea) (i : string) :
  In t (tareas_de p) → id t = Some i → i ≠ "" → In i (dependencias_de t) →
  (validar_plan p).1 = false ∧ (validar_plan p).2 ≠ [].
Proof.
  intros Ht Hid Hi Hdep.
  assert (hay_ciclos (aristas p) = true) as Hciclo.
  { apply hay_ciclos_correcto. exists i, [i]. split; [done|]. split; [|done].
    split; [|done]. unfold aristas. apply in_flat_map. exists t. split; [done|].
    rewrite Hid. simpl. apply String.eqb_neq in Hi as ->. simpl.
    apply in_map_iff. eauto. }
  split.
  - rewrite validar_plan_veredicto, Hciclo. simpl. by rewrite andb_false_r.
  - unfold validar_plan, _cargar_reglas_validacion, aplicar_regla. cbn [foldl funcion nombre].
    unfold _validar_minimo_tareas, _validar_dependencias_ciclicas,
      _validar_recursos_disponibles.
    rewrite Hciclo.
    destruct (length (tareas_de p) =? 0)%nat, (forallb _ (herramientas_plan p));
      discriminate.
Qed.

Lemma autodependencia_invalida_witness :
  (validar_plan (MkPlan "demo" (Some [tarea_simple "A" "api_rest" ["A"]]))).1 = false ∧
  (validar_plan (MkPlan "demo" (Some [tarea_simple "A" "api_rest" ["A"]]))).2 ≠ [].
Proof.
  apply (autodependencia_invalida
           (MkPlan "demo" (Some [tarea_simple "A" "api_rest" ["A"]]))
           (tarea_simple "A" "api_rest" ["A"]) "A").
  - simpl. by left.
  - reflexivity.
  - discriminate.
  - simpl. by left.
Defined.

End ValidadorOptimizadorPlanes.

(** ** src/sistema/core.py : the orchestrator *)

Module NucleoSAAM.

(** The episode dictionary built by [_fase_recoleccion]. *)
Record episodio : Type := Episodio {
  ep_objetivo : string;
  ep_plan_ejecutado : plan;
  ep_resultados_tareas : list resultado_tarea;
  ep_contexto_ejecucion : gmap string valor;
  ep_metricas : gmap string Q;
  ep_session_id : string;
  ep_timestamp : string
}.

(** The dictionary [procesar_objetivo] returns. *)
Record respuesta : Type := Respuesta {
  session_id : string;
  estado : string;
  resultados : list resultado_tarea;
  episodio_id : string;
  timestamp : string
}.

(** The injected modules ([mcp], [met], [sm3]) and the clock.  The
    execution engine sees the results produced so far. *)
Record modulos : Type := Modulos {
  sm3_inicializar_sesion : string → salida unit;
  sm3_consultar_planes_similares : string → salida (list plan);
  mcp_adaptar_plan_existente : string → plan → option (gmap string valor) → salida plan;
  mcp_generar_nuevo_plan : string → option (gmap string valor) → salida plan;
  sm3_guardar_contexto : string → string → salida unit;
  met_ejecutar_tarea : list resultado_tarea → tarea → string → plan → salida resultado_tarea;
  sm3_obtener_contexto_completo : string → salida (gmap string valor);
  sm3_guardar_episodio : episodio → salida string;
  sm3_limpiar_sesion : string → salida unit;
  ahora_isoformat : string
}.

(** [core.py] calls three methods of [self] that [NucleoSAAM] does not
    define; nothing in the repository defines them or derives a class from
    [NucleoSAAM], so each call raises as the attribute is looked up. *)
Definition _generar_session_id : salida string :=
  Lanza (AttributeError "NucleoSAAM" "_generar_session_id").

Definition _calcular_metricas_episodio (resultados : list resultado_tarea)
    : salida (gmap string Q) :=
  Lanza (AttributeError "NucleoSAAM" "_calcular_metricas_episodio").

Definition _registrar_error (sid error : string) : salida unit :=
  Lanza (AttributeError "NucleoSAAM" "_registrar_error").

Section Nucleo.

Variable M : modulos.

(** [_fase_planificacion(objetivo, contexto, session_id)]. *)
Definition _fase_planificacion (objetivo : string) (contexto : option (gmap string valor))
    (sid : string) : salida plan :=
  _ ← sm3_inicializar_sesion M sid;
  planes_similares ← sm3_consultar_planes_similares M objetivo;
  p ← match planes_similares with
      | similar :: _ => mcp_adaptar_plan_existente M objetivo similar contexto
      | [] => mcp_generar_nuevo_plan M objetivo contexto
      end;
  _ ← sm3_guardar_contexto M sid "plan_actual";
  mret p.

(** [resultado.get('exito', False)] as a truth value. *)
Definition exitoso (r : resultado_tarea) : bool := default false (exito r).

(** [tarea.get('critica', False)] as a truth value. *)
Definition es_critica (t : tarea) : bool := default false (critica t).

(** The [for tarea in plan.get('tareas', [])] loop of [_fase_ejecucion];
    [hechos] is [resultados_tareas] so far. *)
Fixpoint bucle_ejecucion (p : plan) (sid : string) (pendientes : list tarea)
    (hechos : list resultado_tarea) : salida (list resultado_tarea) :=
  match pendientes with
  | [] => mret hechos
  | t :: resto =>
    r ← met_ejecutar_tarea M hechos t sid p;
    let hechos' := (hechos ++ [r])%list in
    i ← match id t with
        | Some i => mret i
        | None => Lanza (Excepcion "KeyError" "'id'")
        end;
    _ ← sm3_guardar_contexto M sid ("resultado_" ++ i);
    if negb (exitoso r) && es_critica t
    then Lanza (Excepcion "Exception" ("Tarea crítica fallida: " ++ i))
    else bucle_ejecucion p sid resto hechos'
  end.

(** [_fase_ejecucion(plan, session_id)]. *)
Definition _fase_ejecucion (p : plan) (sid : string) : salida (list resultado_tarea) :=
  bucle_ejecucion p sid (tareas_de p) [].

(** [_fase_recoleccion(objetivo, plan, resultados, session_id)]. *)
Definition _fase_recoleccion (objetivo : string) (p : plan)
    (rs : list resultado_tarea) (sid : string) : salida string :=
  contexto_completo ← sm3_obtener_contexto_completo M sid;
  metricas ← _calcular_metricas_episodio rs;
  eid ← sm3_guardar_episodio M
          (Episodio objetivo p rs contexto_completo metricas sid (ahora_isoformat M));
  _ ← sm3_limpiar_sesion M sid;
  mret eid.

(** The [try] block of [procesar_objetivo].  The learning phase is started
    with [asyncio.create_task] and not awaited; it catches its own errors
    and has no part in the value returned. *)
Definition cuerpo_procesar_objetivo (objetivo : string)
    (contexto_usuario : option (gmap string valor)) (sid : string) : salida respuesta :=
  p ← _fase_planificacion objetivo contexto_usuario sid;
  rs ← _fase_ejecucion p sid;
  eid ← _fase_recoleccion objetivo p rs sid;
  mret (Respuesta sid "completado" rs eid (ahora_isoformat M)).

(** [procesar_objetivo(objetivo, contexto_usuario, session_id)]; the
    handler is [except Exception], which lets through what is not an
    [Exception]. *)
Definition procesar_objetivo (objetivo : string)
    (contexto_usuario : option (gmap string valor)) (session_id : option string)
    : salida respuesta :=
  sid ← (if cadena_verdadera session_id
         then mret (default "" session_id)
         else _generar_session_id);
  match cuerpo_procesar_objetivo objetivo contexto_usuario sid with
  | Devuelve r => Devuelve r
  | Lanza e =>
    if es_Exception e then
      _ ← _registrar_error sid (mensaje e);
      Lanza e
    else Lanza e
  end.

End Nucleo.

(** Injected modules that never raise, for concrete runs: the planner
    answers with [p] and the execution engine with [ejecutar]. *)
Definition modulos_de (p : plan) (ejecutar : tarea → resultado_tarea) : modulos :=
  Modulos (λ _, Devuelve ()) (λ _, Devuelve []) (λ _ _ _, Devuelve p) (λ _ _, Devuelve p)
          (λ _ _, Devuelve ()) (λ _ t _ _, Devuelve (ejecutar t))
          (λ _, Devuelve ∅) (λ _, Devuelve "episodio_1") (λ _, Devuelve ())
          "2024-01-01T00:00:00".

(** A plan of one task that is not critical, and an engine that fails it. *)
Definition plan_demo : plan :=
  MkPlan "objetivo" (Some [Tarea (Some "T1") (Some "busqueda_web") (Some "busqueda_web")
                                 None None None None None]).

Definition resultado_fallido : resultado_tarea :=
  ResultadoTarea (Some false) None (Some "fallo") (Some "Exception") (Some 3%Z).

Definition resultado_exitoso : resultado_tarea :=
  ResultadoTarea (Some true) (Some (VStr "ok")) None None None.

Lemma bucle_ejecucion_devuelve (M : modulos) (p : plan) (sid : string)
    (pendientes : list tarea) (hechos rs : list resultado_tarea) :
  bucle_ejecucion M p sid pendientes hechos = Devuelve rs →
  ∃ nuevos, rs = (hechos ++ nuevos)%list ∧
    Forall2 (λ t r, es_critica t = true → exitoso r = true) pendientes nuevos.
Proof.
  revert hechos. induction pendientes as [|t resto IH]; intros hechos H; simpl in H.
  - injection H as <-. exists []. by rewrite app_nil_r.
  - destruct (met_ejecutar_tarea M hechos t sid p) as [r|e]; [|done]. simpl in H.
    destruct (id t) as [i|]; [|done]. simpl in H.
    destruct (sm3_guardar_contexto M sid _) as [[]|e]; [|done]. simpl in H.
    destruct (negb (exitoso r) && es_critica t) eqn:Hcrit; [done|].
    apply IH in H as (nuevos & -> & Hall).
    exists (r :: nuevos). split; [by rewrite <- app_assoc|].
    constructor; [|done]. intros Hc. rewrite Hc, andb_true_r in Hcrit.
    by apply negb_false_iff.
Qed.

(** The collection phase never returns: either the working memory raises
    as the context is read, or the call of the undefined
    [_calcular_metricas_episodio] does. *)
Lemma fase_recoleccion_lanza (M : modulos) (objetivo : string) (p : plan)
    (rs : list resultado_tarea) (sid : string) :
  ∃ e, _fase_recoleccion M objetivo p rs sid = Lanza e ∧
       (sm3_obtener_contexto_completo M sid = Lanza e ∨
        e = AttributeError "NucleoSAAM" "_calcular_metricas_episodio").
Proof.
  unfold _fase_recoleccion.
  destruct (sm3_obtener_contexto_completo M sid) as [ctx|e]; simpl; eauto.
Qed.

Lemma cuerpo_procesar_objetivo_lanza (M : modulos) (objetivo : string)
    (contexto_usuario : option (gmap string valor)) (sid : string) :
  ∃ e, cuerpo_procesar_objetivo M objetivo contexto_usuario sid = Lanza e.
Proof.
  unfold cuerpo_procesar_objetivo.
  destruct (_fase_planificacion M objetivo contexto_usuario sid) as [p|e]; simpl; [|eauto].
  destruct (_fase_ejecucion M p sid) as [rs|e]; simpl; [|eauto].
  destruct (fase_recoleccion_lanza M objetivo p rs sid) as (e & -> & _). simpl. eauto.
Qed.

(** C4.  The submit-goal entry point returns no state: for every
    objective, context and session id and whatever the injected modules
    answer, [procesar_objetivo] raises.  Without a session id (or with an
    empty one) the call of the undefined [_generar_session_id] raises
    AttributeError before the phases start.  With one, the collection
    phase cannot get past the call of the undefined
    [_calcular_metricas_episodio], so the body raises, and the handler,
    calling the undefined [_registrar_error], raises AttributeError in
    turn; what leaves is that AttributeError or an error the handler does
    not catch. *)
Theorem C4_procesar_objetivo_no_devuelve
    (M : modulos) (objetivo : string) (contexto_usuario : option (gmap string valor))
    (sid : option string) :
  ∃ e, procesar_objetivo M objetivo contexto_usuario sid = Lanza e ∧
       if cadena_verdadera sid
       then e = AttributeError "NucleoSAAM" "_registrar_error" ∨ es_Exception e = false
       else e = AttributeError "NucleoSAAM" "_generar_session_id".
Proof.
  unfold procesar_objetivo.
  destruct (cadena_verdadera sid); simpl; [|eauto].
  destruct (cuerpo_procesar_objetivo_lanza M objetivo contexto_usuario (default "" sid))
    as [e ->].
  destruct (es_Exception e) eqn:He; simpl; eauto.
Qed.

(** The run in which nothing goes wrong: the modules answer, the only task
    of the plan succeeds, and the entry point raises all the same, the
    body at the episode metrics and the handler at the error record. *)
Example procesar_objetivo_todo_correcto :
  let M := modulos_de plan_demo (λ _, resultado_exitoso) in
  _fase_ejecucion M plan_demo "s1" = Devuelve [resultado_exitoso] ∧
  cuerpo_procesar_objetivo M "objetivo" None "s1"
  = Lanza (AttributeError "NucleoSAAM" "_calcular_metricas_episodio") ∧
  procesar_objetivo M "objetivo" None (Some "s1")
  = Lanza (AttributeError "NucleoSAAM" "_registrar_error") ∧
  procesar_objetivo M "objetivo" None None
  = Lanza (AttributeError "NucleoSAAM" "_generar_session_id").
Proof. repeat split; reflexivity. Qed.

(** With modules that do not raise and tasks that all carry an id, the
    execution loop returns, with the results of all the tasks, exactly
    when every critical task reports success; otherwise it raises. *)
Lemma bucle_ejecucion_modulos_de (p q : plan) (ejecutar : tarea → resultado_tarea)
    (sid : string) (pendientes : list tarea) (hechos : list resultado_tarea) :
  Forall (λ t, is_Some (id t)) pendientes →
  if forallb (λ t, negb (es_critica t) || exitoso (ejecutar t)) pendientes
  then bucle_ejecucion (modulos_de q ejecutar) p sid pendientes hechos
       = Devuelve (hechos ++ map ejecutar pendientes)%list
  else ∃ e, bucle_ejecucion (modulos_de q ejecutar) p sid pendientes hechos = Lanza e.
Proof.
  revert hechos. induction pendientes as [|t resto IH]; intros hechos Hids.
  - simpl. by rewrite app_nil_r.
  - apply Forall_cons in Hids as [[i Hi] Hids]. specialize (IH (hechos ++ [ejecutar t])%list Hids).
    cbn [forallb bucle_ejecucion modulos_de met_ejecutar_tarea sm3_guardar_contexto mbind
         salida_bind mret salida_ret]. rewrite Hi.
    destruct (es_critica t), (exitoso (ejecutar t)); simpl; eauto.
    + destruct (forallb _ resto); [by rewrite IH, <- app_assoc | done].
    + destruct (forallb _ resto); [by rewrite IH, <- app_assoc | done].
    + destruct (forallb _ resto); [by rewrite IH, <- app_assoc | done].
Qed.

(** A critical task that does not report success makes the execution
    phase raise: the run of a plan whose only task is critical and fails. *)
Example fase_ejecucion_critica_fallida :
  let p := MkPlan "objetivo"
             (Some [Tarea (Some "T1") None (Some "api_rest") None None None None
                          (Some true)]) in
  _fase_ejecucion (modulos_de p (λ _, resultado_fallido)) p "s1"
  = Lanza (Excepcion "Exception" "Tarea crítica fallida: T1").
Proof. reflexivity. Qed.

(** *** The phases in general *)

Lemma bucle_ejecucion_en_orden (M : modulos) (p : plan) (sid : string)
    (pendientes : list tarea) (hechos rs : list resultado_tarea) :
  bucle_ejecucion M p sid pendientes hechos = Devuelve rs →
  ∃ nuevos, rs = (hechos ++ nuevos)%list ∧ length nuevos = length pendientes ∧
    ∀ k t, pendientes !! k = Some t →
      ∃ r i, nuevos !! k = Some r ∧ id t = Some i ∧
             met_ejecutar_tarea M (hechos ++ take k nuevos)%list t sid p = Devuelve r ∧
             sm3_guardar_contexto M sid ("resultado_" ++ i) = Devuelve ().
Proof.
  revert hechos. induction pendientes as [|t resto IH]; intros hechos H; simpl in H.
  - injection H as <-. exists []. rewrite app_nil_r. repeat split. intros k t [=].
  - destruct (met_ejecutar_tarea M hechos t sid p) as [r|e] eqn:Hmet; [|done]. simpl in H.
    destruct (id t) as [i|] eqn:Hid; [|done]. simpl in H.
    destruct (sm3_guardar_contexto M sid _) as [[]|e] eqn:Hsm3; [|done]. simpl in H.
    destruct (negb (exitoso r) && es_critica t); [done|].
    apply IH in H as (nuevos & -> & Hlen & Hk).
    exists (r :: nuevos). split; [by rewrite <- app_assoc|]. split; [simpl; lia|].
    intros [|k] t' Ht'; simpl in Ht'.
    + injection Ht' as <-. exists r, i. rewrite app_nil_r. done.
    + destruct (Hk k t' Ht') as (r' & i' & Hr' & Hi' & Hmet' & Hsm3').
      exists r', i'. split; [done|]. split; [done|]. split; [|done].
      rewrite <- Hmet'. f_equal. simpl. by rewrite <- app_assoc.
Qed.

(** X15.  When the execution phase returns, it has run every task of the
    plan once, in the order of the plan: there is one result per task, the
    result at position [k] is the answer of the execution engine for task
    [k], called after the [k] results before it were appended, every task
    has an id, and the result was saved in the working memory under
    [resultado_<id>]. *)
Theorem fase_ejecucion_en_orden (M : modulos) (p : plan) (sid : string)
    (rs : list resultado_tarea) :
  _fase_ejecucion M p sid = Devuelve rs →
  length rs = length (tareas_de p) ∧
  ∀ k t, tareas_de p !! k = Some t →
    ∃ r i, rs !! k = Some r ∧ id t = Some i ∧
           met_ejecutar_tarea M (take k rs) t sid p = Devuelve r ∧
           sm3_guardar_contexto M sid ("resultado_" ++ i) = Devuelve ().
Proof.
  unfold _fase_ejecucion. intros H.
  apply bucle_ejecucion_en_orden in H as (nuevos & -> & Hlen & Hk). done.
Qed.

Lemma fase_ejecucion_en_orden_witness :
  length [resultado_fallido] = length (tareas_de plan_demo) ∧
  ∀ k t, tareas_de plan_demo !! k = Some t →
    ∃ r i, [resultado_fallido] !! k = Some r ∧ id t = Some i ∧
           met_ejecutar_tarea (modulos_de plan_demo (λ _, resultado_fallido))
             (take k [resultado_fallido]) t "s1" plan_demo = Devuelve r ∧
           sm3_guardar_contexto (modulos_de plan_demo (λ _, resultado_fallido)) "s1"
             ("resultado_" ++ i) = Devuelve ().
Proof.
  apply (fase_ejecucion_en_orden (modulos_de plan_demo (λ _, resultado_fallido))
           plan_demo "s1" [resultado_fallido]).
  reflexivity.
Defined.

End NucleoSAAM.

(** ** src/met/ejecucion/gestion_errores.py : error classification *)

Module GestorErrores.

(** The classification dictionary; the confidence is a float. *)
Record clasificacion : Type := Clasificacion {
  tipo : string;
  categoria : string;
  recuperable : bool;
  accion_recomendada : string;
  confianza : Q
}.

(** [_cargar_patrones_error]: the dictionary in insertion order; a regular
    expression [a|b|c] of literal alternatives is the list of its
    alternatives, and [re.search] finds it where one of them occurs. *)
Definition _cargar_patrones_error : list (list string * clasificacion) :=
  [ (["connection refused"; "cannot connect"],
     Clasificacion "conexion_rechazada" "infraestructura" true
                   "reintentar_con_backoff" (Binary64.redondear (85 # 100)));
    (["timeout"; "timed out"],
     Clasificacion "timeout" "rendimiento" true "reintentar_con_backoff"
                   (Binary64.redondear (9 # 10)));
    (["rate limit"; "too many requests"],
     Clasificacion "rate_limiting" "recursos" true
                   "reintentar_con_backoff_exponencial" (Binary64.redondear (8 # 10)));
    (["authentication"; "unauthorized"; "invalid token"],
     Clasificacion "autenticacion" "seguridad" false "escalar_a_mcp"
                   (Binary64.redondear (95 # 100)));
    (["not found"; "404"; "invalid endpoint"],
     Clasificacion "recurso_no_encontrado" "configuracion" false "escalar_a_mcp"
                   (Binary64.redondear (7 # 10))) ].

Definition re_search (patron : list string) (texto : string) : bool :=
  existsb (λ alternativa, contiene alternativa texto) patron.

Definition Qmax (a b : Q) : Q := if Qle_bool a b then b else a.

(** The [for patron, info in self.patrones_error.items()] loop with its
    [break]. *)
Fixpoint clasificar_por_patron (patrones : list (list string * clasificacion))
    (mensaje_error : string) (c : clasificacion) : clasificacion :=
  match patrones with
  | [] => c
  | (patron, info) :: resto =>
    if re_search patron mensaje_error
    then Clasificacion (tipo info) (categoria info) (recuperable info)
                       (accion_recomendada info)
                       (Qmax (confianza info) (confianza info))
    else clasificar_por_patron resto mensaje_error c
  end.

(** [self._actualizar_estadisticas(clasificacion)]: [GestorErrores]
    defines no such method (the one of that name in [metricas.py] belongs
    to another class), so the call raises as the attribute is looked
    up. *)
Definition _actualizar_estadisticas (c : clasificacion) : salida unit :=
  Lanza (AttributeError "GestorErrores" "_actualizar_estadisticas").

(** [clasificar_error(error)]; [lower] is [str.lower], whose Unicode
    tables are left open. *)
Definition clasificar_error (lower : string → string) (error : excepcion)
    : salida clasificacion :=
  let mensaje_error := lower (mensaje error) in
  let tipo_error := tipo_excepcion error in
  let c0 := Clasificacion "desconocido" "no_clasificado" false "escalar_a_mcp" 0 in
  let c1 :=
    if pertenece tipo_error ["TimeoutError"; "asyncio.TimeoutError"]
    then Clasificacion "timeout" "rendimiento" true "reintentar_con_backoff"
                       (Binary64.redondear (9 # 10))
    else if pertenece tipo_error ["ConnectionError"; "NetworkError"]
    then Clasificacion "conexion" "infraestructura" true "reintentar_inmediato"
                       (Binary64.redondear (8 # 10))
    else c0 in
  let c := clasificar_por_patron _cargar_patrones_error mensaje_error c1 in
  _ ← _actualizar_estadisticas c;
  mret c.

(** A retry strategy dictionary. *)
Record estrategia : Type := Estrategia {
  delay : Z;
  max_reintentos : Z;
  backoff : string;
  base : option Z;
  factor : option Z
}.

(** [obtener_estrategia_reintento(clasificacion)]. *)
Definition obtener_estrategia_reintento (c : clasificacion) : estrategia :=
  let a := accion_recomendada c in
  if String.eqb a "reintentar_inmediato" then Estrategia 1 3 "ninguno" None None
  else if String.eqb a "reintentar_con_backoff" then Estrategia 2 5 "lineal" None (Some 2%Z)
  else if String.eqb a "reintentar_con_backoff_exponencial"
  then Estrategia 1 7 "exponencial" (Some 2%Z) None
  else Estrategia 5 3 "lineal" None None.

(** No error is ever classified: the method raises before it returns. *)
Lemma clasificar_error_lanza (lower : string → string) (error : excepcion) :
  clasificar_error lower error
  = Lanza (AttributeError "GestorErrores" "_actualizar_estadisticas").
Proof. reflexivity. Qed.

End GestorErrores.

(** ** src/met/ejecucion/mecanismo_reintentos.py : retries with backoff *)

Module MecanismoReintentos.

Import GestorErrores.

(** [_fibonacci(n)]: [n] rounds of [a, b = b, a + b] from [0, 1]. *)
Fixpoint fib_bucle (n : nat) (a b : Z) : Z :=
  match n with
  | O => a
  | S n' => fib_bucle n' b (a + b)%Z
  end.

Definition _fibonacci (n : nat) : Z := fib_bucle n 0 1.

(** [_calcular_delay(reintento_actual, estrategia)]. *)
Definition _calcular_delay (reintento_actual : nat) (e : estrategia) : Z :=
  if String.eqb (backoff e) "ninguno" then delay e
  else if String.eqb (backoff e) "lineal" then (delay e * Z.of_nat reintento_actual)%Z
  else if String.eqb (backoff e) "exponencial"
  then (delay e * default 2 (base e) ^ Z.of_nat reintento_actual)%Z
  else if String.eqb (backoff e) "fibonacci"
  then (delay e * _fibonacci reintento_actual)%Z
  else delay e.

(** [_estrategia_default]. *)
Definition _estrategia_default : estrategia :=
  Estrategia 2 3 "exponencial" (Some 2%Z) None.

(** What a run observes besides its result: how many times [funcion] was
    called, the [asyncio.sleep] delays in order, and the value of the local
    counter [reintento_actual] when the run ended. *)
Record traza : Type := Traza {
  llamadas : nat;
  esperas : list Z;
  reintento_final : nat
}.

(** [_manejar_fallo]: the new counter and the delay slept, if any. *)
Definition _manejar_fallo (reintento_actual : nat) (e : estrategia) : nat * option Z :=
  let r := S reintento_actual in
  if (Z.of_nat r >=? max_reintentos e)%Z then (r, None)
  else (r, Some (_calcular_delay r e)).

(** [_manejar_excepcion]: raises the error when the retries are used up. *)
Definition _manejar_excepcion (reintento_actual : nat) (e : estrategia)
    (error : excepcion) : salida (nat * Z) :=
  let r := S reintento_actual in
  if (Z.of_nat r >=? max_reintentos e)%Z then Lanza error
  else Devuelve (r, _calcular_delay r e).

Definition texto_de_nat (n : nat) : string := pretty n.

(** The [while reintento_actual < estrategia['max_reintentos']] loop.
    Every round that does not leave the loop adds one to the counter, so
    the rounds left are [restantes = max_reintentos - reintento_actual].
    [funcion n] is the outcome of the call of [funcion] made after [n]
    earlier calls. *)
Fixpoint bucle (restantes : nat) (e : estrategia)
    (funcion : nat → salida resultado_tarea) (t : traza) : salida resultado_tarea * traza :=
  match restantes with
  | O =>
    (Lanza (Excepcion "Exception"
              ("Fallo después de " ++ texto_de_nat (reintento_final t) ++ " reintentos")),
     t)
  | S restantes' =>
    match funcion (llamadas t) with
    | Devuelve resultado =>
      if default false (exito resultado)
      then (Devuelve resultado, Traza (S (llamadas t)) (esperas t) (reintento_final t))
      else
        let '(r, espera) := _manejar_fallo (reintento_final t) e in
        bucle restantes' e funcion
              (Traza (S (llamadas t))
                     (match espera with Some d => esperas t ++ [d] | None => esperas t end)
                     r)
    | Lanza error =>
      match _manejar_excepcion (reintento_final t) e error with
      | Lanza error' =>
        (Lanza error', Traza (S (llamadas t)) (esperas t) (reintento_final t))
      | Devuelve (r, d) =>
        bucle restantes' e funcion (Traza (S (llamadas t)) (esperas t ++ [d]) r)
      end
    end
  end.

(** [ejecutar_con_reintentos(funcion, estrategia=...)]. *)
Definition ejecutar_con_reintentos (funcion : nat → salida resultado_tarea)
    (estrategia_opt : option estrategia) : salida resultado_tarea * traza :=
  let e := default _estrategia_default estrategia_opt in
  bucle (Z.to_nat (max_reintentos e)) e funcion (Traza 0 [] 0).

(** A tool that raises [error] on its first [n] calls and then returns
    [v] with [exito = True]. *)
Definition falla_n_veces (n : nat) (error : excepcion) (v : valor)
    : nat → salida resultado_tarea :=
  λ k, if (k <? n)%nat then Lanza error
       else Devuelve (ResultadoTarea (Some true) (Some v) None None None).

(** C8.  A tool that raises "rate limit exceeded" twice and then
    succeeds.  The error gets no classification: [clasificar_error]
    raises AttributeError for this error as for every other, at its call
    of the undefined [_actualizar_estadisticas].  For the rate-limit entry
    of the pattern table, had it been returned, the strategy has delay
    1 s (not 2 s) and exponent base 2, which gives 2 s before the first
    retry and 4 s before the second, with no jitter.  Run under that
    strategy, the loop sleeps 2 s and 4 s, calls the tool three times and
    returns the tool's own result unchanged: it holds neither a count of
    retries nor a classification. *)
Theorem C8_rate_limit_sin_clasificacion (lower : string → string) (v : valor) :
  let error := Excepcion "Exception" "rate limit exceeded" in
  let info := Clasificacion "rate_limiting" "recursos" true
                            "reintentar_con_backoff_exponencial" (Binary64.redondear (8 # 10)) in
  let e := obtener_estrategia_reintento info in
  (clasificar_error lower error
   = Lanza (AttributeError "GestorErrores" "_actualizar_estadisticas") ∧
   ∀ otro, ∃ ex, clasificar_error lower otro = Lanza ex) ∧
  In (["rate limit"; "too many requests"], info) _cargar_patrones_error ∧
  e = Estrategia 1 7 "exponencial" (Some 2%Z) None ∧
  (_calcular_delay 1 e = 2%Z ∧ _calcular_delay 2 e = 4%Z) ∧
  ∃ r, ejecutar_con_reintentos (falla_n_veces 2 error v) (Some e)
       = (Devuelve r, Traza 3 [2%Z; 4%Z] 2) ∧
       falla_n_veces 2 error v 2%nat = Devuelve r ∧
       reintentos r = None ∧ tipo_error r = None.
Proof.
  cbv zeta. split; [split; [reflexivity | intros otro; eexists; reflexivity]|].
  split; [simpl; tauto|]. split; [reflexivity|]. split; [split; reflexivity|].
  eexists. repeat split; reflexivity.
Qed.

(** Under the rate-limit strategy the delays double from 2 s on, for any
    number of failures the strategy tolerates (at most six). *)
Lemma rate_limit_esperas_exponenciales (n : nat) (error : excepcion) (v : valor) :
  (n ≤ 6)%nat →
  ejecutar_con_reintentos (falla_n_veces n error v)
    (Some (Estrategia 1 7 "exponencial" (Some 2%Z) None)) =
  (Devuelve (ResultadoTarea (Some true) (Some v) None None None),
   Traza (S n) (map (λ k, 2 ^ Z.of_nat k)%Z (seq 1 n)) n).
Proof.
  intros Hn. do 7 (destruct n as [|n]; [reflexivity|]). lia.
Qed.

(** This loop runs [max_reintentos] attempts in all: under the default
    strategy ([max_reintentos = 3]) a tool that fails three times and would
    succeed on the fourth call is given up after the third. *)
Example estrategia_default_tres_fallos :
  ejecutar_con_reintentos
    (falla_n_veces 3 (Excepcion "Exception" "rate limit exceeded") (VInt 1)) None =
  (Lanza (Excepcion "Exception" "rate limit exceeded"), Traza 3 [4%Z; 8%Z] 2).
Proof. reflexivity. Qed.

(** Under the default strategy (three attempts in all, delay 2 s) the same
    tool would be retried after 4 s and 8 s. *)
Example estrategia_default_dos_reintentos :
  ejecutar_con_reintentos
    (falla_n_veces 2 (Excepcion "Exception" "rate limit exceeded") (VInt 1)) None =
  (Devuelve (ResultadoTarea (Some true) (Some (VInt 1)) None None None),
   Traza 3 [4%Z; 8%Z] 2).
Proof. reflexivity. Qed.

(** *** The loop in general *)









Lemma fib_bucle_suma (n : nat) (a b : Z) :
  fib_bucle (S (S n)) a b = (fib_bucle (S n) a b + fib_bucle n a b)%Z.
Proof.
  revert a b. induction n as [|n IH]; intros a b.
  - simpl. lia.
  - change (fib_bucle (S (S (S n))) a b) with (fib_bucle (S (S n)) b (a + b)).
    rewrite IH. reflexivity.
Qed.

(** X21.  The loop of [_fibonacci] computes the Fibonacci numbers: it
    gives 0 and 1 for 0 and 1 and each later value is the sum of the two
    before it; no value is negative and the values never decrease. *)
Theorem fibonacci_recurrencia (n : nat) :
  _fibonacci 0 = 0%Z ∧ _fibonacci 1 = 1%Z ∧
  _fibonacci (S (S n)) = (_fibonacci (S n) + _fibonacci n)%Z ∧
  (0 <= _fibonacci n <= _fibonacci (S n))%Z.
Proof.
  split; [done|]. split; [done|]. split; [apply fib_bucle_suma|].
  unfold _fibonacci. induction n as [|n IH]; [simpl; lia|].
  rewrite fib_bucle_suma. lia.
Qed.

(** X22.  Under the strategy chosen for any classification, every retry
    waits at least one second and a later retry never waits less than an
    earlier one. *)
Theorem esperas_de_la_estrategia_crecen (c : clasificacion) (k k' : nat) :
  (1 ≤ k)%nat → (k ≤ k')%nat →
  let e := obtener_estrategia_reintento c in
  (1 <= _calcular_delay k e <= _calcular_delay k' e)%Z.
Proof.
  intros Hk Hkk' e. subst e. unfold obtener_estrategia_reintento.
  repeat match goal with
         | |- context [if String.eqb ?a ?b then _ else _] => destruct (String.eqb a b)
         end; unfold _calcular_delay; simpl; try lia.
  assert (2 ^ 1 <= 2 ^ Z.of_nat k)%Z by (apply Z.pow_le_mono_r; lia).
  assert (2 ^ Z.of_nat k <= 2 ^ Z.of_nat k')%Z by (apply Z.pow_le_mono_r; lia).
  destruct (2 ^ Z.of_nat k)%Z eqn:E1, (2 ^ Z.of_nat k')%Z eqn:E2; lia.
Qed.

Lemma esperas_de_la_estrategia_witness :
  (1 <= _calcular_delay 1
          (obtener_estrategia_reintento
             (Clasificacion "rate_limiting" "recursos" true
                            "reintentar_con_backoff_exponencial" (Binary64.redondear (8 # 10))))
     <= _calcular_delay 3
          (obtener_estrategia_reintento
             (Clasificacion "rate_limiting" "recursos" true
                            "reintentar_con_backoff_exponencial" (Binary64.redondear (8 # 10)))))%Z.
Proof.
  apply (esperas_de_la_estrategia_crecen
           (Clasificacion "rate_limiting" "recursos" true
                          "reintentar_con_backoff_exponencial"
                          (Binary64.redondear (8 # 10))) 1 3); lia.
Defined.

End MecanismoReintentos.

(** ** src/sistema/met.py : the task execution module *)

Module ModuloEjecucionTareas.

(** [EstadoEjecucion]. *)
Inductive EstadoEjecucion : Type :=
| PENDIENTE | EN_EJECUCION | COMPLETADA | FALLIDA | REINTENTANDO | TIMEOUT.

(** A tool: whether it is a coroutine function, and the outcome and
    duration of the call made after [n] earlier tool calls, with the given
    parameters. *)
Record herramienta : Type := Herramienta {
  es_corrutina : bool;
  llamar : nat → gmap string valor → salida valor * Q
}.

(** The collaborators and configuration of the module, the helper methods
    it calls without defining, the draws of the random generator, and the
    text [f"{timeout}"] of a number of seconds (which depends on its being
    an [int] or a [float]). *)
Record entorno : Type := Entorno {
  obtener_herramienta : string → option herramienta;
  config_timeout_default : option Q;
  config_max_reintentos : option Z;
  _generar_id_tarea : string;
  _procesar_resultado_busqueda : valor → salida resultado_tarea;
  _procesar_resultado_texto : valor → salida resultado_tarea;
  random_uniform : nat → Q;
  texto_de_segundos : Q → string
}.

(** The names bound at module level by the [import] statements and the
    class definitions of met.py (lines 1 to 18).  [random], used by
    [_manejar_error], is not among them. *)
Definition nombres_modulo : list string :=
  ["Dict"; "List"; "Any"; "Optional"; "Callable"; "asyncio"; "time"; "datetime";
   "Enum"; "ThreadPoolExecutor"; "ProcessPoolExecutor"; "logger";
   "EstadoEjecucion"; "ModuloEjecucionTareas"].

(** The execution context dictionary: its retry counter, an integer when
    present, and its other keys ([session_id], [contexto_plan], ...). *)
Record contexto_ejecucion : Type := Contexto {
  reintento_actual : option Z;
  otras_claves : gmap string valor
}.

(** The mutable state a call works on: the context dictionary the caller
    passed ([None] for the default argument), the module's registers, and
    what the world observes (tool calls made, delays slept). *)
Record estado : Type := Estado {
  contexto : option contexto_ejecucion;
  tareas_activas : gmap string EstadoEjecucion;
  tareas_completadas : nat;
  tareas_fallidas : nat;
  llamadas : nat;
  esperas : list Q
}.

Definition estado_inicial (contexto : option contexto_ejecucion) : estado :=
  Estado contexto ∅ 0 0 0 [].

Section Modulo.

(** [globales]: the names bound in the module's namespace. *)
Variable globales : list string.
Variable E : entorno.

(** [_validar_tarea(tarea)]; the message of the first error stops before
    the rendering of the set of required keys. *)
Definition _validar_tarea (t : tarea) : salida tarea :=
  match Plan.tipo t, Plan.herramienta t, parametros t with
  | Some tipo, Some _, Some params =>
    if String.eqb tipo "busqueda_web" && negb (bool_decide (is_Some (params !! "query")))
    then Lanza (Excepcion "ValueError" "Búsqueda web requiere parámetro 'query'")
    else Devuelve t
  | _, _, _ => Lanza (Excepcion "ValueError" "Tarea inválida: faltan campos requeridos")
  end.

(** [_seleccionar_herramienta(tarea)], on a validated task. *)
Definition _seleccionar_herramienta (t : tarea) : salida herramienta :=
  match Plan.herramienta t with
  | None => Lanza (Excepcion "KeyError" "'herramienta'")
  | Some nombre =>
    match obtener_herramienta E nombre with
    | Some h => Devuelve h
    | None => Lanza (Excepcion "ValueError" ("Herramienta '" ++ nombre ++ "' no disponible"))
    end
  end.

(** [TimeoutError(f"Timeout después de {timeout} segundos")]. *)
Definition error_de_timeout (timeout : Q) : excepcion :=
  Excepcion "TimeoutError"
            ("Timeout después de " ++ texto_de_segundos E timeout ++ " segundos").

(** [_ejecutar_con_timeout(herramienta, tarea, contexto)]: a coroutine is
    awaited under [asyncio.wait_for]; a plain function runs in the thread
    pool without a deadline.  [asyncio.TimeoutError] is the built-in
    [TimeoutError] (Python 3.11 and later), so the first handler replaces
    a timeout error, that of [wait_for] or one the tool raised, by a new
    one that tells the deadline; the second raises any other error
    again. *)
Definition _ejecutar_con_timeout (h : herramienta) (t : tarea) (st : estado)
    : salida valor * estado :=
  let timeout := default (default 30%Q (config_timeout_default E)) (Plan.timeout t) in
  match parametros t with
  | None => (Lanza (Excepcion "KeyError" "'parametros'"), st)
  | Some params =>
    let '(r, duracion) := llamar h (llamadas st) params in
    let st' := Estado (contexto st) (tareas_activas st) (tareas_completadas st)
                      (tareas_fallidas st) (S (llamadas st)) (esperas st) in
    if es_corrutina h && Qgtb duracion timeout
    then (Lanza (error_de_timeout timeout), st')
    else
      match r with
      | Devuelve resultado => (Devuelve resultado, st')
      | Lanza e =>
        if String.eqb (tipo_excepcion e) "TimeoutError"
        then (Lanza (error_de_timeout timeout), st')
        else (Lanza e, st')
      end
  end.

(** [_procesar_resultado(resultado, tarea)]. *)
Definition _procesar_resultado (r : valor) (t : tarea) : salida resultado_tarea :=
  match Plan.tipo t with
  | None => Lanza (Excepcion "KeyError" "'tipo'")
  | Some tipo =>
    if String.eqb tipo "busqueda_web" then _procesar_resultado_busqueda E r
    else if String.eqb tipo "generacion_texto" then _procesar_resultado_texto E r
    else Devuelve (ResultadoTarea None (Some r) None None None)
  end.

Definition con_activa (i : string) (e : EstadoEjecucion) (st : estado) : estado :=
  Estado (contexto st) (<[i := e]> (tareas_activas st)) (tareas_completadas st)
         (tareas_fallidas st) (llamadas st) (esperas st).

(** [_registrar_inicio_tarea]. *)
Definition _registrar_inicio_tarea (i : string) (st : estado) : estado :=
  con_activa i EN_EJECUCION st.

(** [_registrar_exito_tarea]. *)
Definition _registrar_exito_tarea (i : string) (st : estado) : estado :=
  match tareas_activas st !! i with
  | Some _ =>
    Estado (contexto st) (<[i := COMPLETADA]> (tareas_activas st))
           (S (tareas_completadas st)) (tareas_fallidas st) (llamadas st) (esperas st)
  | None => st
  end.

(** [_registrar_fallo_tarea]. *)
Definition _registrar_fallo_tarea (i : string) (st : estado) : estado :=
  match tareas_activas st !! i with
  | Some _ =>
    Estado (contexto st) (<[i := FALLIDA]> (tareas_activas st))
           (tareas_completadas st) (S (tareas_fallidas st)) (llamadas st) (esperas st)
  | None => st
  end.

(** The [try] block of [ejecutar_tarea]. *)
Definition intento (i : string) (t : tarea) (st : estado)
    : salida resultado_tarea * estado :=
  match _validar_tarea t with
  | Lanza e => (Lanza e, st)
  | Devuelve tv =>
    match _seleccionar_herramienta tv with
    | Lanza e => (Lanza e, st)
    | Devuelve h =>
      match _ejecutar_con_timeout h tv st with
      | (Lanza e, st1) => (Lanza e, st1)
      | (Devuelve r, st1) =>
        match _procesar_resultado r tv with
        | Lanza e => (Lanza e, st1)
        | Devuelve rp => (Devuelve rp, _registrar_exito_tarea i st1)
        end
      end
    end
  end.

(** [tarea.get('max_reintentos', self.config.get('max_reintentos', 3))]. *)
Definition max_reintentos_de (t : tarea) : Z :=
  default (default 3%Z (config_max_reintentos E)) (Plan.max_reintentos t).

(** [contexto.get('reintento_actual', 0)]: [AttributeError] when
    [contexto] is [None]. *)
Definition reintento_actual_de (st : estado) : salida Z :=
  match contexto st with
  | None =>
    Lanza (Excepcion "AttributeError" "'NoneType' object has no attribute 'get'")
  | Some ctx => Devuelve (default 0%Z (reintento_actual ctx))
  end.

(** [ejecutar_tarea] and [_manejar_error], which call each other; [fuel]
    bounds the depth of the recursion, [None] is fuel used up.  The
    handler is [except Exception]: an error of the attempt that is not an
    [Exception] leaves the call as it is. *)
Fixpoint ejecutar_tarea_rec (fuel : nat) (t : tarea) (st : estado)
    : option (salida resultado_tarea * estado) :=
  match fuel with
  | O => None
  | S fuel' =>
    let tarea_id := default (_generar_id_tarea E) (Plan.id t) in
    let st0 := _registrar_inicio_tarea tarea_id st in
    match intento tarea_id t st0 with
    | (Devuelve rp, st1) => Some (Devuelve rp, st1)
    | (Lanza error, st1) =>
      if negb (es_Exception error) then Some (Lanza error, st1) else
      (* _manejar_error(e, tarea, contexto) *)
      let max_reintentos := max_reintentos_de t in
      match reintento_actual_de st1 with
      | Lanza e => Some (Lanza e, st1)
      | Devuelve reintento_actual =>
        if (reintento_actual <? max_reintentos)%Z then
          if pertenece "random" globales then
            let espera :=
              Binary64.fsuma (2 ^ reintento_actual)%Q
                             (random_uniform E (length (esperas st1))) in
            let st2 :=
              Estado (option_map (λ ctx, Contexto (Some (reintento_actual + 1)%Z)
                                                  (otras_claves ctx))
                                 (contexto st1))
                     (tareas_activas st1) (tareas_completadas st1) (tareas_fallidas st1)
                     (llamadas st1) (esperas st1 ++ [espera]) in
            match ejecutar_tarea_rec fuel' t st2 with
            | None => None
            | Some (Lanza e, st3) => Some (Lanza e, st3)
            | Some (Devuelve resultado_error, st3) =>
              Some (Devuelve resultado_error, _registrar_fallo_tarea tarea_id st3)
            end
          else
            Some (Lanza (Excepcion "NameError" "name 'random' is not defined"), st1)
        else
          Some (Devuelve (ResultadoTarea (Some false) None (Some (mensaje error))
                                         (Some (tipo_excepcion error))
                                         (Some reintento_actual)),
                _registrar_fallo_tarea tarea_id st1)
      end
    end
  end.

(** Every retry adds one to the counter in the context, so the recursion
    is at most [max_reintentos - reintento_actual] deep. *)
Definition profundidad (t : tarea) (st : estado) : nat :=
  match reintento_actual_de st with
  | Devuelve r => S (Z.to_nat (max_reintentos_de t - r))
  | Lanza _ => 1
  end.

(** [ejecutar_tarea(tarea, contexto)]. *)
Definition ejecutar_tarea (t : tarea) (contexto : option contexto_ejecucion)
    : option (salida resultado_tarea * estado) :=
  ejecutar_tarea_rec (profundidad t (estado_inicial contexto)) t (estado_inicial contexto).

(** *** The recursion ends *)

Lemma contexto_intento (i : string) (t : tarea) (st : estado) :
  contexto (intento i t st).2 = contexto st.
Proof.
  unfold intento.
  destruct (_validar_tarea t) as [tv|e]; [|done].
  destruct (_seleccionar_herramienta tv) as [h|e]; [|done].
  unfold _ejecutar_con_timeout.
  destruct (parametros tv) as [params|]; [|done].
  destruct (llamar h (llamadas st) params) as [r d].
  destruct (es_corrutina h && Qgtb d _); [done|].
  destruct r as [v|e]; [|by destruct (String.eqb _ _)].
  destruct (_procesar_resultado v tv) as [rp|e]; [|done].
  simpl. unfold _registrar_exito_tarea. simpl. by destruct (tareas_activas st !! i).
Qed.

Lemma ejecutar_tarea_rec_total (fuel : nat) (t : tarea) (st : estado) :
  (profundidad t st ≤ fuel)%nat → is_Some (ejecutar_tarea_rec fuel t st).
Proof.
  revert st. induction fuel as [|fuel IH]; intros st Hf.
  - unfold profundidad in Hf. destruct (reintento_actual_de st); lia.
  - simpl.
    set (i := default (_generar_id_tarea E) (Plan.id t)).
    pose proof (contexto_intento i t (_registrar_inicio_tarea i st)) as Hctx.
    destruct (intento i t (_registrar_inicio_tarea i st)) as [[rp|error] st1]; [eauto|].
    simpl in Hctx.
    destruct (negb (es_Exception error)); [eauto|].
    unfold profundidad, reintento_actual_de in Hf |- *. rewrite Hctx.
    destruct (contexto st) as [ctx|]; [|eauto].
    destruct (default 0 (reintento_actual ctx) <? max_reintentos_de t)%Z eqn:Hlt; [|eauto].
    destruct (pertenece "random" globales); [|eauto].
    apply Z.ltb_lt in Hlt.
    match goal with |- context [ejecutar_tarea_rec fuel t ?s] =>
      assert (profundidad t s ≤ fuel)%nat as Hs
        by (unfold profundidad, reintento_actual_de; simpl; lia);
      destruct (IH s Hs) as [[[r|e] st3] ->]; eauto
    end.
Qed.

(** [ejecutar_tarea] always ends, with a result or an exception. *)
Lemma ejecutar_tarea_total (t : tarea) (ctx : option contexto_ejecucion) :
  is_Some (ejecutar_tarea t ctx).
Proof. by apply ejecutar_tarea_rec_total. Qed.

(** With [random] bound and a context dictionary passed, no [Exception]
    leaves [ejecutar_tarea]: the ways out of an [Exception] are the
    missing import and the [None] default of [contexto]. *)
Lemma ejecutar_tarea_rec_devuelve (fuel : nat) (t : tarea) (st st' : estado)
    (out : salida resultado_tarea) :
  pertenece "random" globales = true →
  is_Some (contexto st) →
  ejecutar_tarea_rec fuel t st = Some (out, st') →
  (∃ r, out = Devuelve r) ∨ (∃ e, out = Lanza e ∧ es_Exception e = false).
Proof.
  intros Hrandom. revert st st' out.
  induction fuel as [|fuel IH]; intros st st' out [ctx Hst] H; [done|].
  simpl in H.
  set (i := default (_generar_id_tarea E) (Plan.id t)) in H.
  pose proof (contexto_intento i t (_registrar_inicio_tarea i st)) as Hctx.
  destruct (intento i t (_registrar_inicio_tarea i st)) as [[rp|error] st1].
  { injection H as <- <-. eauto. }
  destruct (es_Exception error) eqn:Hex; simpl in H.
  2: { injection H as <- <-. eauto. }
  simpl in Hctx. unfold reintento_actual_de in H. rewrite Hctx, Hst, Hrandom in H.
  destruct (default 0 (reintento_actual ctx) <? max_reintentos_de t)%Z.
  - match type of H with context [ejecutar_tarea_rec fuel t ?s] =>
      destruct (ejecutar_tarea_rec fuel t s) as [[out2 st3]|] eqn:Hrec; [|done];
      apply IH in Hrec as [[r ->]|(e & -> & He)]; [| |simpl; eauto]
    end.
    + injection H as <- <-. eauto.
    + injection H as <- <-. eauto.
  - injection H as <- <-. eauto.
Qed.

End Modulo.

(** *** Concrete runs *)

(** A plain-function tool that raises [error] on its first [n] calls and
    returns [v] afterwards, each call taking no time. *)
Definition falla_n_veces (n : nat) (error : excepcion) (v : valor) : herramienta :=
  Herramienta false (λ k _, if (k <? n)%nat then (Lanza error, 0%Q) else (Devuelve v, 0%Q)).

(** An environment whose registry holds the one tool [h] under every
    name and whose configuration is empty; the deadlines are whole numbers
    of seconds, written as an [int] is. *)
Definition entorno_de (h : herramienta) : entorno :=
  Entorno (λ _, Some h) None None "tarea_00000000"
          (λ v, Devuelve (ResultadoTarea None (Some v) None None None))
          (λ v, Devuelve (ResultadoTarea None (Some v) None None None))
          (λ _, 0%Q) (λ q, pretty (Qfloor q)).

(** A task dictionary with an id and a retry budget only: validation
    rejects it. *)
Definition tarea_sin_campos : tarea :=
  Tarea (Some "t1") None None None None None (Some 3%Z) None.

(** A well-formed task with retry budget [n]. *)
Definition tarea_con_reintentos (n : Z) : tarea :=
  Tarea (Some "t1") (Some "api") (Some "api_rest") (Some ∅) None None (Some n) None.

Definition AttributeError_None : excepcion :=
  Excepcion "AttributeError" "'NoneType' object has no attribute 'get'".

Definition NameError_random : excepcion :=
  Excepcion "NameError" "name 'random' is not defined".

(** C1 on the code: for the task dictionary with only an id and a retry
    budget, in every environment, [ejecutar_tarea] called without a context
    (the default [None]) lets the [AttributeError] raised by
    [_manejar_error] escape, and called with an empty context dictionary
    lets the [NameError] of the unbound name [random] escape; no result
    dictionary is returned. *)
Theorem C1_excepcion_escapa_de_ejecutar_tarea (E : entorno) :
  (∃ st, ejecutar_tarea nombres_modulo E tarea_sin_campos None
         = Some (Lanza AttributeError_None, st)) ∧
  (∃ st, ejecutar_tarea nombres_modulo E tarea_sin_campos (Some (Contexto None ∅))
         = Some (Lanza NameError_random, st)).
Proof. split; eexists; reflexivity. Qed.

(** C5 on the code: a tool that raises a recoverable error once and then
    succeeds, run under a retry budget of one.  After the first failed
    call [_manejar_error] raises instead of retrying: [NameError] with a
    context dictionary, [AttributeError] without one; the tool is called
    once and no success is returned. *)
Theorem C5_primer_reintento_lanza_excepcion (v : valor) :
  let h := falla_n_veces 1 (Excepcion "Exception" "rate limit exceeded") v in
  (∃ st, ejecutar_tarea nombres_modulo (entorno_de h) (tarea_con_reintentos 1)
           (Some (Contexto None ∅)) = Some (Lanza NameError_random, st) ∧
         llamadas st = 1%nat) ∧
  (∃ st, ejecutar_tarea nombres_modulo (entorno_de h) (tarea_con_reintentos 1) None
         = Some (Lanza AttributeError_None, st) ∧
         llamadas st = 1%nat).
Proof. cbv zeta. split; eexists; split; reflexivity. Qed.

(** Were [random] bound in the module, the recursion between
    [ejecutar_tarea] and [_manejar_error] would allow all the retries: a
    tool that fails [n] times and then succeeds, under a budget of [n],
    ends with the tool's value after [n + 1] calls and [n] delays, the
    counter in the context being [n]. *)
Lemma con_random_reintenta_hasta_el_exito (m j : nat) (error : excepcion) (v : valor)
    (st : estado) (ctx : contexto_ejecucion) :
  es_Exception error = true →
  contexto st = Some ctx →
  default 0%Z (reintento_actual ctx) = Z.of_nat j →
  llamadas st = j →
  ∃ st' ctx',
    ejecutar_tarea_rec ("random" :: nombres_modulo)
      (entorno_de (falla_n_veces (j + m) error v)) (S m)
      (tarea_con_reintentos (Z.of_nat (j + m))) st
    = Some (Devuelve (ResultadoTarea None (Some v) None None None), st') ∧
    contexto st' = Some ctx' ∧
    default 0%Z (reintento_actual ctx') = Z.of_nat (j + m) ∧
    llamadas st' = S (j + m) ∧
    length (esperas st') = (length (esperas st) + m)%nat.
Proof.
  intros Hex. revert j st ctx. induction m as [|m IH]; intros j st ctx Hctx Hr Hll.
  - rewrite Nat.add_0_r. simpl.
    unfold intento, _ejecutar_con_timeout. simpl. rewrite Hll, Nat.ltb_irrefl. simpl.
    eexists _, ctx. split; [reflexivity|].
    unfold _registrar_exito_tarea. simpl. rewrite lookup_insert_eq. simpl.
    repeat split; try done.
  - remember (S m) as fuel eqn:Hfuel. cbn [ejecutar_tarea_rec].
    unfold intento, _ejecutar_con_timeout. simpl. rewrite Hll.
    assert ((j <? j + fuel)%nat = true) as -> by (apply Nat.ltb_lt; lia). simpl.
    assert ((Z.of_nat j <? Z.of_nat (j + fuel))%Z = true) as Hlt by (apply Z.ltb_lt; lia).
    destruct (String.eqb (tipo_excepcion error) "TimeoutError"); simpl; rewrite ?Hex; simpl;
      unfold reintento_actual_de; simpl; rewrite Hctx, Hr;
      unfold max_reintentos_de; simpl; rewrite Hlt; subst fuel;
      (match goal with |- context [ejecutar_tarea_rec _ _ (S m) _ ?s] =>
         destruct (IH (S j) s (Contexto (Some (Z.of_nat j + 1)%Z) (otras_claves ctx)))
           as (st' & ctx' & Hrec & Hctx' & Hr' & Hll' & Hesp); [done|simpl; lia|done|]
       end);
      replace (S j + m)%nat with (j + S m)%nat in * by lia;
      rewrite Hrec;
      (eexists _, ctx'; split; [reflexivity|]);
      unfold _registrar_fallo_tarea;
      destruct (tareas_activas st' !! "t1"); simpl; repeat split; try done;
      rewrite Hesp; simpl; rewrite length_app; simpl; lia.
Qed.

(** *** What a call does to the tool and to the registers *)





(** The same run, computed: the tool's own text is lost, and the result
    tells the deadline of 30 seconds. *)
Example timeout_de_la_herramienta :
  ∃ st,
    ejecutar_tarea nombres_modulo
      (entorno_de (falla_n_veces 1 (Excepcion "TimeoutError" "timed out") (VInt 1)))
      (tarea_con_reintentos 2) (Some (Contexto (Some 2%Z) ∅))
    = Some (Devuelve (ResultadoTarea (Some false) None
                                     (Some "Timeout después de 30 segundos")
                                     (Some "TimeoutError") (Some 2%Z)), st).
Proof. eexists. vm_compute. reflexivity. Qed.

(** An error that is not an [Exception] leaves the call at once, with or
    without a retry budget. *)
Example cancelacion_escapa :
  ∃ st,
    ejecutar_tarea nombres_modulo
      (entorno_de (falla_n_veces 1 (Excepcion "CancelledError" "") (VInt 1)))
      (tarea_con_reintentos 2) (Some (Contexto None ∅))
    = Some (Lanza (Excepcion "CancelledError" ""), st) ∧ llamadas st = 1%nat.
Proof. eexists. split; reflexivity. Qed.

End ModuloEjecucionTareas.

(** ** src/met/ejecucion/motor_ejecucion.py : the retry loop of the
       execution motor *)

Module MotorEjecucion.

(** The argument of [_es_error_recuperable] and [_manejar_reintento]: the
    error text of a failed result, or a caught exception. *)
Inductive error_arg : Type :=
| ErrorTexto (s : string)
| ErrorExcepcion (e : excepcion).

(** What a run observes: the tool calls made, the calls of
    [_manejar_reintento] in order, and the local counter
    [reintento_actual] at the end. *)
Record traza : Type := Traza {
  llamadas : nat;
  avisos : list nat;
  reintento_final : nat
}.

Section Motor.

(** The two methods [_ejecutar_con_reintentos] calls and the file does
    not define. *)
Variable _es_error_recuperable : error_arg → salida bool.
Variable _manejar_reintento : nat → error_arg → salida unit.

(** The tool: whether it is a coroutine function, and the outcome and
    duration of the call made after [n] earlier calls. *)
Variable es_corrutina : bool.
Variable herramienta : nat → salida valor * Q.

(** [self.config.get('timeout_default', 30)] and
    [self.config.get('max_reintentos', 3)]. *)
Variable config_timeout_default : option Q.
Variable config_max_reintentos : option Z.

(** [_ejecutar_simple(herramienta, tarea, contexto)]: every exception
    becomes a failed result.  The message of a timeout stops before the
    number of seconds. *)
Definition _ejecutar_simple (t : tarea) (n : nat) : resultado_tarea :=
  let timeout := default (default 30%Q config_timeout_default) (Plan.timeout t) in
  match parametros t with
  | None => ResultadoTarea (Some false) None (Some "'parametros'") None None
  | Some _ =>
    let '(r, duracion) := herramienta n in
    if es_corrutina && Qgtb duracion timeout
    then ResultadoTarea (Some false) None (Some "Timeout") None None
    else match r with
         | Devuelve v => ResultadoTarea (Some true) (Some v) None None None
         | Lanza e => ResultadoTarea (Some false) None (Some (mensaje e)) None None
         end
  end.

Definition fallo_final (r : nat) : excepcion :=
  Excepcion "Exception" ("Fallo después de " ++ pretty r ++ " intentos").

(** The [while reintento_actual <= max_reintentos] loop.  Each round that
    stays in the loop adds at least one to the counter; [fuel] bounds the
    rounds and [None] is fuel used up. *)
Fixpoint bucle (fuel : nat) (max_reintentos : Z) (t : tarea) (tr : traza)
    : option (salida resultado_tarea * traza) :=
  match fuel with
  | O => None
  | S fuel' =>
    let r := reintento_final tr in
    if (Z.of_nat r <=? max_reintentos)%Z then
      let resultado := _ejecutar_simple t (llamadas tr) in
      let tr1 := Traza (S (llamadas tr)) (avisos tr) r in
      (* the [except Exception as e] branch, entered with counter [r0] *)
      let manejador (e : excepcion) (r0 : nat) (tr0 : traza) :=
        let r1 := S r0 in
        let tr2 := Traza (llamadas tr0) (avisos tr0) r1 in
        if (max_reintentos <? Z.of_nat r1)%Z then Some (Lanza e, tr2)
        else match _es_error_recuperable (ErrorExcepcion e) with
             | Lanza e' => Some (Lanza e', tr2)
             | Devuelve false => Some (Lanza e, tr2)
             | Devuelve true =>
               match _manejar_reintento r1 (ErrorExcepcion e) with
               | Lanza e' => Some (Lanza e', tr2)
               | Devuelve _ =>
                 bucle fuel' max_reintentos t
                       (Traza (llamadas tr0) (avisos tr0 ++ [r1]) r1)
               end
             end in
      if default false (exito resultado) then Some (Devuelve resultado, tr1)
      else
        let texto := ErrorTexto (default "" (error resultado)) in
        match _es_error_recuperable texto with
        | Lanza e => manejador e r tr1
        | Devuelve false => Some (Lanza (fallo_final r), tr1)
        | Devuelve true =>
          let r1 := S r in
          match _manejar_reintento r1 texto with
          | Lanza e => manejador e r1 (Traza (S (llamadas tr)) (avisos tr) r1)
          | Devuelve _ =>
            bucle fuel' max_reintentos t (Traza (S (llamadas tr)) (avisos tr ++ [r1]) r1)
          end
        end
    else Some (Lanza (fallo_final r), tr)
  end.

(** [_ejecutar_con_reintentos(herramienta, tarea, contexto)]. *)
Definition _ejecutar_con_reintentos (t : tarea) : option (salida resultado_tarea * traza) :=
  let max_reintentos := default (default 3%Z config_max_reintentos) (Plan.max_reintentos t) in
  bucle (S (S (Z.to_nat max_reintentos))) max_reintentos t (Traza 0 [] 0).

End Motor.

(** The loop itself allows all the retries.  Given helper methods that
    answer, every error being recoverable and [_manejar_reintento]
    returning: when the tool (a plain function) raises on its first [n]
    calls and then returns [v], a task with a retry budget of [n] ends
    with the successful result after [n + 1] calls, the counter being
    [n]. *)
Lemma bucle_reintenta_hasta_el_exito (n m : nat) (error : excepcion) (v : valor)
    (params : gmap string valor) (tr : traza) :
  let t := Tarea (Some "t1") (Some "api") (Some "api_rest") (Some params) None None
                 (Some (Z.of_nat n)) None in
  let h := λ k : nat, if (k <? n)%nat then (Lanza error, 0%Q) else (Devuelve v, 0%Q) in
  (reintento_final tr ≤ n ≤ reintento_final tr + m)%nat →
  llamadas tr = reintento_final tr →
  ∃ tr',
    bucle (λ _, Devuelve true) (λ _ _, Devuelve ()) false h None (S m) (Z.of_nat n) t tr
    = Some (Devuelve (ResultadoTarea (Some true) (Some v) None None None), tr') ∧
    llamadas tr' = S n ∧ reintento_final tr' = n.
Proof.
  intros t h. revert tr. induction m as [|m IH]; intros tr Hn Hll.
  - simpl. assert ((Z.of_nat (reintento_final tr) <=? Z.of_nat n)%Z = true) as ->
      by (apply Z.leb_le; lia).
    unfold _ejecutar_simple, h. simpl. rewrite Hll.
    assert ((reintento_final tr <? n)%nat = false) as -> by (apply Nat.ltb_ge; lia).
    simpl. eexists. split; [reflexivity|]. simpl. lia.
  - remember (S m) as fuel eqn:Hfuel. cbn [bucle].
    assert ((Z.of_nat (reintento_final tr) <=? Z.of_nat n)%Z = true) as ->
      by (apply Z.leb_le; lia).
    unfold _ejecutar_simple, h. simpl. rewrite Hll.
    destruct (reintento_final tr <? n)%nat eqn:Hlt.
    + apply Nat.ltb_lt in Hlt. simpl. subst fuel.
      match goal with |- context [bucle _ _ _ _ _ (S m) _ _ ?s] =>
        destruct (IH s) as (tr' & Hrec & H1 & H2); [simpl; lia|simpl; lia|]
      end.
      fold h t. rewrite Hrec. eauto.
    + apply Nat.ltb_ge in Hlt. simpl. eexists. split; [reflexivity|]. simpl. lia.
Qed.

(** The same, for the whole [_ejecutar_con_reintentos]. *)
Lemma _ejecutar_con_reintentos_hasta_el_exito (n : nat) (error : excepcion) (v : valor) :
  ∃ tr',
    _ejecutar_con_reintentos (λ _, Devuelve true) (λ _ _, Devuelve ()) false
      (λ k : nat, if (k <? n)%nat then (Lanza error, 0%Q) else (Devuelve v, 0%Q))
      None None
      (Tarea (Some "t1") (Some "api") (Some "api_rest") (Some ∅) None None
             (Some (Z.of_nat n)) None)
    = Some (Devuelve (ResultadoTarea (Some true) (Some v) None None None), tr') ∧
    llamadas tr' = S n ∧ reintento_final tr' = n.
Proof.
  unfold _ejecutar_con_reintentos.
  change (default (default 3%Z None)
            (Plan.max_reintentos
               (Tarea (Some "t1") (Some "api") (Some "api_rest") (Some ∅) None None
                      (Some (Z.of_nat n)) None)))
    with (Z.of_nat n).
  rewrite Nat2Z.id.
  apply (bucle_reintenta_hasta_el_exito n (S n) error v ∅ (Traza 0 [] 0)); simpl; lia.
Qed.

(** *** The loop in general *)

Section MotorEnGeneral.

Variable _es_error_recuperable : error_arg → salida bool.
Variable _manejar_reintento : nat → error_arg → salida unit.
Variable es_corrutina : bool.
Variable herramienta : nat → salida valor * Q.
Variable config_timeout_default : option Q.
Variable config_max_reintentos : option Z.

Local Abbreviation simple :=
  (_ejecutar_simple es_corrutina herramienta config_timeout_default).
Local Abbreviation bucle' :=
  (bucle _es_error_recuperable _manejar_reintento es_corrutina herramienta
         config_timeout_default).

(** What a finished run guarantees, from the trace [tr] it started with. *)
Definition acotado (max_reintentos : Z) (t : tarea) (tr : traza)
    (fin : salida resultado_tarea * traza) : Prop :=
  (llamadas fin.2 = llamadas tr ∨ (Z.of_nat (llamadas fin.2) <= max_reintentos + 1)%Z) ∧
  ∀ r, fin.1 = Devuelve r →
       exito r = Some true ∧ r = simple t (pred (llamadas fin.2)).

Lemma bucle_termina (fuel : nat) (max_reintentos : Z) (t : tarea) (tr : traza) :
  (0 < fuel)%nat →
  (max_reintentos + 1 < Z.of_nat (reintento_final tr) + Z.of_nat fuel)%Z →
  (llamadas tr ≤ reintento_final tr)%nat →
  ∃ fin, bucle' fuel max_reintentos t tr = Some fin ∧ acotado max_reintentos t tr fin.
Proof.
  revert tr. induction fuel as [|fuel IH]; intros tr Hpos Hfuel Hll; [lia|].
  cbn [bucle].
  destruct (Z.leb_spec (Z.of_nat (reintento_final tr)) max_reintentos) as [Hle|Hgt];
    [|eexists; split; [reflexivity|]; split; [by left | intros r [=]]].
  assert (Hrec : ∀ av r1, (reintento_final tr < r1)%nat →
            ∃ fin, bucle' fuel max_reintentos t (Traza (S (llamadas tr)) av r1) = Some fin ∧
                   acotado max_reintentos t tr fin).
  { intros av r1 Hr1.
    destruct (IH (Traza (S (llamadas tr)) av r1)) as (fin & Hfin & [Hc Hr]);
      [lia | simpl; lia | simpl; lia |].
    exists fin. split; [done|]. split; [|done].
    right. destruct Hc as [Hc|Hc]; [|done]. simpl in Hc. lia. }
  assert (Hlanza : ∀ (e : excepcion) av r1,
            acotado max_reintentos t tr (Lanza e, Traza (S (llamadas tr)) av r1)).
  { intros e av r1. split; [right; simpl; lia | intros r [=]]. }
  cbv zeta. cbn [llamadas avisos reintento_final].
  destruct (default false (exito (simple t (llamadas tr)))) eqn:Hex.
  { eexists. split; [reflexivity|]. split; [right; simpl; lia|].
    intros r [= <-]. split; [|done].
    destruct (exito (simple t (llamadas tr))) as [[]|]; simpl in Hex; congruence. }
  destruct (_es_error_recuperable (ErrorTexto _)) as [[]|e].
  - destruct (_manejar_reintento _ (ErrorTexto _)) as [[]|e].
    + apply Hrec. lia.
    + destruct (_ <? _)%Z; [eauto|].
      destruct (_es_error_recuperable (ErrorExcepcion e)) as [[]|e']; [|eauto..].
      destruct (_manejar_reintento _ (ErrorExcepcion e)) as [[]|e']; [|eauto].
      apply Hrec. lia.
  - eauto.
  - destruct (_ <? _)%Z; [eauto|].
    destruct (_es_error_recuperable (ErrorExcepcion e)) as [[]|e']; [|eauto..].
    destruct (_manejar_reintento _ (ErrorExcepcion e)) as [[]|e']; [|eauto].
    apply Hrec. lia.
Qed.

(** X25.  Whatever the tool and the two helper methods do, the loop of
    [_ejecutar_con_reintentos] ends; it calls the tool at most
    [max_reintentos + 1] times, and a result it returns has [exito] true and
    is the result of the last call. *)
Theorem ejecutar_con_reintentos_termina (t : tarea) :
  let max_reintentos :=
    default (default 3%Z config_max_reintentos) (Plan.max_reintentos t) in
  ∃ res tr,
    _ejecutar_con_reintentos _es_error_recuperable _manejar_reintento es_corrutina
      herramienta config_timeout_default config_max_reintentos t = Some (res, tr) ∧
    (Z.of_nat (llamadas tr) <= Z.max 0 (max_reintentos + 1))%Z ∧
    ∀ r, res = Devuelve r →
         exito r = Some true ∧ r = simple t (pred (llamadas tr)).
Proof.
  intros max_reintentos. unfold _ejecutar_con_reintentos. fold max_reintentos.
  destruct (bucle_termina (S (S (Z.to_nat max_reintentos))) max_reintentos t (Traza 0 [] 0))
    as ([res tr] & Hfin & [Hc Hr]); [lia | simpl; lia | simpl; lia |].
  exists res, tr. split; [done|]. split; [|done].
  simpl in Hc. lia.
Qed.

End MotorEnGeneral.

(** *** The class as it is written *)

(** [MotorEjecucion] defines neither [_es_error_recuperable] nor
    [_manejar_reintento], and no class of the repository derives from it:
    each call raises as the attribute is looked up. *)
Definition _es_error_recuperable (a : error_arg) : salida bool :=
  Lanza (AttributeError "MotorEjecucion" "_es_error_recuperable").

Definition _manejar_reintento (reintento : nat) (a : error_arg) : salida unit :=
  Lanza (AttributeError "MotorEjecucion" "_manejar_reintento").

(** X26.  The loop of [_ejecutar_con_reintentos], in the class as it is
    written and with a retry budget that is not negative, never retries.
    For a tool whose first call raises nothing but an [Exception]: when
    that call succeeds its result is returned; when it fails, by a
    timeout or by an error of the tool, the question whether the error is
    recoverable raises AttributeError, which leaves the loop after that
    one call, the counter being 1; the tool's own error is not passed
    on. *)
Theorem motor_escrito_no_reintenta
    (es_corrutina : bool) (herramienta : nat → salida valor * Q)
    (config_timeout_default : option Q) (config_max_reintentos : option Z) (t : tarea) :
  let max_reintentos :=
    default (default 3%Z config_max_reintentos) (Plan.max_reintentos t) in
  let primero := _ejecutar_simple es_corrutina herramienta config_timeout_default t 0 in
  (0 <= max_reintentos)%Z →
  (∀ e, (herramienta 0%nat).1 = Lanza e → es_Exception e = true) →
  _ejecutar_con_reintentos _es_error_recuperable _manejar_reintento es_corrutina
    herramienta config_timeout_default config_max_reintentos t
  = if default false (exito primero)
    then Some (Devuelve primero, Traza 1 [] 0)
    else Some (Lanza (AttributeError "MotorEjecucion" "_es_error_recuperable"),
               Traza 1 [] 1).
Proof.
  intros max_reintentos primero Hmax _. unfold _ejecutar_con_reintentos.
  fold max_reintentos.
  cbn [bucle llamadas avisos reintento_final].
  destruct (Z.leb_spec (Z.of_nat 0) max_reintentos) as [_|Hlt]; [|simpl in Hlt; lia].
  cbv zeta. fold primero.
  destruct (default false (exito primero)); [done|].
  unfold _es_error_recuperable at 1. cbn [llamadas avisos reintento_final].
  by destruct (max_reintentos <? Z.of_nat 1)%Z.
Qed.

Lemma motor_escrito_witness :
  _ejecutar_con_reintentos _es_error_recuperable _manejar_reintento false
    (λ _, (Lanza (Excepcion "ConnectionError" "connection refused"), 0%Q)) None None
    (Tarea (Some "t1") (Some "api") (Some "api_rest") (Some ∅) None None None None)
  = Some (Lanza (AttributeError "MotorEjecucion" "_es_error_recuperable"), Traza 1 [] 1).
Proof.
  apply (motor_escrito_no_reintenta false
           (λ _, (Lanza (Excepcion "ConnectionError" "connection refused"), 0%Q)) None None
           (Tarea (Some "t1") (Some "api") (Some "api_rest") (Some ∅) None None None None)).
  - simpl. lia.
  - intros e [= <-]. reflexivity.
Defined.

End MotorEjecucion.

(** ** [hashlib.sha256]: SHA-256 on byte strings (FIPS 180-4) *)

Module Sha256.

Local Open Scope Z_scope.

(** A 32-bit word is a [Z] in [0, 2^32); sums wrap around. *)
Definition w32 (x : Z) : Z := x mod 4294967296.

Definition rotr (n x : Z) : Z :=
  Z.lor (Z.shiftr x n) (w32 (Z.shiftl x (32 - n))).

Definition Ch (x y z : Z) : Z := Z.lxor (Z.land x y) (Z.land (Z.lxor x 4294967295) z).
Definition Maj (x y z : Z) : Z :=
  Z.lxor (Z.lxor (Z.land x y) (Z.land x z)) (Z.land y z).
Definition Sigma0 (x : Z) : Z := Z.lxor (Z.lxor (rotr 2 x) (rotr 13 x)) (rotr 22 x).
Definition Sigma1 (x : Z) : Z := Z.lxor (Z.lxor (rotr 6 x) (rotr 11 x)) (rotr 25 x).
Definition sigma0 (x : Z) : Z := Z.lxor (Z.lxor (rotr 7 x) (rotr 18 x)) (Z.shiftr x 3).
Definition sigma1 (x : Z) : Z := Z.lxor (Z.lxor (rotr 17 x) (rotr 19 x)) (Z.shiftr x 10).

Definition K : list Z :=
  [1116352408; 1899447441; 3049323471; 3921009573; 961987163; 1508970993;
   2453635748; 2870763221; 3624381080; 310598401; 607225278; 1426881987;
   1925078388; 2162078206; 2614888103; 3248222580; 3835390401; 4022224774;
   264347078; 604807628; 770255983; 1249150122; 1555081692; 1996064986;
   2554220882; 2821834349; 2952996808; 3210313671; 3336571891; 3584528711;
   113926993; 338241895; 666307205; 773529912; 1294757372; 1396182291;
   1695183700; 1986661051; 2177026350; 2456956037; 2730485921; 2820302411;
   3259730800; 3345764771; 3516065817; 3600352804; 4094571909; 275423344;
   430227734; 506948616; 659060556; 883997877; 958139571; 1322822218;
   1537002063; 1747873779; 1955562222; 2024104815; 2227730452; 2361852424;
   2428436474; 2756734187; 3204031479; 3329325298].

(** The eight working variables, also the hash value between blocks. *)
Record registros : Type := Registros {
  ra : Z; rb : Z; rc : Z; rd : Z; re : Z; rf : Z; rg : Z; rh : Z
}.

Definition H0 : registros :=
  Registros 1779033703 3144134277 1013904242 2773480762
            1359893119 2600822924 528734635 1541459225.

(** The message with its padding: a 1 bit, zeros, and the bit length as a
    64-bit big-endian number, up to a multiple of 64 bytes. *)
Definition bytes_de_longitud (bits : Z) : list Z :=
  map (λ i, (Z.shiftr bits (8 * (7 - Z.of_nat i))) mod 256) (seq 0 8).

Definition relleno (mensaje : list Z) : list Z :=
  let l := Z.of_nat (length mensaje) in
  let ceros := Z.to_nat ((55 - l) mod 64) in
  (mensaje ++ [128] ++ repeat 0 ceros ++ bytes_de_longitud (8 * l))%list.

(** Big-endian words of a byte list. *)
Fixpoint palabras (bs : list Z) : list Z :=
  match bs with
  | b0 :: b1 :: b2 :: b3 :: resto =>
    (b0 * 16777216 + b1 * 65536 + b2 * 256 + b3) :: palabras resto
  | _ => []
  end.

(** Blocks of sixteen words. *)
Fixpoint bloques (fuel : nat) (ws : list Z) : list (list Z) :=
  match fuel with
  | O => []
  | S fuel' =>
    match ws with
    | [] => []
    | _ => firstn 16 ws :: bloques fuel' (skipn 16 ws)
    end
  end.

(** The message schedule: [n] more words after those of [w]. *)
Fixpoint extender (n : nat) (w : list Z) : list Z :=
  match n with
  | O => w
  | S n' =>
    let t := length w in
    let x := w32 (sigma1 (nth (t - 2) w 0) + nth (t - 7) w 0
                  + sigma0 (nth (t - 15) w 0) + nth (t - 16) w 0) in
    extender n' (w ++ [x])%list
  end.

(** One round, with round constant [k] and schedule word [w]. *)
Definition ronda (r : registros) (kw : Z * Z) : registros :=
  let t1 := w32 (rh r + Sigma1 (re r) + Ch (re r) (rf r) (rg r) + kw.1 + kw.2) in
  let t2 := w32 (Sigma0 (ra r) + Maj (ra r) (rb r) (rc r)) in
  Registros (w32 (t1 + t2)) (ra r) (rb r) (rc r) (w32 (rd r + t1)) (re r) (rf r) (rg r).

(** The compression of one block into the hash value. *)
Definition comprimir (h : registros) (bloque : list Z) : registros :=
  let w := extender 48 bloque in
  let r := foldl ronda h (combine K w) in
  Registros (w32 (ra h + ra r)) (w32 (rb h + rb r)) (w32 (rc h + rc r))
            (w32 (rd h + rd r)) (w32 (re h + re r)) (w32 (rf h + rf r))
            (w32 (rg h + rg r)) (w32 (rh h + rh r)).

Definition sha256 (mensaje : list Z) : registros :=
  let ws := palabras (relleno mensaje) in
  foldl comprimir H0 (bloques (length ws) ws).

Definition digito_hex (n : Z) : ascii :=
  if n <? 10 then ascii_of_N (Z.to_N (48 + n)) else ascii_of_N (Z.to_N (87 + n)).

Definition hex8 (x : Z) (resto : string) : string :=
  String (digito_hex (Z.shiftr x 28 mod 16))
  (String (digito_hex (Z.shiftr x 24 mod 16))
  (String (digito_hex (Z.shiftr x 20 mod 16))
  (String (digito_hex (Z.shiftr x 16 mod 16))
  (String (digito_hex (Z.shiftr x 12 mod 16))
  (String (digito_hex (Z.shiftr x 8 mod 16))
  (String (digito_hex (Z.shiftr x 4 mod 16))
  (String (digito_hex (x mod 16)) resto))))))).

(** The bytes of a string ([str.encode()], the string holding UTF-8). *)
Fixpoint bytes_de (s : string) : list Z :=
  match s with
  | EmptyString => []
  | String c s' => Z.of_N (N_of_ascii c) :: bytes_de s'
  end.

(** [hashlib.sha256(s.encode()).hexdigest()]. *)
Definition hexdigest (s : string) : string :=
  let r := sha256 (bytes_de s) in
  hex8 (ra r) (hex8 (rb r) (hex8 (rc r) (hex8 (rd r)
    (hex8 (re r) (hex8 (rf r) (hex8 (rg r) (hex8 (rh r) ""))))))).

(** The published test vectors: the empty message, "abc", and a message
    of more than one block. *)
Example hexdigest_vacio :
  hexdigest "" = "e3b0c44298fc1c149afbf4c8996fb92427ae41e4649b934ca495991b7852b855".
Proof. vm_compute. reflexivity. Qed.

Example hexdigest_abc :
  hexdigest "abc" = "ba7816bf8f01cfea414140de5dae2223b00361a396177a9cb410ff61f20015ad".
Proof. vm_compute. reflexivity. Qed.

Example hexdigest_dos_bloques :
  hexdigest "aaaaaaaaaaaaaaaaaaaaaaaaaaaaaaaaaaaaaaaaaaaaaaaaaaaaaaaaaaaaaaaaaaaaaa"
  = "6bd5e5034855a11241f0dee8fc72850ffd9955b28347a86428b5fa19119f6ad0".
Proof. vm_compute. reflexivity. Qed.

(** A digest has 64 characters. *)
Lemma hexdigest_longitud (s : string) : String.length (hexdigest s) = 64%nat.
Proof. reflexivity. Qed.

End Sha256.

(** ** src/memoria/episodica/gestor_episodica.py and integridad.py :
       the episodic log and its integrity validator *)

Module Episodica.

(** A naive [datetime]. *)
Record datetime : Type := Datetime {
  anio : nat; mes : nat; dia : nat;
  hora : nat; minuto : nat; segundo : nat; microsegundo : nat
}.

(** A number in decimal, padded with zeros to [ancho] digits. *)
Definition con_ceros (ancho n : nat) : string :=
  let s := pretty n in
  String.concat "" (repeat "0" (ancho - String.length s)) ++ s.

(** [str(d)]: [YYYY-MM-DD HH:MM:SS], with [.ffffff] when the microseconds
    are not zero. *)
Definition str_datetime (d : datetime) : string :=
  con_ceros 4 (anio d) ++ "-" ++ con_ceros 2 (mes d) ++ "-" ++ con_ceros 2 (dia d) ++ " " ++
  con_ceros 2 (hora d) ++ ":" ++ con_ceros 2 (minuto d) ++ ":" ++ con_ceros 2 (segundo d) ++
  (if (microsegundo d =? 0)%nat then "" else "." ++ con_ceros 6 (microsegundo d)).

(** An episode dictionary; [None] is an absent key.  The JSON-valued
    entries are kept as their text. *)
Record episodio : Type := Episodio {
  id : option string;
  objetivo : option string;
  session_id : option string;
  plan_ejecutado : option string;
  resultados_tareas : option string;
  estado_global : option string;
  duracion_total_segundos : option Q;
  contexto_ejecucion : option string;
  metricas_rendimiento : option string;
  recursos_utilizados : option string;
  timestamp_inicio : option datetime;
  timestamp_fin : option datetime;
  version_sistema : option string;
  checksum_integridad : option string;
  feedback_usuario : option string;
  evaluacion_automatica : option string
}.

(** A row of the table [episodios] ([EpisodioDB]); the two timestamps are
    [nullable=False] columns and are optional only before insertion. *)
Record EpisodioDB : Type := Fila {
  db_id : string;
  db_timestamp_creacion : datetime;
  db_objetivo : string;
  db_session_id : string;
  db_plan_ejecutado : string;
  db_resultados_tareas : string;
  db_estado_global : string;
  db_duracion_total : Q;
  db_contexto_ejecucion : string;
  db_metricas_rendimiento : string;
  db_recursos_utilizados : string;
  db_timestamp_inicio : datetime;
  db_timestamp_fin : datetime;
  db_version_sistema : string;
  db_checksum_integridad : string;
  db_feedback_usuario : option string;
  db_evaluacion_automatica : string
}.

(** [guardar_episodio(episodio)] on the table [tabla].  [id_generado] is
    the value of [_generar_id_episodio()] and [utcnow] the clock reading
    for the column default.  The commit fails on a null timestamp or a
    primary key already in the table; the exception is raised again after
    the rollback, the table unchanged. *)
Definition guardar_episodio (id_generado : string) (utcnow : datetime)
    (ep : episodio) (tabla : list EpisodioDB) : salida (string * list EpisodioDB) :=
  let ep_id := default id_generado (id ep) in
  match timestamp_inicio ep, timestamp_fin ep with
  | Some inicio, Some fin =>
    if existsb (λ f, String.eqb (db_id f) ep_id) tabla
    then Lanza (Excepcion "IntegrityError" "UNIQUE constraint failed: episodios.id")
    else
      let episodio_db :=
        Fila ep_id utcnow
             (default "" (objetivo ep))
             (default "" (session_id ep))
             (default "{}" (plan_ejecutado ep))
             (default "[]" (resultados_tareas ep))
             (default "desconocido" (estado_global ep))
             (default 0%Q (duracion_total_segundos ep))
             (default "{}" (contexto_ejecucion ep))
             (default "{}" (metricas_rendimiento ep))
             (default "{}" (recursos_utilizados ep))
             inicio fin
             (default "" (version_sistema ep))
             (default "" (checksum_integridad ep))
             (feedback_usuario ep)
             (default "{}" (evaluacion_automatica ep)) in
      Devuelve (ep_id, (tabla ++ [episodio_db])%list)
  | _, _ => Lanza (Excepcion "IntegrityError" "NOT NULL constraint failed")
  end.

(** [_db_a_dict(episodio_db)]. *)
Definition _db_a_dict (f : EpisodioDB) : episodio :=
  Episodio (Some (db_id f)) (Some (db_objetivo f)) (Some (db_session_id f))
           (Some (db_plan_ejecutado f)) (Some (db_resultados_tareas f))
           (Some (db_estado_global f)) (Some (db_duracion_total f))
           (Some (db_contexto_ejecucion f)) (Some (db_metricas_rendimiento f))
           (Some (db_recursos_utilizados f))
           (Some (db_timestamp_inicio f)) (Some (db_timestamp_fin f))
           (Some (db_version_sistema f)) (Some (db_checksum_integridad f))
           (db_feedback_usuario f) (Some (db_evaluacion_automatica f)).

(** [obtener_episodio(episodio_id)]. *)
Definition obtener_episodio (episodio_id : string) (tabla : list EpisodioDB)
    : option episodio :=
  _db_a_dict <$> List.find (λ f, String.eqb (db_id f) episodio_id) tabla.

(** The text hashed by [_calcular_checksum]: the goal, the two
    timestamps and the system version, each [''] when absent. *)
Definition contenido (ep : episodio) : string :=
  default "" (objetivo ep) ++
  default "" (str_datetime <$> timestamp_inicio ep) ++
  default "" (str_datetime <$> timestamp_fin ep) ++
  default "" (version_sistema ep).

(** [ValidadorIntegridad._calcular_checksum(episodio)]. *)
Definition _calcular_checksum (ep : episodio) : string :=
  Sha256.hexdigest (contenido ep).

(** [ValidadorIntegridad._validar_checksum(episodio)]. *)
Definition _validar_checksum (ep : episodio) : bool :=
  String.eqb (_calcular_checksum ep) (default "" (checksum_integridad ep)).

(** The digest is computed by evaluation only; proofs about arbitrary
    episodes treat it as a given function. *)
Local Opaque Sha256.hexdigest.

(** An episode as the orchestrator hands it over: no id and no checksum. *)
Definition episodio_demo : episodio :=
  Episodio None (Some "demo") (Some "s1") (Some "{}") (Some "[]") (Some "exito")
           (Some 5%Q) None None None
           (Some (Datetime 2024 1 1 10 0 0 0)) (Some (Datetime 2024 1 1 10 0 5 0))
           (Some "1.0") None None None.

Example contenido_demo :
  contenido episodio_demo = "demo2024-01-01 10:00:002024-01-01 10:00:051.0".
Proof. vm_compute. reflexivity. Qed.

Lemma contenido_db_a_dict (id_generado : string) (utcnow : datetime) (ep : episodio)
    (tabla tabla' : list EpisodioDB) (i : string) :
  guardar_episodio id_generado utcnow ep tabla = Devuelve (i, tabla') →
  ∃ f, tabla' = (tabla ++ [f])%list ∧ db_id f = i ∧
       db_checksum_integridad f = default "" (checksum_integridad ep) ∧
       contenido (_db_a_dict f) = contenido ep.
Proof.
  unfold guardar_episodio. intros H.
  destruct (timestamp_inicio ep) as [inicio|] eqn:Hi; [|done].
  destruct (timestamp_fin ep) as [fin|] eqn:Hf; [|done].
  destruct (existsb _ tabla); [done|].
  injection H as <- <-. eexists. split; [reflexivity|]. split; [done|]. split; [done|].
  unfold contenido. simpl. by rewrite Hi, Hf.
Qed.

(** C2, as stated, fails: the append stores the demo episode, handed over
    without a checksum, with the empty checksum, which is not the SHA-256
    digest of its canonical fields; the validator rejects the stored
    record. *)
Lemma C2_counterexample :
  ∃ f, guardar_episodio "episodio_20240101_100005_0a1b2c3d" (Datetime 2024 1 1 10 0 6 0)
         episodio_demo []
       = Devuelve ("episodio_20240101_100005_0a1b2c3d", [f]) ∧
       db_checksum_integridad f = "" ∧
       _calcular_checksum (_db_a_dict f)
       = "f9a920d39f80c9950c013b0f72a13535a39811bfdf26bcde29e995466f6d8048" ∧
       _validar_checksum (_db_a_dict f) = false.
Proof.
  eexists. split; [reflexivity|]. split; [reflexivity|].
  split; vm_compute; reflexivity.
Qed.

(** C2, amended.  The append computes and verifies no checksum: it stores
    the checksum the caller supplied, or the empty text when none was
    supplied, in a new row at the end of the table.  The stored episode
    satisfies sha256(canonical(E)) = E.checksum, that is, passes the
    validator's check, exactly when the caller supplied the digest of the
    canonical fields. *)
Theorem C2_guardar_conserva_el_checksum_recibido
    (id_generado : string) (utcnow : datetime) (ep : episodio)
    (tabla tabla' : list EpisodioDB) (i : string) :
  guardar_episodio id_generado utcnow ep tabla = Devuelve (i, tabla') →
  ∃ f, tabla' = (tabla ++ [f])%list ∧
       db_checksum_integridad f = default "" (checksum_integridad ep) ∧
       (_validar_checksum (_db_a_dict f) = true ↔
        checksum_integridad ep = Some (_calcular_checksum ep)).
Proof.
  intros H. apply contenido_db_a_dict in H as (f & -> & _ & Hsum & Hcont).
  exists f. split; [done|]. split; [done|].
  unfold _validar_checksum, _calcular_checksum. rewrite Hcont. simpl. rewrite Hsum.
  rewrite String.eqb_eq. destruct (checksum_integridad ep) as [c|]; simpl.
  - split; [by intros -> | by intros [= ->]].
  - split; [|done]. intros Hvacio.
    pose proof (Sha256.hexdigest_longitud (contenido ep)) as Hlen.
    by rewrite Hvacio in Hlen.
Qed.

Lemma C2_witness :
  ∃ f, [f] = ([] ++ [f])%list ∧
       db_checksum_integridad f = default "" (checksum_integridad episodio_demo) ∧
       (_validar_checksum (_db_a_dict f) = true ↔
        checksum_integridad episodio_demo = Some (_calcular_checksum episodio_demo)).
Proof.
  destruct (C2_guardar_conserva_el_checksum_recibido
              "episodio_20240101_100005_0a1b2c3d" (Datetime 2024 1 1 10 0 6 0)
              episodio_demo []
              [Fila "episodio_20240101_100005_0a1b2c3d" (Datetime 2024 1 1 10 0 6 0)
                    "demo" "s1" "{}" "[]" "exito" 5%Q "{}" "{}" "{}"
                    (Datetime 2024 1 1 10 0 0 0) (Datetime 2024 1 1 10 0 5 0)
                    "1.0" "" None "{}"]
              "episodio_20240101_100005_0a1b2c3d" eq_refl) as (f & Hf & Hsum & Hval).
  exists f. split; [|done].
  apply (app_inj_tail [] [] _ _) in Hf as [_ <-]. reflexivity.
Defined.

(** *** The table as a store *)

(** The primary key: no two rows of the table share an id. *)
Definition clave_primaria (tabla : list EpisodioDB) : Prop :=
  NoDup (map db_id tabla).

Lemma existsb_db_id (i : string) (tabla : list EpisodioDB) :
  existsb (λ f, String.eqb (db_id f) i) tabla = true ↔ In i (map db_id tabla).
Proof.
  rewrite existsb_exists, in_map_iff. split.
  - intros (f & Hf & Heq). apply String.eqb_eq in Heq. eauto.
  - intros (f & Heq & Hf). exists f. split; [done|]. by apply String.eqb_eq.
Qed.

Lemma find_app_nuevo (i : string) (tabla : list EpisodioDB) (f : EpisodioDB) :
  existsb (λ g, String.eqb (db_id g) i) tabla = false →
  List.find (λ g, String.eqb (db_id g) i) (tabla ++ [f]) =
  List.find (λ g, String.eqb (db_id g) i) [f].
Proof.
  induction tabla as [|g tabla IH]; [done|]. simpl.
  destruct (String.eqb (db_id g) i); [done|]. apply IH.
Qed.

Lemma find_app_otro (j : string) (tabla : list EpisodioDB) (f : EpisodioDB) :
  db_id f ≠ j →
  List.find (λ g, String.eqb (db_id g) j) (tabla ++ [f]) =
  List.find (λ g, String.eqb (db_id g) j) tabla.
Proof.
  intros Hj. induction tabla as [|g tabla IH]; simpl.
  - by apply String.eqb_neq in Hj as ->.
  - destruct (String.eqb (db_id g) j); [done|]. apply IH.
Qed.

(** A key of the dictionary [ep] that is present has the same value in
    [leido]. *)
Definition conserva {A : Type} (campo : episodio → option A) (ep leido : episodio) : Prop :=
  ∀ x, campo ep = Some x → campo leido = Some x.

(** X27.  A successful [guardar_episodio] followed by [obtener_episodio]
    of the returned id gives the episode back: every key the caller
    supplied has its value, the id is the returned one.  The episodes
    stored before are read as before, and the ids of the table stay
    distinct. *)
Theorem guardar_y_obtener_episodio (id_generado : string) (utcnow : datetime)
    (ep : episodio) (tabla tabla' : list EpisodioDB) (i : string) :
  guardar_episodio id_generado utcnow ep tabla = Devuelve (i, tabla') →
  (∃ leido,
     obtener_episodio i tabla' = Some leido ∧ id leido = Some i ∧
     conserva id ep leido ∧ conserva objetivo ep leido ∧ conserva session_id ep leido ∧
     conserva plan_ejecutado ep leido ∧ conserva resultados_tareas ep leido ∧
     conserva estado_global ep leido ∧ conserva duracion_total_segundos ep leido ∧
     conserva contexto_ejecucion ep leido ∧ conserva metricas_rendimiento ep leido ∧
     conserva recursos_utilizados ep leido ∧ conserva timestamp_inicio ep leido ∧
     conserva timestamp_fin ep leido ∧ conserva version_sistema ep leido ∧
     conserva checksum_integridad ep leido ∧ conserva feedback_usuario ep leido ∧
     conserva evaluacion_automatica ep leido) ∧
  (∀ j, j ≠ i → obtener_episodio j tabla' = obtener_episodio j tabla) ∧
  (clave_primaria tabla → clave_primaria tabla').
Proof.
  unfold guardar_episodio. intros H.
  destruct (timestamp_inicio ep) as [inicio|] eqn:Hi; [|done].
  destruct (timestamp_fin ep) as [fin|] eqn:Hf; [|done].
  destruct (existsb _ tabla) eqn:Hdup; [done|].
  injection H as <- <-. split; [|split].
  - unfold obtener_episodio. rewrite find_app_nuevo by done.
    cbn [List.find db_id]. rewrite String.eqb_refl. cbn [fmap option_fmap option_map].
    eexists. split; [reflexivity|]. split; [done|].
    unfold conserva, _db_a_dict. simpl. rewrite Hi, Hf.
    repeat split; intros x Hx; rewrite Hx; reflexivity.
  - intros j Hj. unfold obtener_episodio. rewrite find_app_otro; [done|].
    simpl. congruence.
  - unfold clave_primaria. intros Hnd. rewrite map_app. simpl.
    apply NoDup_app. split; [done|]. split; [|apply NoDup_singleton].
    intros x Hx [<-|[]]%list_elem_of_In. apply list_elem_of_In in Hx.
    apply existsb_db_id in Hx. congruence.
Qed.

Lemma guardar_y_obtener_episodio_witness :
  let tabla' :=
    [Fila "episodio_20240101_100005_0a1b2c3d" (Datetime 2024 1 1 10 0 6 0)
          "demo" "s1" "{}" "[]" "exito" 5%Q "{}" "{}" "{}"
          (Datetime 2024 1 1 10 0 0 0) (Datetime 2024 1 1 10 0 5 0)
          "1.0" "" None "{}"] in
  (∃ leido,
     obtener_episodio "episodio_20240101_100005_0a1b2c3d" tabla' = Some leido ∧
     id leido = Some "episodio_20240101_100005_0a1b2c3d" ∧
     conserva id episodio_demo leido ∧ conserva objetivo episodio_demo leido ∧
     conserva session_id episodio_demo leido ∧
     conserva plan_ejecutado episodio_demo leido ∧
     conserva resultados_tareas episodio_demo leido ∧
     conserva estado_global episodio_demo leido ∧
     conserva duracion_total_segundos episodio_demo leido ∧
     conserva contexto_ejecucion episodio_demo leido ∧
     conserva metricas_rendimiento episodio_demo leido ∧
     conserva recursos_utilizados episodio_demo leido ∧
     conserva timestamp_inicio episodio_demo leido ∧
     conserva timestamp_fin episodio_demo leido ∧
     conserva version_sistema episodio_demo leido ∧
     conserva checksum_integridad episodio_demo leido ∧
     conserva feedback_usuario episodio_demo leido ∧
     conserva evaluacion_automatica episodio_demo leido) ∧
  (∀ j, j ≠ "episodio_20240101_100005_0a1b2c3d" →
        obtener_episodio j tabla' = obtener_episodio j []) ∧
  (clave_primaria [] → clave_primaria tabla').
Proof.
  apply (guardar_y_obtener_episodio
           "episodio_20240101_100005_0a1b2c3d" (Datetime 2024 1 1 10 0 6 0)
           episodio_demo []).
  reflexivity.
Defined.

(** *** src/memoria/episodica/integridad.py : the validator *)

(** [_validar_formato_id(episodio_id)]. *)
Definition _validar_formato_id (episodio_id : string) : bool :=
  String.prefix "episodio_" episodio_id && (20 <? len episodio_id)%nat.

(** [datetime.toordinal()]: the day number in the proleptic Gregorian
    calendar. *)
Definition es_bisiesto (y : nat) : bool :=
  ((y mod 4 =? 0) && (negb (y mod 100 =? 0) || (y mod 400 =? 0)))%nat.

Definition dias_antes_del_anio (y : nat) : Z :=
  let y' := (Z.of_nat y - 1)%Z in
  (y' * 365 + y' / 4 - y' / 100 + y' / 400)%Z.

Definition dias_antes_del_mes (y m : nat) : Z :=
  (nth m [0; 0; 31; 59; 90; 120; 151; 181; 212; 243; 273; 304; 334] 0
   + if (2 <? m)%nat && es_bisiesto y then 1 else 0)%Z.

Definition toordinal (d : datetime) : Z :=
  (dias_antes_del_anio (anio d) + dias_antes_del_mes (anio d) (mes d) + Z.of_nat (dia d))%Z.

(** The microseconds from the start of the calendar to [d]. *)
Definition microsegundos (d : datetime) : Z :=
  ((toordinal d * 86400
    + Z.of_nat (hora d) * 3600 + Z.of_nat (minuto d) * 60 + Z.of_nat (segundo d)) * 1000000
   + Z.of_nat (microsegundo d))%Z.

(** [(fin - inicio).total_seconds()]: the microseconds of the difference
    divided by [10**6], a division of integers that gives the nearest
    float. *)
Definition total_seconds (fin inicio : datetime) : Q :=
  Binary64.redondear ((microsegundos fin - microsegundos inicio)%Z # 1000000).

(** [_validar_consistencia_temporal(episodio)]; the difference of the two
    durations is a subtraction of floats. *)
Definition _validar_consistencia_temporal (ep : episodio) : bool :=
  match timestamp_inicio ep, timestamp_fin ep with
  | Some inicio, Some fin =>
    if (microsegundos fin <=? microsegundos inicio)%Z then false
    else
      let duracion := default 0%Q (duracion_total_segundos ep) in
      let duracion_calculada := total_seconds fin inicio in
      negb (Qle_bool 1 (Qabs.Qabs (Binary64.fresta duracion_calculada duracion)))
  | _, _ => false
  end.

(** The tolerance is tested on the rounded difference: between time
    stamps 1.0009 s apart, a stored duration of 0.0009 s passes, the
    difference of the two floats being 0.9999999999999999, although the
    numbers written are exactly one second apart. *)
Example consistencia_temporal_redondeada :
  let ep := Episodio (Some "e") (Some "demo") None None None None
                     (Some (Binary64.redondear (9 # 10000))) None None None
                     (Some (Datetime 2024 1 1 10 0 0 0))
                     (Some (Datetime 2024 1 1 10 0 1 900))
                     None None None None in
  _validar_consistencia_temporal ep = true ∧
  (Binary64.fresta (total_seconds (Datetime 2024 1 1 10 0 1 900) (Datetime 2024 1 1 10 0 0 0))
                   (Binary64.redondear (9 # 10000))
   == 1 - Binary64.pot2 (-53))%Q.
Proof. split; vm_compute; reflexivity. Qed.

(** The length of an id is counted in characters: an id of twenty
    characters fails the format check, however many bytes it takes. *)
Example formato_id_en_caracteres :
  _validar_formato_id "episodio_ñññññññññññ" = false ∧
  String.length "episodio_ñññññññññññ" = 31%nat ∧
  _validar_formato_id "episodio_20240101_100005_0a1b2c3d" = true.
Proof. repeat split; reflexivity. Qed.

(** The dictionary [validar_episodio] returns. *)
Record validacion : Type := Validacion {
  integro : bool;
  errores : list string;
  advertencias : list string
}.

(** The required keys that are absent, in the order of
    [campos_requeridos]. *)
Definition falta {A : Type} (campo : option A) (nombre : string) : list string :=
  match campo with
  | Some _ => []
  | None => [nombre]
  end.

Definition campos_faltantes (ep : episodio) : list string :=
  falta (id ep) "id" ++ falta (objetivo ep) "objetivo" ++
  falta (plan_ejecutado ep) "plan_ejecutado" ++
  falta (resultados_tareas ep) "resultados_tareas".

(** [validar_episodio(episodio)]. *)
Definition validar_episodio (ep : episodio) : validacion :=
  let checksum := _validar_checksum ep in
  let faltantes := campos_faltantes ep in
  Validacion
    (checksum && (length faltantes =? 0)%nat)
    ((if checksum then [] else ["Checksum de integridad inválido"]) ++
     map (λ campo, "Campo requerido faltante: " ++ campo) faltantes ++
     (if _validar_formato_id (default "" (id ep)) then [] else ["Formato de ID inválido"]))
    (if _validar_consistencia_temporal ep then []
     else ["Inconsistencias temporales detectadas"]).

(** X29.  [validar_episodio] reports an episode as whole exactly when
    its checksum matches and the four required keys are present; the
    time check only adds a warning.  The list of errors is empty exactly
    when the episode is whole and its id has the expected format: an id of
    another format adds an error and leaves [integro] true. *)
Theorem validar_episodio_integro (ep : episodio) :
  let v := validar_episodio ep in
  (integro v = true ↔
   _validar_checksum ep = true ∧ is_Some (id ep) ∧ is_Some (objetivo ep) ∧
   is_Some (plan_ejecutado ep) ∧ is_Some (resultados_tareas ep)) ∧
  (errores v = [] ↔
   integro v = true ∧ _validar_formato_id (default "" (id ep)) = true) ∧
  (length (errores v) ≤ 6)%nat ∧
  (length (advertencias v) ≤ 1)%nat.
Proof.
  intros v. subst v. unfold validar_episodio, campos_faltantes. cbn [integro errores advertencias].
  destruct (_validar_checksum ep), (id ep) as [i|], (objetivo ep), (plan_ejecutado ep),
    (resultados_tareas ep), (_validar_formato_id _), (_validar_consistencia_temporal ep);
    cbn -[String.append]; (split; [|split; [|split; lia]]);
    (split; [try discriminate; try (intros _; repeat split; eauto)
            | try (intros (? & ? & ? & ? & ?); by repeat match goal with
                                          | H : is_Some None |- _ => destruct H as [? [=]]
                                          end);
              try (intros [? ?]; done)]).
Qed.

(** [_generar_id_episodio()]: [marca] is the text of
    [datetime.now().strftime('%Y%m%d_%H%M%S')] and [md5_hex] the MD5
    digest, in hexadecimal, of the text of the clock reading. *)
Definition _generar_id_episodio (marca md5_hex : string) : string :=
  "episodio_" ++ marca ++ "_" ++ substring 0 8 md5_hex.

Lemma len_append (s1 s2 : string) : len (s1 ++ s2) = (len s1 + len s2)%nat.
Proof. induction s1 as [|c s1 IH]; [done|]. simpl. rewrite IH. lia. Qed.

(** X30.  An episode handed over without an id is stored under the
    generated id, and that id passes [_validar_formato_id] whenever the
    time stamp in it has its fifteen characters. *)
Theorem id_generado_con_formato_valido (marca md5_hex : string) (utcnow : datetime)
    (ep : episodio) (tabla tabla' : list EpisodioDB) (i : string) :
  len marca = 15%nat →
  id ep = None →
  guardar_episodio (_generar_id_episodio marca md5_hex) utcnow ep tabla
  = Devuelve (i, tabla') →
  i = _generar_id_episodio marca md5_hex ∧ _validar_formato_id i = true.
Proof.
  intros Hmarca Hid H.
  assert (i = _generar_id_episodio marca md5_hex) as ->.
  { unfold guardar_episodio in H. rewrite Hid in H.
    destruct (timestamp_inicio ep); [|done]. destruct (timestamp_fin ep); [|done].
    destruct (existsb _ tabla); [done|]. by injection H as <- _. }
  split; [done|].
  unfold _validar_formato_id, _generar_id_episodio. apply andb_true_iff. split.
  - simpl. by destruct marca.
  - apply Nat.ltb_lt. rewrite !len_append, Hmarca. simpl. lia.
Qed.

Lemma id_generado_con_formato_valido_witness :
  "episodio_20240101_100005_0a1b2c3d"
  = _generar_id_episodio "20240101_100005" "0a1b2c3d4e5f60718293a4b5c6d7e8f9" ∧
  _validar_formato_id "episodio_20240101_100005_0a1b2c3d" = true.
Proof.
  apply (id_generado_con_formato_valido
           "20240101_100005" "0a1b2c3d4e5f60718293a4b5c6d7e8f9"
           (Datetime 2024 1 1 10 0 6 0) episodio_demo []
           [Fila "episodio_20240101_100005_0a1b2c3d" (Datetime 2024 1 1 10 0 6 0)
                 "demo" "s1" "{}" "[]" "exito" 5%Q "{}" "{}" "{}"
                 (Datetime 2024 1 1 10 0 0 0) (Datetime 2024 1 1 10 0 5 0)
                 "1.0" "" None "{}"]);
    reflexivity.
Defined.

End Episodica.
